(** * p110-reader: the KLAP session layer, discovery and energy windows

    A shallow embedding of [internal/tapo] (klap.go, the client, discovery
    and the energy-data types) and of the arithmetic of the command-line
    program's reports and polls, with the properties the specification
    states and further properties read off the code.

    Conventions.
    - A Go [[]byte] is a [list byte]; a Go [string] is converted with
      [list_byte_of_string] where the code converts it with [[]byte(s)].
    - A Go [int] is a [Z]; [int32] and [uint32] are [Z] with the wrap-around
      written out ([int32_of_Z], [uint32_of_Z]).
    - A Go [error] is a value of [error], one constructor per message the code
      builds with [fmt.Errorf]; [%w] wrapping is a constructor argument.
    - Functions of Go's standard library are not part of the repository: the
      hash functions and the AES block cipher are the operations of the class
      [Primitives], and what the proofs need of them is stated by [HashLaws]
      and [CipherLaws]; [Standard] instantiates them with SHA-1, SHA-256 and
      AES. CBC mode,
      [encoding/binary], [bytes] and the calendar arithmetic of [time] are
      written out; [encoding/json] stays a parameter. *)

From Stdlib Require Import String Ascii ZArith NArith List Sorted Lia Bool Btauto.
From Stdlib Require Import DecimalString DecimalZ DecimalPos.
From Stdlib Require Strings.Byte.
From Stdlib Require Import Init.Byte.
Import ListNotations.
Open Scope Z_scope.

(** ** Bytes and fixed-width integers *)

Definition bytes := list byte.

(** Go's [len]. *)
Definition len {A : Type} (l : list A) : Z := Z.of_nat (length l).

(** Go's conversion [byte(x)] of an integer: the low eight bits. *)
Definition byte_of_Z (z : Z) : byte :=
  match Byte.of_N (Z.to_N (z mod 256)) with
  | Some b => b
  | None => "000"%byte
  end.

(** Go's conversion [int(b)] of a byte. *)
Definition Z_of_byte (b : byte) : Z := Z.of_N (Byte.to_N b).

(** [data[i]] for an index the code has already bounded. *)
Definition index (data : bytes) (i : Z) : byte := nth (Z.to_nat i) data "000"%byte.

(** [data[lo:hi]]. *)
Definition slice (data : bytes) (lo hi : Z) : bytes :=
  firstn (Z.to_nat (hi - lo)) (skipn (Z.to_nat lo) data).

(** [bytes.Equal]. *)
Fixpoint bytes_Equal (a b : bytes) : bool :=
  match a, b with
  | [], [] => true
  | x :: a', y :: b' => Byte.eqb x y && bytes_Equal a' b'
  | _, _ => false
  end.

(** [bytes.Repeat([]byte{b}, n)]. *)
Definition bytes_Repeat (b : byte) (n : Z) : bytes := repeat b (Z.to_nat n).

(** [uint32(x)] and [int32(x)]: reduction modulo 2^32, unsigned and signed. *)
Definition uint32_of_Z (z : Z) : Z := z mod 2 ^ 32.
Definition int32_of_Z (z : Z) : Z := (z + 2 ^ 31) mod 2 ^ 32 - 2 ^ 31.

Definition is_int32 (z : Z) : Prop := - 2 ^ 31 <= z < 2 ^ 31.
Definition MaxInt32 : Z := 2 ^ 31 - 1.
Definition MinInt32 : Z := - 2 ^ 31.

(** [binary.BigEndian.PutUint32] into a fresh four-byte slice. *)
Definition BigEndian_PutUint32 (v : Z) : bytes :=
  [ byte_of_Z (Z.shiftr v 24); byte_of_Z (Z.shiftr v 16);
    byte_of_Z (Z.shiftr v 8); byte_of_Z v ].

(** [binary.BigEndian.Uint32] of a four-byte slice. *)
Definition BigEndian_Uint32 (b : bytes) : Z :=
  Z.lor (Z.lor (Z.lor (Z_of_byte (index b 3))
                      (Z.shiftl (Z_of_byte (index b 2)) 8))
               (Z.shiftl (Z_of_byte (index b 1)) 16))
        (Z.shiftl (Z_of_byte (index b 0)) 24).

(** [copy(dst, src)]: the first [min(len dst, len src)] bytes are replaced. *)
Definition copy (dst src : bytes) : bytes :=
  firstn (length dst) src ++ skipn (length src) dst.

(** [fmt]'s [%d]. *)
Definition fmt_d (z : Z) : string := NilZero.string_of_int (Z.to_int z).

(** ** Errors and outcomes *)

(** The errors the package builds, one constructor per [fmt.Errorf] message. *)
Inductive error : Type :=
| ErrEmptyData                         (* "empty data" *)
| ErrInvalidPadding                    (* "invalid padding" *)
| ErrKeySize (n : Z)                   (* aes.KeySizeError(n) *)
| ErrCreateCipher (e : error)          (* "failed to create AES cipher: %w" *)
| ErrPayloadTooShort                   (* "payload too short" *)
| ErrSignature                         (* "signature verification failed" *)
| ErrUnpad (e : error)                 (* "failed to unpad: %w" *)
| ErrTransport                         (* an error of net/http or io *)
| ErrPost (e : error)                  (* "POST request failed: %w" *)
| ErrReadBody (e : error)              (* "failed to read response body: %w" *)
| ErrHandshake1Status (code : Z)       (* "handshake1 returned status %d" *)
| ErrHandshake1Length (n : Z)          (* "unexpected handshake1 response length: %d" *)
| ErrServerHash                        (* "server hash verification failed (invalid credentials?)" *)
| ErrHandshake2Status (code : Z)       (* "handshake2 returned status %d" *)
| ErrHandshake1 (e : error)            (* "handshake1 failed: %w" *)
| ErrHandshake2 (e : error)            (* "handshake2 failed: %w" *)
| ErrEncryption (e : error)            (* "encryption failed: %w" *)
| ErrRequestStatus (code : Z) (body : bytes) (* "request returned status %d: %s" *)
| ErrDecryption (e : error)            (* "decryption failed: %w" *)
| ErrMarshal                           (* "failed to marshal request: %w" *)
| ErrRequest (e : error)               (* "request failed: %w" *)
| ErrUnmarshal                         (* "failed to unmarshal response: %w" *)
| ErrDeviceCode (code : Z)             (* "device returned error code: %d" *)
| ErrInvalidInterval (i : string)      (* "invalid interval: %s" *)
| ErrCreateSocket                      (* "failed to create UDP socket: %w" *)
| ErrSetWriteDeadline                  (* "failed to set write deadline: %w" *)
| ErrSendBroadcast                     (* "failed to send discovery broadcast: %w" *)
| ErrSetReadDeadline                   (* "failed to set read deadline: %w" *)
| ErrContext.                          (* ctx.Err() *)

(** What a call does: it returns a value, returns an error, or panics. *)
Inductive outcome (A : Type) : Type :=
| Ok (a : A)
| Err (e : error)
| Panic (msg : string).
Arguments Ok {A} a.
Arguments Err {A} e.
Arguments Panic {A} msg.

(** ** PKCS#7 (klap.go, pkcs7Pad and pkcs7Unpad) *)

Definition pkcs7Pad (data : bytes) (blockSize : Z) : bytes :=
  let padding := blockSize - Z.rem (len data) blockSize in
  let padtext := bytes_Repeat (byte_of_Z padding) padding in
  data ++ padtext.

(** The loop [for i := 0; i < padding; i++] of pkcs7Unpad: [todo] iterations
    are left, the next one reads [data[length-1-i]]; [false] is the early
    return with "invalid padding". *)
Fixpoint pkcs7Unpad_loop (data : bytes) (length padding : Z) (todo : nat) (i : Z) : bool :=
  match todo with
  | O => true
  | S todo' =>
      if Byte.eqb (index data (length - 1 - i)) (byte_of_Z padding)
      then pkcs7Unpad_loop data length padding todo' (i + 1)
      else false
  end.

Definition pkcs7Unpad (data : bytes) : outcome bytes :=
  let length := len data in
  if length =? 0 then Err ErrEmptyData
  else
    let padding := Z_of_byte (index data (length - 1)) in
    if (padding >? length) || (padding =? 0) then Err ErrInvalidPadding
    else if pkcs7Unpad_loop data length padding (Z.to_nat padding) 0
         then Ok (slice data 0 (length - padding))
         else Err ErrInvalidPadding.

(** ** Primitives of crypto/sha1, crypto/sha256 and crypto/aes *)

Class Primitives : Type := {
  (** [sha1.Sum] *)
  sha1_Sum : bytes -> bytes;
  (** [sha256.Sum256] *)
  sha256_Sum256 : bytes -> bytes;
  (** [Encrypt] of the [cipher.Block] that [aes.NewCipher(key)] returns *)
  aes_Encrypt : bytes -> bytes -> bytes;
  (** [Decrypt] of the same block *)
  aes_Decrypt : bytes -> bytes -> bytes
}.

(** What the standard library documents of them: the digest sizes; the block
    size, and that [Decrypt] inverts [Encrypt] under one key. *)
Record HashLaws (P : Primitives) : Prop := {
  sha1_Size : forall m, length (sha1_Sum m) = 20%nat;
  sha256_Size : forall m, length (sha256_Sum256 m) = 32%nat
}.

Record CipherLaws (P : Primitives) : Prop := {
  aes_Encrypt_size : forall k b, length b = 16%nat -> length (aes_Encrypt k b) = 16%nat;
  aes_Decrypt_Encrypt : forall k b, length b = 16%nat -> aes_Decrypt k (aes_Encrypt k b) = b
}.

(** A [hash.Hash]: what was written so far. [Write] appends, [Sum(nil)]
    digests everything written. *)
Record hasher : Type := { written : bytes }.

Definition sha256_New : hasher := {| written := [] |}.
Definition Write (h : hasher) (p : bytes) : hasher := {| written := written h ++ p |}.
Definition Sum {P : Primitives} (h : hasher) : bytes := sha256_Sum256 (written h).

(** [aes.BlockSize] *)
Definition aes_BlockSize : Z := 16.

(** [aes.NewCipher]: keys of 16, 24 or 32 bytes, [KeySizeError] otherwise.
    The block is represented by its key. *)
Definition aes_NewCipher (key : bytes) : outcome bytes :=
  let k := len key in
  if (k =? 16) || (k =? 24) || (k =? 32) then Ok key else Err (ErrKeySize k).

(** [subtle.XORBytes]: as many bytes as the shorter operand has. *)
Fixpoint xor_bytes (a b : bytes) : bytes :=
  match a, b with
  | x :: a', y :: b' =>
      byte_of_Z (Z.lxor (Z_of_byte x) (Z_of_byte y)) :: xor_bytes a' b'
  | _, _ => []
  end.

(** The full blocks of [data], in order; [fuel] bounds their number. *)
Fixpoint blocks_of (fuel : nat) (data : bytes) : list bytes :=
  match fuel with
  | O => []
  | S fuel' =>
      match data with
      | [] => []
      | _ => firstn 16 data :: blocks_of fuel' (skipn 16 data)
      end
  end.

(** Cipher block chaining over whole blocks. *)
Fixpoint cbc_encrypt_blocks {P : Primitives} (key iv : bytes) (blocks : list bytes) : list bytes :=
  match blocks with
  | [] => []
  | b :: rest =>
      let c := aes_Encrypt key (xor_bytes b iv) in
      c :: cbc_encrypt_blocks key c rest
  end.

Fixpoint cbc_decrypt_blocks {P : Primitives} (key iv : bytes) (blocks : list bytes) : list bytes :=
  match blocks with
  | [] => []
  | c :: rest =>
      xor_bytes (aes_Decrypt key c) iv :: cbc_decrypt_blocks key c rest
  end.

(** [cipher.NewCBCEncrypter(block, iv)] followed by [CryptBlocks(dst, src)]
    with [len(dst) == len(src)]: the constructor panics on an IV that is not
    one block long, [CryptBlocks] on input that is not whole blocks. *)
Definition CBCEncrypter_CryptBlocks {P : Primitives} (block iv src : bytes) : outcome bytes :=
  if negb (len iv =? aes_BlockSize)
  then Panic "cipher.NewCBCEncrypter: IV length must equal block size"
  else if negb (Z.rem (len src) aes_BlockSize =? 0)
  then Panic "crypto/cipher: input not full blocks"
  else Ok (concat (cbc_encrypt_blocks block iv (blocks_of (length src) src))).

Definition CBCDecrypter_CryptBlocks {P : Primitives} (block iv src : bytes) : outcome bytes :=
  if negb (len iv =? aes_BlockSize)
  then Panic "cipher.NewCBCDecrypter: IV length must equal block size"
  else if negb (Z.rem (len src) aes_BlockSize =? 0)
  then Panic "crypto/cipher: input not full blocks"
  else Ok (concat (cbc_decrypt_blocks block iv (blocks_of (length src) src))).

(** [binary.BigEndian.PutUint32(b[off:], v)] for [len(b) >= off+4]. *)
Definition PutUint32_at (b : bytes) (off : nat) (v : Z) : bytes :=
  firstn off b ++ BigEndian_PutUint32 v ++ skipn (off + 4) b.

(** ** The KLAP session (klap.go) *)

Definition klapSeedSize : Z := 16.
Definition klapIVSize : Z := 12.

(** [klapSession]; the HTTP client with its cookie jar is the environment
    ([device] below). *)
Record klapSession : Type := {
  localSeed : bytes;
  remoteSeed : bytes;
  authHash : bytes;
  key : bytes;
  ivSeq : bytes;
  sig : bytes;
  seq : Z;                (* int32 *)
  baseURL : string;
  host : string
}.

Definition generateAuthHash {P : Primitives} (username password : string) : bytes :=
  let userHash := sha1_Sum (list_byte_of_string username) in
  let passHash := sha1_Sum (list_byte_of_string password) in
  let combined := [] in
  let combined := combined ++ userHash in
  let combined := combined ++ passHash in
  let authHash := sha256_Sum256 combined in
  authHash.

(** [newKlapSession] after [rand.Read] filled [localSeed]. *)
Definition newKlapSession {P : Primitives} (ip username password : string) (localSeed : bytes)
  : klapSession :=
  {| localSeed := localSeed; remoteSeed := []; authHash := generateAuthHash username password;
     key := []; ivSeq := []; sig := []; seq := 0;
     baseURL := ("http://" ++ ip ++ "/app")%string; host := ip |}.

Definition calculateServerHash {P : Primitives} (s : klapSession) : bytes :=
  let h := sha256_New in
  let h := Write h (localSeed s) in
  let h := Write h (remoteSeed s) in
  let h := Write h (authHash s) in
  Sum h.

Definition calculateClientHash {P : Primitives} (s : klapSession) : bytes :=
  let h := sha256_New in
  let h := Write h (remoteSeed s) in
  let h := Write h (localSeed s) in
  let h := Write h (authHash s) in
  Sum h.

(** [concat(slices ...[]byte)]: append each slice to the result. *)
Definition concat_slices (slices : list bytes) : bytes :=
  fold_left (fun result s => result ++ s) slices [].

(** [sha256Hash(parts ...[]byte)]: write each part, then sum. *)
Definition sha256Hash {P : Primitives} (parts : list bytes) : bytes :=
  Sum (fold_left Write parts sha256_New).

Definition with_keys (s : klapSession) (k iv sg : bytes) (sq : Z) : klapSession :=
  {| localSeed := localSeed s; remoteSeed := remoteSeed s; authHash := authHash s;
     key := k; ivSeq := iv; sig := sg; seq := sq;
     baseURL := baseURL s; host := host s |}.

Definition deriveKeys {P : Primitives} (s : klapSession) : klapSession :=
  let localHash := concat_slices [localSeed s; remoteSeed s; authHash s] in
  let keyData := sha256Hash [list_byte_of_string "lsk"; localHash] in
  let key' := slice keyData 0 16 in
  let ivData := sha256Hash [list_byte_of_string "iv"; localHash] in
  let ivSeq' := slice ivData 0 klapIVSize in
  let seq' := int32_of_Z (BigEndian_Uint32 (slice ivData 28 32)) in
  let sigData := sha256Hash [list_byte_of_string "ldk"; localHash] in
  let sig' := slice sigData 0 28 in
  with_keys s key' ivSeq' sig' seq'.

(** *** The HTTP exchange *)

(** What [httpClient.Post(url, contentType, body)] sends. *)
Record http_request : Type := {
  req_url : string;
  req_contentType : string;
  req_body : bytes
}.

(** What comes back: an error of [Post], or a response with its status code
    and the result of [io.ReadAll(resp.Body)] ([None] when reading fails). *)
Inductive http_reply : Type :=
| PostError
| Response (StatusCode : Z) (Body : option bytes).

(** The peer, as far as one call is concerned. *)
Definition device : Type := http_request -> http_reply.

Definition http_StatusOK : Z := 200.

Definition with_remoteSeed (s : klapSession) (r : bytes) : klapSession :=
  {| localSeed := localSeed s; remoteSeed := r; authHash := authHash s;
     key := key s; ivSeq := ivSeq s; sig := sig s; seq := seq s;
     baseURL := baseURL s; host := host s |}.

Definition with_seq (s : klapSession) (sq : Z) : klapSession :=
  {| localSeed := localSeed s; remoteSeed := remoteSeed s; authHash := authHash s;
     key := key s; ivSeq := ivSeq s; sig := sig s; seq := sq;
     baseURL := baseURL s; host := host s |}.

(** The request [handshake1] posts. *)
Definition handshake1_request (s : klapSession) : http_request :=
  {| req_url := (baseURL s ++ "/handshake1")%string;
     req_contentType := "application/octet-stream";
     req_body := localSeed s |}.

(** [handshake1]: the returned error ([Ok tt] for nil) and the session as the
    call leaves it. *)
Definition handshake1 {P : Primitives} (s : klapSession) (d : device)
  : outcome unit * klapSession :=
  match d (handshake1_request s) with
  | PostError => (Err (ErrPost ErrTransport), s)
  | Response StatusCode Body =>
      if negb (StatusCode =? http_StatusOK)
      then (Err (ErrHandshake1Status StatusCode), s)
      else
        match Body with
        | None => (Err (ErrReadBody ErrTransport), s)
        | Some body =>
            if negb (len body =? 48)
            then (Err (ErrHandshake1Length (len body)), s)
            else
              let s := with_remoteSeed s (slice body 0 16) in
              let serverHash := slice body 16 48 in
              let expectedHash := calculateServerHash s in
              if negb (bytes_Equal serverHash expectedHash)
              then (Err ErrServerHash, s)
              else (Ok tt, s)
        end
  end.

(** The request [handshake2] posts. *)
Definition handshake2_request {P : Primitives} (s : klapSession) : http_request :=
  let clientHash := calculateClientHash s in
  {| req_url := (baseURL s ++ "/handshake2")%string;
     req_contentType := "application/octet-stream";
     req_body := clientHash |}.

Definition handshake2 {P : Primitives} (s : klapSession) (d : device) : outcome unit :=
  match d (handshake2_request s) with
  | PostError => Err (ErrPost ErrTransport)
  | Response StatusCode _ =>
      if negb (StatusCode =? http_StatusOK)
      then Err (ErrHandshake2Status StatusCode)
      else Ok tt
  end.

(** [handshake]: both steps, then the keys. *)
Definition handshake {P : Primitives} (s : klapSession) (d1 d2 : device)
  : outcome unit * klapSession :=
  match handshake1 s d1 with
  | (Err e, s) => (Err (ErrHandshake1 e), s)
  | (Panic m, s) => (Panic m, s)
  | (Ok _, s) =>
      match handshake2 s d2 with
      | Err e => (Err (ErrHandshake2 e), s)
      | Panic m => (Panic m, s)
      | Ok _ => (Ok tt, deriveKeys s)
      end
  end.

(** *** Framing *)

(** The IV both [encrypt] and [decrypt] build: sixteen zero bytes, [ivSeq]
    copied over them, the sequence number written big-endian at offset 12. *)
Definition build_iv (s : klapSession) (seq : Z) : bytes :=
  let iv := repeat "000"%byte 16 in
  let iv := copy iv (ivSeq s) in
  PutUint32_at iv 12 (uint32_of_Z seq).

(** The signature both compute over a ciphertext. *)
Definition sign {P : Primitives} (s : klapSession) (seq : Z) (ciphertext : bytes) : bytes :=
  let seqBytes := BigEndian_PutUint32 (uint32_of_Z seq) in
  let sigHash := sha256_New in
  let sigHash := Write sigHash (sig s) in
  let sigHash := Write sigHash seqBytes in
  let sigHash := Write sigHash ciphertext in
  Sum sigHash.

(** [encrypt]: the payload and the sequence number used, and the session with
    its counter advanced (the increment comes first, whatever follows). *)
Definition encrypt {P : Primitives} (s : klapSession) (plaintext : bytes)
  : outcome (bytes * Z) * klapSession :=
  let s := with_seq s (int32_of_Z (seq s + 1)) in
  let seq := seq s in
  let iv := build_iv s seq in
  let padded := pkcs7Pad plaintext aes_BlockSize in
  match aes_NewCipher (key s) with
  | Err e => (Err (ErrCreateCipher e), s)
  | Panic m => (Panic m, s)
  | Ok block =>
      match CBCEncrypter_CryptBlocks block iv padded with
      | Err e => (Err e, s)
      | Panic m => (Panic m, s)
      | Ok ciphertext =>
          let signature := sign s seq ciphertext in
          let result := [] in
          let result := result ++ signature in
          let result := result ++ ciphertext in
          (Ok (result, seq), s)
      end
  end.

(** [decrypt]; it reads the session and leaves it as it is. *)
Definition decrypt {P : Primitives} (s : klapSession) (payload : bytes) (seq : Z)
  : outcome bytes :=
  if len payload <? 32 then Err ErrPayloadTooShort
  else
    let signature := slice payload 0 32 in
    let ciphertext := slice payload 32 (len payload) in
    let expectedSig := sign s seq ciphertext in
    if negb (bytes_Equal signature expectedSig) then Err ErrSignature
    else
      let iv := build_iv s seq in
      match aes_NewCipher (key s) with
      | Err e => Err (ErrCreateCipher e)
      | Panic m => Panic m
      | Ok block =>
          match CBCDecrypter_CryptBlocks block iv ciphertext with
          | Err e => Err e
          | Panic m => Panic m
          | Ok plaintext =>
              match pkcs7Unpad plaintext with
              | Err e => Err (ErrUnpad e)
              | Panic m => Panic m
              | Ok plaintext => Ok plaintext
              end
          end
      end.

(** The request [request] posts for an encrypted payload and its sequence
    number. *)
Definition request_request (s : klapSession) (encrypted : bytes) (seq : Z) : http_request :=
  {| req_url := (baseURL s ++ "/request?seq=" ++ fmt_d seq)%string;
     req_contentType := "application/octet-stream";
     req_body := encrypted |}.

(** [request]: the result, the session afterwards, and the requests that went
    out on the wire (none when encryption fails, one otherwise). *)
Definition request {P : Primitives} (s : klapSession) (payload : bytes) (d : device)
  : outcome bytes * klapSession * list http_request :=
  match encrypt s payload with
  | (Err e, s) => (Err (ErrEncryption e), s, [])
  | (Panic m, s) => (Panic m, s, [])
  | (Ok (encrypted, seq), s) =>
      let rq := request_request s encrypted seq in
      match d rq with
      | PostError => (Err (ErrPost ErrTransport), s, [rq])
      | Response StatusCode Body =>
          if negb (StatusCode =? http_StatusOK)
          then
            let body := match Body with Some b => b | None => [] end in
            (Err (ErrRequestStatus StatusCode body), s, [rq])
          else
            match Body with
            | None => (Err (ErrReadBody ErrTransport), s, [rq])
            | Some body =>
                match decrypt s body seq with
                | Err e => (Err (ErrDecryption e), s, [rq])
                | Panic m => (Panic m, s, [rq])
                | Ok plaintext => (Ok plaintext, s, [rq])
                end
            end
      end
  end.

(** A session's lifetime: one [request] after the other, each with the
    payload to send and the peer's behaviour for that call. The result is the
    final session and everything that went out, in order. *)
Fixpoint requests {P : Primitives} (s : klapSession) (calls : list (bytes * device))
  : klapSession * list http_request :=
  match calls with
  | [] => (s, [])
  | (payload, d) :: rest =>
      let '(_, s', sent) := request s payload d in
      let '(s'', sent') := requests s' rest in
      (s'', sent ++ sent')
  end.

(** ** The client (sendRequest and the commands' envelope) *)

(** [klapResponse]: [Result] is the raw JSON of the field. *)
Record klapResponse : Type := {
  ErrorCode : Z;
  Result : bytes
}.

(** The values the package passes as [params]. *)
Inductive params : Type :=
| ParamsNil
| ParamsEnergyData (StartTimestamp EndTimestamp Interval : Z)
| ParamsDeviceOn (device_on : bool).

(** The fields of [discoveryResponse] that discovery reads. *)
Record discoveryResponse : Type := {
  Result_DeviceID : string;
  Result_DeviceModel : string;
  Result_IP : string;
  Result_MAC : string;
  discovery_ErrorCode : Z
}.

(** [encoding/json], as far as the package uses it: [Marshal] of the request
    map ([None] is an error), [Unmarshal] into a [klapResponse] and into a
    [discoveryResponse] ([None] is an error). *)
Class Json : Type := {
  json_Marshal : string -> option params -> option bytes;
  json_Unmarshal_klapResponse : bytes -> option klapResponse;
  json_Unmarshal_discoveryResponse : bytes -> option discoveryResponse
}.

(** [P110]; the mutex serialises callers and has no state of its own here. *)
Record P110 : Type := {
  ip : string;
  session : klapSession;
  terminalUUID : string
}.

Definition with_session (p : P110) (s : klapSession) : P110 :=
  {| ip := ip p; session := s; terminalUUID := terminalUUID p |}.

(** [sendRequest]: the raw result or the error, the connection afterwards,
    and what went out on the wire. The request map holds "method", and
    "params" when [params] is not nil. *)
Definition sendRequest {P : Primitives} {J : Json} (p : P110) (method : string) (pr : params)
  (d : device) : outcome bytes * P110 * list http_request :=
  let req := (method, match pr with ParamsNil => None | _ => Some pr end) in
  match json_Marshal (fst req) (snd req) with
  | None => (Err ErrMarshal, p, [])
  | Some reqJSON =>
      match request (session p) reqJSON d with
      | (Err e, s, sent) => (Err (ErrRequest e), with_session p s, sent)
      | (Panic m, s, sent) => (Panic m, with_session p s, sent)
      | (Ok respJSON, s, sent) =>
          match json_Unmarshal_klapResponse respJSON with
          | None => (Err ErrUnmarshal, with_session p s, sent)
          | Some resp =>
              if negb (ErrorCode resp =? 0)
              then (Err (ErrDeviceCode (ErrorCode resp)), with_session p s, sent)
              else (Ok (Result resp), with_session p s, sent)
          end
      end
  end.

(** ** Discovery (DiscoverWithTimeout) *)

Record DiscoveredDevice : Type := {
  IP : string;
  MAC : string;
  DeviceID : string;
  Model : string;
  Alias : string
}.

(** What one turn of the collection loop meets, in the order the loop asks:
    a cancelled context, an elapsed deadline, a failing [SetReadDeadline], or
    the result of [ReadFromUDP]. *)
Inductive turn : Type :=
| CtxDone
| DeadlineElapsed
| SetReadDeadlineFails
| ReadTimeout                               (* a net.Error with Timeout() *)
| ReadFails                                 (* any other read error *)
| Datagram (payload : bytes) (addr : string). (* a datagram and addr.IP.String() *)

(** The socket set-up before the loop. *)
Inductive setup : Type :=
| SetupOk
| ListenFails
| SetWriteDeadlineFails
| WriteFails.

(** [seen[ip]] of the [map[string]bool]: the keys set to true. *)
Definition seen_get (seen : list string) (ip : string) : bool :=
  existsb (String.eqb ip) seen.

Definition seen_set (seen : list string) (ip : string) : list string := ip :: seen.

(** What the loop body does with a datagram: [None] is [continue], [Some] the
    device to append with its ip. The read fills a 2048-byte buffer. *)
Definition accept_datagram {J : Json} (seen : list string) (payload : bytes) (addr : string)
  : option DiscoveredDevice :=
  let buf := firstn 2048 payload in
  let n := len buf in
  if n <=? 16 then None
  else
    let jsonData := slice buf 16 n in
    match json_Unmarshal_discoveryResponse jsonData with
    | None => None
    | Some resp =>
        if negb (discovery_ErrorCode resp =? 0) then None
        else
          let ip := Result_IP resp in
          let ip := if String.eqb ip "" then addr else ip in
          if seen_get seen ip then None
          else Some {| IP := ip; MAC := Result_MAC resp;
                       DeviceID := Result_DeviceID resp;
                       Model := Result_DeviceModel resp; Alias := "" |}
    end.

(** The [for] loop, one [turn] per iteration; when the turns run out the
    deadline has elapsed. *)
Fixpoint discover_loop {J : Json} (turns : list turn) (devices : list DiscoveredDevice)
  (seen : list string) : list DiscoveredDevice * option error :=
  match turns with
  | [] => (devices, None)
  | CtxDone :: _ => (devices, Some ErrContext)
  | DeadlineElapsed :: _ => (devices, None)
  | SetReadDeadlineFails :: _ => (devices, Some ErrSetReadDeadline)
  | ReadTimeout :: _ => (devices, None)
  | ReadFails :: rest => discover_loop rest devices seen
  | Datagram payload addr :: rest =>
      match accept_datagram seen payload addr with
      | None => discover_loop rest devices seen
      | Some dev => discover_loop rest (devices ++ [dev]) (seen_set seen (IP dev))
      end
  end.

Definition DiscoverWithTimeout {J : Json} (st : setup) (turns : list turn)
  : option (list DiscoveredDevice) * option error :=
  match st with
  | ListenFails => (None, Some ErrCreateSocket)
  | SetWriteDeadlineFails => (None, Some ErrSetWriteDeadline)
  | WriteFails => (None, Some ErrSendBroadcast)
  | SetupOk =>
      let devices := [] in
      let seen := [] in
      let '(devices, err) := discover_loop turns devices seen in
      (Some devices, err)
  end.

(** ** Time (package time, as far as the energy windows use it)

    A [Time] is an instant in Unix seconds with its location; the calendar
    is the proleptic Gregorian one. A [Location] is known by what its
    [lookup] answers for an instant: the offset in force (seconds east of
    UTC) and the bounds of the period in which it is in force. *)

Record Location : Type := { lookup : Z -> Z * Z * Z }.

Record Time : Type := { unixSec : Z; location : Location }.

(** [time.FixedZone]: one offset, in force from [alpha] to [omega]. *)
Definition alpha : Z := - 2 ^ 63.
Definition omega : Z := 2 ^ 63 - 1.
Definition time_FixedZone (offset : Z) : Location :=
  {| lookup := fun _ => (offset, alpha, omega) |}.

Definition offset_at (loc : Location) (u : Z) : Z := fst (fst (lookup loc u)).

Definition secondsPerDay : Z := 86400.

(** Days from 1970-01-01 to the civil date [y]-[m]-[d]; the year counted from
    March, so that the leap day comes last. *)
Definition days_from_civil (y m d : Z) : Z :=
  let y' := if m <=? 2 then y - 1 else y in
  let mp := (m + 9) mod 12 in
  365 * y' + y' / 4 - y' / 100 + y' / 400 + (153 * mp + 2) / 5 + d - 1 - 719468.

(** The civil date of a day count. *)
Definition civil_from_days (z : Z) : Z * Z * Z :=
  let z := z + 719468 in
  let era := z / 146097 in
  let doe := z mod 146097 in
  let yoe := (doe - doe / 1460 + doe / 36524 - doe / 146096) / 365 in
  let doy := doe - (365 * yoe + yoe / 4 - yoe / 100) in
  let mp := (5 * doy + 2) / 153 in
  let d := doy - (153 * mp + 2) / 5 + 1 in
  let m := if mp <? 10 then mp + 3 else mp - 9 in
  let y := yoe + era * 400 in
  (if m <=? 2 then y + 1 else y, m, d).

(** Seconds since the epoch of the wall clock the location shows at [t]. *)
Definition wall (t : Time) : Z := unixSec t + offset_at (location t) (unixSec t).

(** [t.Date()] and [t.Clock()]. *)
Definition Time_Date (t : Time) : Z * Z * Z := civil_from_days (wall t / secondsPerDay).
Definition Time_Clock (t : Time) : Z * Z * Z :=
  let s := wall t mod secondsPerDay in
  (s / 3600, (s mod 3600) / 60, s mod 60).

Definition Time_Year (t : Time) : Z := fst (fst (Time_Date t)).
Definition Time_Month (t : Time) : Z := snd (fst (Time_Date t)).
Definition Time_Day (t : Time) : Z := snd (Time_Date t).
Definition Time_Location (t : Time) : Location := location t.
Definition Time_Unix (t : Time) : Z := unixSec t.

(** The end of [time.Date]: from the wall-clock seconds [unix] to the
    instant. The offset is looked up at [unix] itself and, when that guess
    is not in force at the instant it gives, looked up again there. *)
Definition zone_adjust (loc : Location) (unix : Z) : Z :=
  let '(offset, start, end_) := lookup loc unix in
  if offset =? 0 then unix
  else
    let utc := unix - offset in
    let offset :=
      if (utc <? start) || (utc >=? end_) then offset_at loc utc else offset in
    unix - offset.

(** [time.Date(year, month, day, hour, min, sec, 0, loc)]: the month is
    normalised into the year; days and the clock add up linearly. *)
Definition time_Date (year month day hour min sec : Z) (loc : Location) : Time :=
  let m := month - 1 in
  let year := year + m / 12 in
  let m := m mod 12 in
  let month := m + 1 in
  let d := days_from_civil year month 1 + (day - 1) in
  let abs := d * secondsPerDay + hour * 3600 + min * 60 + sec in
  {| unixSec := zone_adjust loc abs; location := loc |}.

(** [t.Add(d)] for a duration of [seconds] whole seconds. *)
Definition Time_Add (t : Time) (seconds : Z) : Time :=
  {| unixSec := unixSec t + seconds; location := location t |}.

(** [t.AddDate(years, months, days)]. *)
Definition Time_AddDate (t : Time) (years months days : Z) : Time :=
  let '(year, month, day) := Time_Date t in
  let '(hour, min, sec) := Time_Clock t in
  time_Date (year + years) (month + months) (day + days) hour min sec (Time_Location t).

(** ** Energy-data windows (types.go) *)

Definition EnergyDataInterval : Type := string.
Definition EnergyDataHourly : EnergyDataInterval := "hourly"%string.
Definition EnergyDataDaily : EnergyDataInterval := "daily"%string.
Definition EnergyDataMonthly : EnergyDataInterval := "monthly"%string.

Definition IntervalHourly : Z := 60.
Definition IntervalDaily : Z := 1440.
Definition IntervalMonthly : Z := 43200.

(** Go's [/] on [int]: the quotient truncated towards zero. *)
Definition getQuarterStartMonth (t : Time) : Z :=
  3 * Z.quot (Time_Month t - 1) 3 + 1.

Definition getStartEndTimestamps (interval : EnergyDataInterval) (t : Time) : Z * Z :=
  let loc := Time_Location t in
  if String.eqb interval EnergyDataHourly then
    let start := time_Date (Time_Year t) (Time_Month t) (Time_Day t) 0 0 0 loc in
    let end_ := Time_Add start (24 * 3600) in
    (Time_Unix start, Time_Unix end_)
  else if String.eqb interval EnergyDataDaily then
    let quarterStart := getQuarterStartMonth t in
    let start := time_Date (Time_Year t) quarterStart 1 0 0 0 loc in
    let end_ := Time_AddDate start 0 3 0 in
    (Time_Unix start, Time_Unix end_)
  else if String.eqb interval EnergyDataMonthly then
    let start := time_Date (Time_Year t) 1 1 0 0 0 loc in
    let end_ := time_Date (Time_Year t + 1) 1 1 0 0 0 loc in
    (Time_Unix start, Time_Unix end_)
  else (0, 0).

(** The [switch] of [GetEnergyData] that picks the [Interval] parameter. *)
Definition intervalMinutes (interval : EnergyDataInterval) : outcome Z :=
  if String.eqb interval EnergyDataHourly then Ok IntervalHourly
  else if String.eqb interval EnergyDataDaily then Ok IntervalDaily
  else if String.eqb interval EnergyDataMonthly then Ok IntervalMonthly
  else Err (ErrInvalidInterval interval).

(** ** The standard primitives: SHA-1, SHA-256 (FIPS 180-4) and AES (FIPS 197)

    What [crypto/sha1], [crypto/sha256] and [crypto/aes] compute, written out
    so that the model runs on concrete inputs and so that the laws are known
    to hold of the real functions. *)

Module FIPS.

(** *** Words *)

Definition add32 (a b : Z) : Z := (a + b) mod 2 ^ 32.
Definition not32 (a : Z) : Z := Z.lxor a (2 ^ 32 - 1).
Definition rotl32 (n a : Z) : Z :=
  Z.lor (Z.shiftl a n mod 2 ^ 32) (Z.shiftr a (32 - n)).
Definition rotr32 (n a : Z) : Z := rotl32 (32 - n) a.

(** A big-endian word of four bytes, and back. *)
Definition word_of_bytes (b : bytes) : Z := BigEndian_Uint32 b.
Definition bytes_of_word (w : Z) : bytes := BigEndian_PutUint32 w.

(** The sixteen words of a 64-byte block. *)
Definition words_of_block (b : bytes) : list Z :=
  map (fun i => word_of_bytes (firstn 4 (skipn (4 * i) b))) (List.seq 0 16).

(** The 64-bit big-endian length field. *)
Definition length_field (bits : Z) : bytes :=
  bytes_of_word (Z.shiftr bits 32) ++ bytes_of_word bits.

(** Merkle-Damgard padding: 0x80, zeros up to 56 modulo 64, the bit length. *)
Definition md_pad (m : bytes) : bytes :=
  let l := len m in
  let zeros := (55 - l) mod 64 in
  m ++ ["128"%byte] ++ repeat "000"%byte (Z.to_nat zeros) ++ length_field (8 * l).

(** The 64-byte blocks of a padded message. *)
Fixpoint blocks64 (fuel : nat) (data : bytes) : list bytes :=
  match fuel with
  | O => []
  | S fuel' =>
      match data with
      | [] => []
      | _ => firstn 64 data :: blocks64 fuel' (skipn 64 data)
      end
  end.

(** The message schedule, newest word first: [w] holds W[t-1], W[t-2], ... and
    [next] computes W[t] from it. *)
Fixpoint schedule (next : list Z -> Z) (n : nat) (w : list Z) : list Z :=
  match n with
  | O => w
  | S n' => schedule next n' (next w :: w)
  end.

(** *** SHA-256 *)

(** The constants of SHA-256 are fractional parts of roots of the first
    primes: 32 bits of the cube roots of the first 64 for the rounds, of the
    square roots of the first 8 for the initial state. *)
Definition is_prime (n : Z) : bool :=
  (2 <=? n) && forallb (fun d => negb (n mod Z.of_nat d =? 0)) (List.seq 2 (Z.to_nat n - 2)).

Fixpoint primes_from (fuel : nat) (n : Z) (count : nat) : list Z :=
  match fuel, count with
  | O, _ | _, O => []
  | S fuel', S count' =>
      if is_prime n then n :: primes_from fuel' (n + 1) count'
      else primes_from fuel' (n + 1) count
  end.

Definition first_primes (count : nat) : list Z := primes_from 400 2 count.

(** The integer cube root, one bit after the other from bit [bits - 1]. *)
Fixpoint cube_root_bits (bits : nat) (n r : Z) : Z :=
  match bits with
  | O => r
  | S bits' =>
      let r' := r + 2 ^ Z.of_nat bits' in
      if r' * r' * r' <=? n then cube_root_bits bits' n r' else cube_root_bits bits' n r
  end.

Definition cube_root (n : Z) : Z := cube_root_bits 40 n 0.

Definition K256 : list Z :=
  Eval vm_compute in map (fun p => cube_root (p * 2 ^ 96) mod 2 ^ 32) (first_primes 64).

Definition H256 : list Z :=
  Eval vm_compute in map (fun p => Z.sqrt (p * 2 ^ 64) mod 2 ^ 32) (first_primes 8).

Record state256 : Type := {
  h0 : Z; h1 : Z; h2 : Z; h3 : Z; h4 : Z; h5 : Z; h6 : Z; h7 : Z
}.

Definition init256 : state256 :=
  {| h0 := nth 0 H256 0; h1 := nth 1 H256 0; h2 := nth 2 H256 0; h3 := nth 3 H256 0;
     h4 := nth 4 H256 0; h5 := nth 5 H256 0; h6 := nth 6 H256 0; h7 := nth 7 H256 0 |}.

Definition Ch (x y z : Z) : Z := Z.lxor (Z.land x y) (Z.land (not32 x) z).
Definition Maj (x y z : Z) : Z :=
  Z.lxor (Z.lxor (Z.land x y) (Z.land x z)) (Z.land y z).
Definition Sigma0 (x : Z) : Z := Z.lxor (Z.lxor (rotr32 2 x) (rotr32 13 x)) (rotr32 22 x).
Definition Sigma1 (x : Z) : Z := Z.lxor (Z.lxor (rotr32 6 x) (rotr32 11 x)) (rotr32 25 x).
Definition sigma0 (x : Z) : Z := Z.lxor (Z.lxor (rotr32 7 x) (rotr32 18 x)) (Z.shiftr x 3).
Definition sigma1 (x : Z) : Z := Z.lxor (Z.lxor (rotr32 17 x) (rotr32 19 x)) (Z.shiftr x 10).

Definition next256 (w : list Z) : Z :=
  add32 (add32 (sigma1 (nth 1 w 0)) (nth 6 w 0))
        (add32 (sigma0 (nth 14 w 0)) (nth 15 w 0)).

Definition round256 (s : state256) (kw : Z * Z) : state256 :=
  let '(k, w) := kw in
  let t1 := add32 (add32 (add32 (h7 s) (Sigma1 (h4 s))) (add32 (Ch (h4 s) (h5 s) (h6 s)) k)) w in
  let t2 := add32 (Sigma0 (h0 s)) (Maj (h0 s) (h1 s) (h2 s)) in
  {| h0 := add32 t1 t2; h1 := h0 s; h2 := h1 s; h3 := h2 s;
     h4 := add32 (h3 s) t1; h5 := h4 s; h6 := h5 s; h7 := h6 s |}.

Definition compress256 (s : state256) (block : bytes) : state256 :=
  let w := rev (schedule next256 48 (rev (words_of_block block))) in
  let r := fold_left round256 (combine K256 w) s in
  {| h0 := add32 (h0 s) (h0 r); h1 := add32 (h1 s) (h1 r);
     h2 := add32 (h2 s) (h2 r); h3 := add32 (h3 s) (h3 r);
     h4 := add32 (h4 s) (h4 r); h5 := add32 (h5 s) (h5 r);
     h6 := add32 (h6 s) (h6 r); h7 := add32 (h7 s) (h7 r) |}.

Definition digest256 (s : state256) : bytes :=
  bytes_of_word (h0 s) ++ bytes_of_word (h1 s) ++ bytes_of_word (h2 s) ++
  bytes_of_word (h3 s) ++ bytes_of_word (h4 s) ++ bytes_of_word (h5 s) ++
  bytes_of_word (h6 s) ++ bytes_of_word (h7 s).

Definition sha256 (m : bytes) : bytes :=
  let p := md_pad m in
  digest256 (fold_left compress256 (blocks64 (length p) p) init256).

(** *** SHA-1 *)

Record state160 : Type := { a0 : Z; b0 : Z; c0 : Z; d0 : Z; e0 : Z }.

Definition init160 : state160 :=
  {| a0 := 0x67452301; b0 := 0xefcdab89; c0 := 0x98badcfe; d0 := 0x10325476;
     e0 := 0xc3d2e1f0 |}.

Definition next160 (w : list Z) : Z :=
  rotl32 1 (Z.lxor (Z.lxor (nth 2 w 0) (nth 7 w 0)) (Z.lxor (nth 13 w 0) (nth 15 w 0))).

(** The round function and constant of round [t]. *)
Definition f160 (t : nat) (b c d : Z) : Z :=
  if (t <? 20)%nat then Ch b c d
  else if (t <? 40)%nat then Z.lxor (Z.lxor b c) d
  else if (t <? 60)%nat then Maj b c d
  else Z.lxor (Z.lxor b c) d.

Definition K160 (t : nat) : Z :=
  if (t <? 20)%nat then 0x5a827999
  else if (t <? 40)%nat then 0x6ed9eba1
  else if (t <? 60)%nat then 0x8f1bbcdc
  else 0xca62c1d6.

Definition round160 (s : state160) (tw : nat * Z) : state160 :=
  let '(t, w) := tw in
  let tmp := add32 (add32 (add32 (rotl32 5 (a0 s)) (f160 t (b0 s) (c0 s) (d0 s)))
                          (add32 (e0 s) w)) (K160 t) in
  {| a0 := tmp; b0 := a0 s; c0 := rotl32 30 (b0 s); d0 := c0 s; e0 := d0 s |}.

Definition compress160 (s : state160) (block : bytes) : state160 :=
  let w := rev (schedule next160 64 (rev (words_of_block block))) in
  let r := fold_left round160 (combine (List.seq 0 80) w) s in
  {| a0 := add32 (a0 s) (a0 r); b0 := add32 (b0 s) (b0 r);
     c0 := add32 (c0 s) (c0 r); d0 := add32 (d0 s) (d0 r);
     e0 := add32 (e0 s) (e0 r) |}.

Definition digest160 (s : state160) : bytes :=
  bytes_of_word (a0 s) ++ bytes_of_word (b0 s) ++ bytes_of_word (c0 s) ++
  bytes_of_word (d0 s) ++ bytes_of_word (e0 s).

Definition sha1 (m : bytes) : bytes :=
  let p := md_pad m in
  digest160 (fold_left compress160 (blocks64 (length p) p) init160).

(** *** AES *)

Definition xor_byte (a b : byte) : byte :=
  byte_of_Z (Z.lxor (Z_of_byte a) (Z_of_byte b)).

(** Multiplication by x in GF(2^8) modulo x^8 + x^4 + x^3 + x + 1. *)
Definition xtime (a : byte) : byte :=
  let z := 2 * Z_of_byte a in
  byte_of_Z (if z <? 256 then z else Z.lxor z 0x11b).

(** Multiplication in GF(2^8): [b] times the low [bits] bits of [a]. *)
Fixpoint gmul_bits (bits : nat) (a : Z) (b : byte) : byte :=
  match bits with
  | O => "000"%byte
  | S bits' =>
      let rest := gmul_bits bits' (Z.shiftr a 1) (xtime b) in
      if Z.odd a then xor_byte b rest else rest
  end.

Definition gmul (a : Z) (b : byte) : byte := gmul_bits 8 a b.

Definition all_bytes : list byte := map (fun n => byte_of_Z (Z.of_nat n)) (List.seq 0 256).

(** The multiplicative inverse, zero for zero. *)
Definition ginv (a : byte) : byte :=
  match find (fun b => Byte.eqb (gmul (Z_of_byte a) b) "001"%byte) all_bytes with
  | Some b => b
  | None => "000"%byte
  end.

Definition rotl8 (n z : Z) : Z := Z.lor (Z.shiftl z n mod 256) (Z.shiftr z (8 - n)).

(** The S-box: the inverse followed by the affine map. *)
Definition sbox_of (a : byte) : byte :=
  let z := Z_of_byte (ginv a) in
  byte_of_Z (Z.lxor (Z.lxor (Z.lxor z (rotl8 1 z)) (Z.lxor (rotl8 2 z) (rotl8 3 z)))
                    (Z.lxor (rotl8 4 z) 0x63)).

Definition sbox_table : list byte := Eval vm_compute in map sbox_of all_bytes.

Definition sbox (a : byte) : byte := nth (Byte.to_nat a) sbox_table "000"%byte.

Definition inv_sbox_table : list byte :=
  Eval vm_compute in
    map (fun b => match find (fun a => Byte.eqb (sbox a) b) all_bytes with
                  | Some a => a
                  | None => "000"%byte
                  end) all_bytes.

Definition inv_sbox (a : byte) : byte := nth (Byte.to_nat a) inv_sbox_table "000"%byte.

(** AddRoundKey: the state xored with the round key. *)
Fixpoint add_round_key (k st : bytes) : bytes :=
  match st, k with
  | x :: st', y :: k' => xor_byte x y :: add_round_key k' st'
  | _, _ => st
  end.

Definition sub_bytes (st : bytes) : bytes := map sbox st.
Definition inv_sub_bytes (st : bytes) : bytes := map inv_sbox st.

(** The state is held column by column, as the input block: byte [r + 4c] is
    row [r] of column [c]. ShiftRows rotates row [r] left by [r] columns. *)
Definition shift_rows (st : bytes) : bytes :=
  match st with
  | [s0; s1; s2; s3; s4; s5; s6; s7; s8; s9; s10; s11; s12; s13; s14; s15] =>
      [s0; s5; s10; s15; s4; s9; s14; s3; s8; s13; s2; s7; s12; s1; s6; s11]
  | _ => st
  end.

Definition inv_shift_rows (st : bytes) : bytes :=
  match st with
  | [s0; s1; s2; s3; s4; s5; s6; s7; s8; s9; s10; s11; s12; s13; s14; s15] =>
      [s0; s13; s10; s7; s4; s1; s14; s11; s8; s5; s2; s15; s12; s9; s6; s3]
  | _ => st
  end.

Definition xor4 (a b c d : byte) : byte := xor_byte (xor_byte a b) (xor_byte c d).

Definition zero : byte := "000"%byte.

(** MixColumns on one column, and its inverse. *)
Definition mix_column (a b c d : byte) : bytes :=
  [ xor4 (gmul 2 a) (gmul 3 b) c d;
    xor4 a (gmul 2 b) (gmul 3 c) d;
    xor4 a b (gmul 2 c) (gmul 3 d);
    xor4 (gmul 3 a) b c (gmul 2 d) ].

Definition inv_mix_column (a b c d : byte) : bytes :=
  [ xor4 (gmul 14 a) (gmul 11 b) (gmul 13 c) (gmul 9 d);
    xor4 (gmul 9 a) (gmul 14 b) (gmul 11 c) (gmul 13 d);
    xor4 (gmul 13 a) (gmul 9 b) (gmul 14 c) (gmul 11 d);
    xor4 (gmul 11 a) (gmul 13 b) (gmul 9 c) (gmul 14 d) ].

Definition columns (f : byte -> byte -> byte -> byte -> bytes) (st : bytes) : bytes :=
  match st with
  | [s0; s1; s2; s3; s4; s5; s6; s7; s8; s9; s10; s11; s12; s13; s14; s15] =>
      f s0 s1 s2 s3 ++ f s4 s5 s6 s7 ++ f s8 s9 s10 s11 ++ f s12 s13 s14 s15
  | _ => st
  end.

Definition mix_columns : bytes -> bytes := columns mix_column.
Definition inv_mix_columns : bytes -> bytes := columns inv_mix_column.

(** The key schedule. Words are four bytes; [w] holds the words so far,
    newest first; [i] is the index of the word to add. *)
Definition rot_word (w : bytes) : bytes :=
  match w with
  | a :: rest => rest ++ [a]
  | [] => []
  end.

Fixpoint rcon (i : nat) : byte :=
  match i with
  | O => "000"%byte
  | S O => "001"%byte
  | S i' => xtime (rcon i')
  end.

Definition xor_word (a b : bytes) : bytes := add_round_key b a.

Fixpoint expand (fuel : nat) (Nk i : nat) (w : list bytes) : list bytes :=
  match fuel with
  | O => w
  | S fuel' =>
      let temp := nth 0 w [] in
      let temp :=
        if (i mod Nk =? 0)%nat
        then xor_word (map sbox (rot_word temp))
                      [rcon (i / Nk); "000"%byte; "000"%byte; "000"%byte]
        else if ((6 <? Nk) && (i mod Nk =? 4))%nat
        then map sbox temp
        else temp in
      expand fuel' Nk (S i) (xor_word (nth (Nk - 1) w []) temp :: w)
  end.

Fixpoint words4 (fuel : nat) (data : bytes) : list bytes :=
  match fuel with
  | O => []
  | S fuel' =>
      match data with
      | [] => []
      | _ => firstn 4 data :: words4 fuel' (skipn 4 data)
      end
  end.

Fixpoint round_keys_of (fuel : nat) (w : list bytes) : list bytes :=
  match fuel with
  | O => []
  | S fuel' =>
      match w with
      | [] => []
      | _ => concat (firstn 4 w) :: round_keys_of fuel' (skipn 4 w)
      end
  end.

(** The round keys of a key of 4, 6 or 8 words: Nk + 7 of them. *)
Definition round_keys (key : bytes) : list bytes :=
  let Nk := (length key / 4)%nat in
  let total := (4 * (Nk + 7))%nat in
  let w := rev (expand (total - Nk) Nk Nk (rev (words4 Nk key))) in
  round_keys_of (Nk + 7) w.

(** The rounds after the first AddRoundKey; the last one has no MixColumns. *)
Fixpoint rounds (rks : list bytes) (st : bytes) : bytes :=
  match rks with
  | [] => st
  | [k] => add_round_key k (shift_rows (sub_bytes st))
  | k :: rest => rounds rest (add_round_key k (mix_columns (shift_rows (sub_bytes st))))
  end.

Fixpoint inv_rounds (rks : list bytes) (st : bytes) : bytes :=
  match rks with
  | [] => st
  | [k] => inv_sub_bytes (inv_shift_rows (add_round_key k st))
  | k :: rest =>
      inv_sub_bytes (inv_shift_rows (inv_mix_columns (add_round_key k (inv_rounds rest st))))
  end.

Definition cipher (rks : list bytes) (st : bytes) : bytes :=
  match rks with
  | [] => st
  | k :: rest => rounds rest (add_round_key k st)
  end.

Definition inv_cipher (rks : list bytes) (st : bytes) : bytes :=
  match rks with
  | [] => st
  | k :: rest => add_round_key k (inv_rounds rest st)
  end.

Definition aes_encrypt (key block : bytes) : bytes := cipher (round_keys key) block.
Definition aes_decrypt (key block : bytes) : bytes := inv_cipher (round_keys key) block.

End FIPS.

(** The standard primitives as an instance. *)
Definition Standard : Primitives :=
  {| sha1_Sum := FIPS.sha1; sha256_Sum256 := FIPS.sha256;
     aes_Encrypt := FIPS.aes_encrypt; aes_Decrypt := FIPS.aes_decrypt |}.

(** ** The client layer (client.go, the rest of discovery.go, types.go)

    The functions that build on the session: [Connect] and the commands of
    [P110], [DiscoverFirstWithTimeout] and [ConnectWithDiscovery]. Their
    errors wrap those of the layers below. *)

(** The errors these functions build; [Of] is an [error] returned as it
    is. *)
Inductive failure : Type :=
| Of (e : error)
| ErrNoDevicesFound                      (* "no Tapo devices found on the network" *)
| ErrCookieJar                           (* "failed to create cookie jar: %w" *)
| ErrLocalSeed                           (* "failed to generate local seed: %w" *)
| ErrCreateSession (e : failure)         (* "failed to create session: %w" *)
| ErrHandshakeFailed (e : error)         (* "handshake failed: %w" *)
| ErrDiscoveryFailed (e : failure)       (* "discovery failed: %w" *)
| ErrConnectionFailed (e : failure)      (* "connection failed: %w" *)
| ErrParseDeviceInfo                     (* "failed to parse device info: %w" *)
| ErrParseDeviceUsage                    (* "failed to parse device usage: %w" *)
| ErrParseCurrentPower                   (* "failed to parse current power: %w" *)
| ErrParseEnergyUsage                    (* "failed to parse energy usage: %w" *)
| ErrParseEnergyData.                    (* "failed to parse energy data: %w" *)

Inductive result (A : Type) : Type :=
| Returns (a : A)
| Fails (e : failure)
| Panics (msg : string).
Arguments Returns {A} a.
Arguments Fails {A} e.
Arguments Panics {A} msg.

(** *** The result types of the commands (types.go) *)

Module DeviceInfo.
Record t : Type := {
  DeviceID : string;
  FirmwareVersion : string;
  HardwareVersion : string;
  Type_ : string;
  Model : string;
  MAC : string;
  HWID : string;
  FWID : string;
  OEMID : string;
  IP : string;
  TimeDiff : Z;
  SSID : string;
  RSSI : Z;
  SignalLevel : Z;
  Latitude : Z;
  Longitude : Z;
  Lang : string;
  Avatar : string;
  Region : string;
  Specs : string;
  Nickname : string;
  HasSetLocationInfo : bool;
  DeviceON : bool;
  OnTime : Z;
  OverHeated : bool;
  PowerProtectionStatus : string;
  Location : string
}.
End DeviceInfo.

Module UsageEntry.
Record t : Type := { Today : Z; Past7 : Z; Past30 : Z }.
End UsageEntry.

Module DeviceUsage.
Record t : Type := {
  TimeUsage : UsageEntry.t;
  PowerUsage : UsageEntry.t;
  SavedPower : UsageEntry.t
}.
End DeviceUsage.

Module CurrentPower.
Record t : Type := { CurrentPower : Z }.
End CurrentPower.

Module EnergyUsage.
Record t : Type := {
  TodayRuntime : Z;
  MonthRuntime : Z;
  TodayEnergy : Z;
  MonthEnergy : Z;
  LocalTime : string;
  ElectricityCharge : list Z;
  CurrentPower : Z
}.
End EnergyUsage.

Module EnergyData.
Record t : Type := {
  LocalTime : string;
  StartTimestamp : Z;
  EndTimestamp : Z;
  Interval : Z;
  Data : list Z
}.
End EnergyData.

(** [json.Unmarshal] of a command's raw result into its type ([None] is an
    error). *)
Class JsonResults : Type := {
  json_Unmarshal_DeviceInfo : bytes -> option DeviceInfo.t;
  json_Unmarshal_DeviceUsage : bytes -> option DeviceUsage.t;
  json_Unmarshal_CurrentPower : bytes -> option CurrentPower.t;
  json_Unmarshal_EnergyUsage : bytes -> option EnergyUsage.t;
  json_Unmarshal_EnergyData : bytes -> option EnergyData.t
}.

(** *** Connect *)

Record Client : Type := {
  username : string;
  password : string
}.

Definition NewClient (username password : string) : Client :=
  {| username := username; password := password |}.

(** [newKlapSession] with what it asks of its environment: whether
    [cookiejar.New] succeeds, and what [rand.Read] puts into the local seed
    ([None] when it fails). *)
Definition newKlapSession_in {P : Primitives} (ip username password : string)
  (jar : bool) (rnd : option bytes) : result klapSession :=
  if negb jar then Fails ErrCookieJar
  else
    match rnd with
    | None => Fails ErrLocalSeed
    | Some localSeed => Returns (newKlapSession ip username password localSeed)
    end.

(** [Connect]; [uuid] is the string of [uuid.New()], [d1] and [d2] the peer
    at the two handshake calls. *)
Definition Connect {P : Primitives} (c : Client) (ip : string)
  (jar : bool) (rnd : option bytes) (uuid : string) (d1 d2 : device) : result P110 :=
  match newKlapSession_in ip (username c) (password c) jar rnd with
  | Fails e => Fails (ErrCreateSession e)
  | Panics m => Panics m
  | Returns session =>
      match handshake session d1 d2 with
      | (Err e, _) => Fails (ErrHandshakeFailed e)
      | (Panic m, _) => Panics m
      | (Ok _, session) =>
          Returns {| ip := ip; session := session; terminalUUID := uuid |}
      end
  end.

(** *** The commands of P110

    Each returns its result, the connection afterwards and what went out on
    the wire. *)

Section Commands.
Context {P : Primitives} {J : Json} {R : JsonResults}.

Definition GetDeviceInfo (p : P110) (d : device)
  : result DeviceInfo.t * P110 * list http_request :=
  match sendRequest p "get_device_info" ParamsNil d with
  | (Err err, p, sent) => (Fails (Of err), p, sent)
  | (Panic m, p, sent) => (Panics m, p, sent)
  | (Ok result, p, sent) =>
      match json_Unmarshal_DeviceInfo result with
      | None => (Fails ErrParseDeviceInfo, p, sent)
      | Some info => (Returns info, p, sent)
      end
  end.

Definition GetDeviceUsage (p : P110) (d : device)
  : result DeviceUsage.t * P110 * list http_request :=
  match sendRequest p "get_device_usage" ParamsNil d with
  | (Err err, p, sent) => (Fails (Of err), p, sent)
  | (Panic m, p, sent) => (Panics m, p, sent)
  | (Ok result, p, sent) =>
      match json_Unmarshal_DeviceUsage result with
      | None => (Fails ErrParseDeviceUsage, p, sent)
      | Some usage => (Returns usage, p, sent)
      end
  end.

Definition GetCurrentPower (p : P110) (d : device)
  : result CurrentPower.t * P110 * list http_request :=
  match sendRequest p "get_current_power" ParamsNil d with
  | (Err err, p, sent) => (Fails (Of err), p, sent)
  | (Panic m, p, sent) => (Panics m, p, sent)
  | (Ok result, p, sent) =>
      match json_Unmarshal_CurrentPower result with
      | None => (Fails ErrParseCurrentPower, p, sent)
      | Some power => (Returns power, p, sent)
      end
  end.

Definition GetEnergyUsage (p : P110) (d : device)
  : result EnergyUsage.t * P110 * list http_request :=
  match sendRequest p "get_energy_usage" ParamsNil d with
  | (Err err, p, sent) => (Fails (Of err), p, sent)
  | (Panic m, p, sent) => (Panics m, p, sent)
  | (Ok result, p, sent) =>
      match json_Unmarshal_EnergyUsage result with
      | None => (Fails ErrParseEnergyUsage, p, sent)
      | Some usage => (Returns usage, p, sent)
      end
  end.

Definition GetEnergyData (p : P110) (interval : EnergyDataInterval) (t : Time) (d : device)
  : result EnergyData.t * P110 * list http_request :=
  let '(startTS, endTS) := getStartEndTimestamps interval t in
  match intervalMinutes interval with
  | Err err => (Fails (Of err), p, [])
  | Panic m => (Panics m, p, [])
  | Ok intervalMinutes =>
      let params := ParamsEnergyData startTS endTS intervalMinutes in
      match sendRequest p "get_energy_data" params d with
      | (Err err, p, sent) => (Fails (Of err), p, sent)
      | (Panic m, p, sent) => (Panics m, p, sent)
      | (Ok result, p, sent) =>
          match json_Unmarshal_EnergyData result with
          | None => (Fails ErrParseEnergyData, p, sent)
          | Some data => (Returns data, p, sent)
          end
      end
  end.

Definition TurnOn (p : P110) (d : device) : result unit * P110 * list http_request :=
  match sendRequest p "set_device_info" (ParamsDeviceOn true) d with
  | (Err err, p, sent) => (Fails (Of err), p, sent)
  | (Panic m, p, sent) => (Panics m, p, sent)
  | (Ok _, p, sent) => (Returns tt, p, sent)
  end.

Definition TurnOff (p : P110) (d : device) : result unit * P110 * list http_request :=
  match sendRequest p "set_device_info" (ParamsDeviceOn false) d with
  | (Err err, p, sent) => (Fails (Of err), p, sent)
  | (Panic m, p, sent) => (Panics m, p, sent)
  | (Ok _, p, sent) => (Returns tt, p, sent)
  end.

End Commands.

(** [P110.IP]. *)
Definition P110_IP (p : P110) : string := ip p.

(** *** DiscoverFirstWithTimeout and ConnectWithDiscovery *)

(** The loop of [DiscoverFirstWithTimeout], one [turn] per iteration: the
    first datagram that passes the checks ends it. *)
Fixpoint discover_first_loop {J : Json} (turns : list turn) : result DiscoveredDevice :=
  match turns with
  | [] => Fails ErrNoDevicesFound
  | CtxDone :: _ => Fails (Of ErrContext)
  | DeadlineElapsed :: _ => Fails ErrNoDevicesFound
  | SetReadDeadlineFails :: _ => Fails (Of ErrSetReadDeadline)
  | ReadTimeout :: _ => Fails ErrNoDevicesFound
  | ReadFails :: rest => discover_first_loop rest
  | Datagram payload addr :: rest =>
      let buf := firstn 2048 payload in
      let n := len buf in
      if n <=? 16 then discover_first_loop rest
      else
        let jsonData := slice buf 16 n in
        match json_Unmarshal_discoveryResponse jsonData with
        | None => discover_first_loop rest
        | Some resp =>
            if negb (discovery_ErrorCode resp =? 0) then discover_first_loop rest
            else
              let ip := Result_IP resp in
              let ip := if String.eqb ip "" then addr else ip in
              Returns {| IP := ip; MAC := Result_MAC resp;
                         DeviceID := Result_DeviceID resp;
                         Model := Result_DeviceModel resp; Alias := "" |}
        end
  end.

Definition DiscoverFirstWithTimeout {J : Json} (st : setup) (turns : list turn)
  : result DiscoveredDevice :=
  match st with
  | ListenFails => Fails (Of ErrCreateSocket)
  | SetWriteDeadlineFails => Fails (Of ErrSetWriteDeadline)
  | WriteFails => Fails (Of ErrSendBroadcast)
  | SetupOk => discover_first_loop turns
  end.

(** [Discover] and [DiscoverFirst] run with the constant [discoveryTimeout];
    the timeout is in the turns. *)
Definition Discover {J : Json} (st : setup) (turns : list turn)
  : option (list DiscoveredDevice) * option error := DiscoverWithTimeout st turns.

Definition DiscoverFirst {J : Json} (st : setup) (turns : list turn)
  : result DiscoveredDevice := DiscoverFirstWithTimeout st turns.

(** [ConnectWithDiscovery]: the connection or the error, and the ip string
    returned beside them. *)
Definition ConnectWithDiscovery {P : Primitives} {J : Json} (c : Client)
  (st : setup) (turns : list turn)
  (jar : bool) (rnd : option bytes) (uuid : string) (d1 d2 : device)
  : result P110 * string :=
  match DiscoverFirst st turns with
  | Fails err => (Fails (ErrDiscoveryFailed err), ""%string)
  | Panics m => (Panics m, ""%string)
  | Returns device =>
      match Connect c (IP device) jar rnd uuid d1 d2 with
      | Fails err => (Fails (ErrConnectionFailed err), IP device)
      | Panics m => (Panics m, IP device)
      | Returns p110 => (Returns p110, IP device)
      end
  end.

(** ** The command-line program (cmd/p110/main.go): what its reports compute

    The printing functions are modelled by what they hand to [fmt]: the
    integer arguments of their [Printf] calls, in the order of the calls.
    An [int] is 64 bits wide; [+] and [*] wrap around. *)

Module Main.

(** [int(x)]: reduction to the signed 64-bit range. *)
Definition int_of_Z (z : Z) : Z := (z + 2 ^ 63) mod 2 ^ 64 - 2 ^ 63.

Definition is_int (z : Z) : Prop := - 2 ^ 63 <= z < 2 ^ 63.
Definition MaxInt : Z := 2 ^ 63 - 1.

(** [data[i]] and [data[lo:hi]] of a [[]int], for indices the code has
    bounded. *)
Definition at_ (data : list Z) (i : Z) : Z := nth (Z.to_nat i) data 0.

Definition sub (data : list Z) (lo hi : Z) : list Z :=
  firstn (Z.to_nat (hi - lo)) (skipn (Z.to_nat lo) data).

(** [data[i] = v] for [0 <= i < len(data)]. *)
Definition set_at (data : list Z) (i v : Z) : list Z :=
  firstn (Z.to_nat i) data ++ v :: skipn (S (Z.to_nat i)) data.

(** [for i := from; cond(i); i++ { body(i) }], collecting what each turn of
    the body yields; [fuel] bounds the number of turns. *)
Fixpoint for_loop {A : Type} (fuel : nat) (i : Z) (cond : Z -> bool) (body : Z -> A) : list A :=
  match fuel with
  | O => []
  | S fuel' => if cond i then body i :: for_loop fuel' (i + 1) cond body else []
  end.

Definition sum (data : list Z) : Z :=
  fold_left (fun total v => int_of_Z (total + v)) data 0.

(** The loop of [maxVal]: [i] is the index of the head of [data]. *)
Fixpoint maxVal_loop (data : list Z) (i max maxIdx : Z) : Z * Z :=
  match data with
  | [] => (max, maxIdx)
  | v :: rest =>
      if v >? max then maxVal_loop rest (i + 1) v i
      else maxVal_loop rest (i + 1) max maxIdx
  end.

Definition maxVal (data : list Z) : Z * Z := maxVal_loop data 0 0 0.

(** [printHourlyTable]: the two rows of hours, the two rows of values under
    them, and the summary line. *)
Record HourlyTable : Type := {
  hours1 : list Z;
  wh1 : list Z;
  hours2 : list Z;
  wh2 : list Z;
  hourly_total : Z;
  hourly_peak : Z;
  hourly_peakHour : Z
}.

Definition printHourlyTable (data : list Z) : HourlyTable :=
  let hours1 := for_loop 12 0 (fun i => i <? 12) (fun i => i) in
  let wh1 := for_loop 12 0 (fun i => (i <? 12) && (i <? len data)) (fun i => at_ data i) in
  let hours2 := for_loop 12 12 (fun i => i <? 24) (fun i => i) in
  let wh2 := for_loop 12 12 (fun i => (i <? 24) && (i <? len data)) (fun i => at_ data i) in
  let total := sum data in
  let '(peak, peakHour) := maxVal data in
  {| hours1 := hours1; wh1 := wh1; hours2 := hours2; wh2 := wh2;
     hourly_total := total; hourly_peak := peak; hourly_peakHour := peakHour |}.

(** [printDailyWeekly]: one row per turn of the loop over weeks (the week
    number, the values, the number of dashes that pad an incomplete week and
    the week's total), then the grand total, the peak and the day of the
    peak, counted from 1. *)
Record WeekRow : Type := {
  week : Z;
  weekData : list Z;
  dashes : Z;
  weekTotal : Z
}.

Fixpoint weeks_loop (fuel : nat) (data : list Z) (n i week : Z) : list WeekRow :=
  match fuel with
  | O => []
  | S fuel' =>
      if i <? n then
        let end_ := i + 7 in
        let end_ := if end_ >? n then n else end_ in
        let weekData := sub data i end_ in
        let weekTotal := sum weekData in
        let dashes := len (for_loop 7 (len weekData) (fun j => j <? 7) (fun j => j)) in
        {| week := week; weekData := weekData; dashes := dashes; weekTotal := weekTotal |}
          :: weeks_loop fuel' data n (i + 7) (week + 1)
      else []
  end.

Record DailyReport : Type := {
  days_available : Z;
  rows : list WeekRow;
  daily_total : Z;
  daily_peak : Z;
  daily_peakDay : Z
}.

Definition printDailyWeekly (data : list Z) : DailyReport :=
  let n := len data in
  let rows := weeks_loop (length data) data n 0 1 in
  let total := sum data in
  let '(peak, peakDay) := maxVal data in
  {| days_available := n; rows := rows; daily_total := total;
     daily_peak := peak; daily_peakDay := int_of_Z (peakDay + 1) |}.

(** When [strings.Repeat(s, count)] panics: on a negative count, and on
    a result longer than an [int] holds. Otherwise the result is [count]
    copies of [s] (a result that memory cannot hold is outside the model). *)
Definition strings_Repeat_panics (s : string) (count : Z) : option string :=
  if count <? 0 then Some "strings: negative Repeat count"%string
  else if Z.of_nat (String.length s) * count >? MaxInt
       then Some "strings: Repeat output length overflow"%string
       else None.

(** [printMonthlyBars]: the maximum that scales the bars, then one line per
    month (its name, the value, the number of full and of light cells of the
    bar), then the year's total. A panic of [strings.Repeat] ends the
    report after the lines already printed. *)
Definition months : list string :=
  ["Jan"; "Feb"; "Mar"; "Apr"; "May"; "Jun"; "Jul"; "Aug"; "Sep"; "Oct"; "Nov"; "Dec"]%string.

Fixpoint bars_max (fuel : nat) (data : list Z) (n i max : Z) : Z :=
  match fuel with
  | O => max
  | S fuel' =>
      if i <? n then
        let max := if at_ data i >? max then at_ data i else max in
        bars_max fuel' data n (i + 1) max
      else max
  end.

Record MonthBar : Type := {
  month : string;
  month_wh : Z;
  full : Z;
  light : Z
}.

Fixpoint bars_loop (fuel : nat) (data : list Z) (n i max : Z)
  : list MonthBar * option string :=
  match fuel with
  | O => ([], None)
  | S fuel' =>
      if i <? n then
        let barLen := 0 in
        let barLen := if max >? 0 then Z.quot (int_of_Z (at_ data i * 30)) max else barLen in
        match strings_Repeat_panics "█" barLen with
        | Some m => ([], Some m)
        | None =>
            match strings_Repeat_panics "░" (int_of_Z (30 - barLen)) with
            | Some m => ([], Some m)
            | None =>
                let '(lines, panic) := bars_loop fuel' data n (i + 1) max in
                ({| month := nth (Z.to_nat i) months ""%string; month_wh := at_ data i;
                    full := barLen; light := int_of_Z (30 - barLen) |} :: lines, panic)
            end
        end
      else ([], None)
  end.

Record MonthlyReport : Type := {
  bars : list MonthBar;
  bars_panic : option string;
  year_total : option Z
}.

Definition printMonthlyBars (data : list Z) : MonthlyReport :=
  let n := len data in
  let n := if n >? 12 then 12 else n in
  let max := 1 in
  let max := bars_max 12 data n 0 max in
  let '(lines, panic) := bars_loop 12 data n 0 max in
  match panic with
  | Some m => {| bars := lines; bars_panic := Some m; year_total := None |}
  | None =>
      let total := sum (sub data 0 n) in
      {| bars := lines; bars_panic := None; year_total := Some total |}
  end.

(** *** showHistory: what it computes from the records it has read *)

(** [store.Reading] and [store.HourlyRecord]; a timestamp is Unix seconds. *)
Module Reading.
Record t : Type := {
  ID : Z;
  Timestamp : Z;
  DeviceIP : string;
  DeviceMAC : string;
  PowerMW : Z
}.
End Reading.

Module HourlyRecord.
Record t : Type := {
  ID : Z;
  Date : string;
  Hour : Z;
  DeviceIP : string;
  EnergyWh : Z
}.
End HourlyRecord.

(** The summary of the recent readings: nothing for an empty list ("No
    readings found"), else the count, the total, the least and the greatest
    power, and the readings listed under "Last 10 readings". *)
Record ReadingsSummary : Type := {
  readings_count : Z;
  totalPower : Z;
  minPower : Z;
  maxPower : Z;
  last_readings : list Reading.t
}.

Definition readings_step (acc : Z * Z * Z) (r : Reading.t) : Z * Z * Z :=
  let '(totalPower, minPower, maxPower) := acc in
  let totalPower := int_of_Z (totalPower + Reading.PowerMW r) in
  let minPower := if Reading.PowerMW r <? minPower then Reading.PowerMW r else minPower in
  let maxPower := if Reading.PowerMW r >? maxPower then Reading.PowerMW r else maxPower in
  (totalPower, minPower, maxPower).

Definition recent_readings (recentReadings : list Reading.t) : option ReadingsSummary :=
  match recentReadings with
  | [] => None
  | r0 :: _ =>
      let '(totalPower, minPower, maxPower) :=
        fold_left readings_step recentReadings (0, Reading.PowerMW r0, Reading.PowerMW r0) in
      let start := len recentReadings - 10 in
      let start := if start <? 0 then 0 else start in
      Some {| readings_count := len recentReadings;
              totalPower := totalPower; minPower := minPower; maxPower := maxPower;
              last_readings := skipn (Z.to_nat start) recentReadings |}
  end.

(** The array of 24 hours built from today's records and handed to
    [printHourlyTable]; nothing for an empty list ("No hourly data
    found"). *)
Definition hourly_array (hourlyRecords : list HourlyRecord.t) : option (list Z) :=
  match hourlyRecords with
  | [] => None
  | _ =>
      let hourlyData := repeat 0 24 in
      Some (fold_left
              (fun hourlyData r =>
                 if (HourlyRecord.Hour r >=? 0) && (HourlyRecord.Hour r <? 24)
                 then set_at hourlyData (HourlyRecord.Hour r) (HourlyRecord.EnergyWh r)
                 else hourlyData)
              hourlyRecords hourlyData)
  end.

(** The monthly listing of [showHistory]: one line per record (the year,
    the name of the month, the energy), and the total printed under them.
    The names are looked up in a table of 13 entries; an index outside it
    panics, after the lines already printed. *)
Module MonthlyRecord.
Record t : Type := {
  ID : Z;
  Year : Z;
  Month : Z;
  DeviceIP : string;
  EnergyWh : Z
}.
End MonthlyRecord.

Definition month_names : list string :=
  [""; "Jan"; "Feb"; "Mar"; "Apr"; "May"; "Jun"; "Jul"; "Aug"; "Sep"; "Oct"; "Nov";
   "Dec"]%string.

(** [months[i]]: the entry, or the panic of the bounds check. *)
Definition month_name (i : Z) : outcome string :=
  if i <? 0 then Panic ("runtime error: index out of range [" ++ fmt_d i ++ "]")
  else if i >=? len month_names
       then Panic ("runtime error: index out of range [" ++ fmt_d i ++ "] with length 13")
       else Ok (nth (Z.to_nat i) month_names ""%string).

Fixpoint monthly_listing (monthlyRecords : list MonthlyRecord.t) (totalEnergy : Z)
  : list (Z * string * Z) * outcome Z :=
  match monthlyRecords with
  | [] => ([], Ok totalEnergy)
  | r :: rest =>
      let totalEnergy := int_of_Z (totalEnergy + MonthlyRecord.EnergyWh r) in
      match month_name (MonthlyRecord.Month r) with
      | Panic m => ([], Panic m)
      | Err e => ([], Err e)
      | Ok name =>
          let '(lines, out) := monthly_listing rest totalEnergy in
          ((MonthlyRecord.Year r, name, MonthlyRecord.EnergyWh r) :: lines, out)
      end
  end.

(** *** pollDevices: what one poll hands to the store *)

(** [appendInt(b, x, width)] of package time: the decimal digits of [x],
    padded with zeros to [width], after a minus sign when [x] is negative. *)
Definition appendInt (x : Z) (width : nat) : string :=
  let digits := NilZero.string_of_uint (N.to_uint (Z.to_N (Z.abs x))) in
  let zeros := String.concat "" (repeat "0"%string (width - String.length digits)) in
  let sign := if x <? 0 then "-"%string else ""%string in
  (sign ++ zeros ++ digits)%string.

(** [t.Format("2006-01-02")]. *)
Definition Time_Format_date (t : Time) : string :=
  let '(year, month, day) := Time_Date t in
  (appendInt year 4 ++ "-" ++ appendInt month 2 ++ "-" ++ appendInt day 2)%string.

(** The calls [pollDevices] makes on the store, with their arguments. *)
Inductive StoreCall : Type :=
| InsertReading (deviceIP deviceMAC : string) (powerMW : Z)
| InsertHourly (date : string) (hour : Z) (deviceIP : string) (energyWh : Z)
| InsertDaily (date : string) (deviceIP : string) (energyWh runtimeMin : Z)
| InsertMonthly (year month : Z) (deviceIP : string) (energyWh : Z).

(** [for i, wh := range data { if wh > 0 { call(i, wh) } }]; [i] is the
    index of the head of [data]. *)
Fixpoint store_positive (data : list Z) (i : Z) (call : Z -> Z -> StoreCall)
  : list StoreCall :=
  match data with
  | [] => []
  | wh :: rest =>
      (if wh >? 0 then [call i wh] else []) ++ store_positive rest (i + 1) call
  end.

(** What one device meets during a poll: the environment of [Connect], and
    the peer at each of the five commands. *)
Record Visit : Type := {
  jar : bool;
  rnd : option bytes;
  uuid : string;
  at_handshake1 : device;
  at_handshake2 : device;
  at_info : device;
  at_power : device;
  at_hourly : device;
  at_usage : device;
  at_monthly : device
}.

Section Poll.
Context {P : Primitives} {J : Json} {R : JsonResults}.

(** The body of the loop of [pollDevices] for one device: the store calls
    it makes, in order, and the panic that ends it, if any (errors are
    logged and the poll goes on; the log is not part of the model). *)
Definition poll_device (client : Client) (now : Time) (dateStr : string)
  (deviceIP : string) (v : Visit) : list StoreCall * option string :=
  match Connect client deviceIP (jar v) (rnd v) (uuid v) (at_handshake1 v) (at_handshake2 v)
  with
  | Fails _ => ([], None)
  | Panics m => ([], Some m)
  | Returns device =>
      match GetDeviceInfo device (at_info v) with
      | (Panics m, _, _) => ([], Some m)
      | (info, device, _) =>
          let mac := ""%string in
          let mac := match info with Returns info => DeviceInfo.MAC info | _ => mac end in
          match GetCurrentPower device (at_power v) with
          | (Panics m, _, _) => ([], Some m)
          | (power, device, _) =>
              let stored1 :=
                match power with
                | Returns power =>
                    [InsertReading deviceIP mac (CurrentPower.CurrentPower power)]
                | _ => []
                end in
              match GetEnergyData device EnergyDataHourly now (at_hourly v) with
              | (Panics m, _, _) => (stored1, Some m)
              | (hourly, device, _) =>
                  let stored2 :=
                    match hourly with
                    | Returns hourly =>
                        store_positive (EnergyData.Data hourly) 0
                          (fun hour wh => InsertHourly dateStr hour deviceIP wh)
                    | _ => []
                    end in
                  match GetEnergyUsage device (at_usage v) with
                  | (Panics m, _, _) => (stored1 ++ stored2, Some m)
                  | (energyUsage, device, _) =>
                      let stored3 :=
                        match energyUsage with
                        | Returns energyUsage =>
                            [InsertDaily dateStr deviceIP
                               (EnergyUsage.TodayEnergy energyUsage)
                               (EnergyUsage.TodayRuntime energyUsage)]
                        | _ => []
                        end in
                      match GetEnergyData device EnergyDataMonthly now (at_monthly v) with
                      | (Panics m, _, _) => (stored1 ++ stored2 ++ stored3, Some m)
                      | (monthly, _, _) =>
                          let stored4 :=
                            match monthly with
                            | Returns monthly =>
                                let year := Time_Year now in
                                store_positive (EnergyData.Data monthly) 0
                                  (fun month wh =>
                                     InsertMonthly year (int_of_Z (month + 1)) deviceIP wh)
                            | _ => []
                            end in
                          (stored1 ++ stored2 ++ stored3 ++ stored4, None)
                      end
                  end
              end
          end
      end
  end.

(** [pollDevices]: the devices in turn, each with what it meets; a panic
    ends the poll. *)
Fixpoint poll_loop (client : Client) (now : Time) (dateStr : string)
  (deviceIPs : list (string * Visit)) : list StoreCall * option string :=
  match deviceIPs with
  | [] => ([], None)
  | (deviceIP, v) :: rest =>
      match poll_device client now dateStr deviceIP v with
      | (stored, Some m) => (stored, Some m)
      | (stored, None) =>
          let '(stored', panic) := poll_loop client now dateStr rest in
          (stored ++ stored', panic)
      end
  end.

Definition pollDevices (client : Client) (now : Time) (deviceIPs : list (string * Visit))
  : list StoreCall * option string :=
  let dateStr := Time_Format_date now in
  poll_loop client now dateStr deviceIPs.

End Poll.

End Main.

(** ** Vocabulary of the specification

    The formulas of the specification, written after its words; the
    theorems below compare the code with them. *)

(** [int32_be(s)]: the four bytes of the two's-complement value, most
    significant first. *)
Definition int32_be (s : Z) : bytes :=
  let u := s mod 2 ^ 32 in
  [ byte_of_Z (u / 2 ^ 24); byte_of_Z (u / 2 ^ 16); byte_of_Z (u / 2 ^ 8); byte_of_Z u ].

(** The signed value of four big-endian bytes. *)
Definition int32_of_be (b : bytes) : Z :=
  let u := Z_of_byte (index b 0) * 2 ^ 24 + Z_of_byte (index b 1) * 2 ^ 16
           + Z_of_byte (index b 2) * 2 ^ 8 + Z_of_byte (index b 3) in
  if u <? 2 ^ 31 then u else u - 2 ^ 32.

(** [AES128_CBC_Encrypt(key, iv, padded)] and its inverse, on whole blocks. *)
Definition spec_cbc_encrypt {P : Primitives} (key iv padded : bytes) : bytes :=
  concat (cbc_encrypt_blocks key iv (blocks_of (length padded) padded)).

Definition spec_cbc_decrypt {P : Primitives} (key iv ct : bytes) : bytes :=
  concat (cbc_decrypt_blocks key iv (blocks_of (length ct) ct)).

(** Steps 2 to 5 of the request framing for the sequence value [sq]: the IV,
    the ciphertext, the signature, and the POST that carries them. *)
Definition spec_iv (s : klapSession) (sq : Z) : bytes := ivSeq s ++ int32_be sq.

Definition spec_ciphertext {P : Primitives} (s : klapSession) (sq : Z) (plaintext : bytes) : bytes :=
  spec_cbc_encrypt (key s) (spec_iv s sq) (pkcs7Pad plaintext 16).

Definition spec_signature {P : Primitives} (s : klapSession) (sq : Z) (ct : bytes) : bytes :=
  sha256_Sum256 (sig s ++ int32_be sq ++ ct).

Definition spec_body {P : Primitives} (s : klapSession) (sq : Z) (plaintext : bytes) : bytes :=
  let ct := spec_ciphertext s sq plaintext in
  spec_signature s sq ct ++ ct.

Definition spec_frame {P : Primitives} (s : klapSession) (sq : Z) (plaintext : bytes)
  : http_request :=
  {| req_url := (baseURL s ++ "/request?seq=" ++ fmt_d sq)%string;
     req_contentType := "application/octet-stream";
     req_body := spec_body s sq plaintext |}.

(** The sequence values of [n] requests after the counter stood at [sq]:
    each the previous one plus one, as an [int32]. *)
Fixpoint seq_values (sq : Z) (n : nat) : list Z :=
  match n with
  | O => []
  | S n' => int32_of_Z (sq + 1) :: seq_values (int32_of_Z (sq + 1)) n'
  end.

(** The frames of a list of payloads under a list of sequence values. *)
Fixpoint spec_frames {P : Primitives} (s : klapSession) (sqs : list Z) (payloads : list bytes)
  : list http_request :=
  match sqs, payloads with
  | sq :: sqs', p :: payloads' => spec_frame s sq p :: spec_frames s sqs' payloads'
  | _, _ => []
  end.

(** The last [p] bytes of [data] all equal [b]. *)
Definition tail_is (data : bytes) (p : Z) (b : byte) : Prop :=
  slice data (len data - p) (len data) = bytes_Repeat b p.

(** The padding byte of [data]: its last byte, as an integer. *)
Definition padding_of (data : bytes) : Z := Z_of_byte (index data (len data - 1)).

(** A whole AES block. *)
Definition block16 (b : bytes) : Prop := length b = 16%nat.

(** A session after key derivation, as far as framing depends on it. *)
Definition keyed (s : klapSession) : Prop :=
  len (key s) = 16 /\ len (ivSeq s) = 12 /\ len (sig s) = 28 /\ is_int32 (seq s).

(** The text of the error [sendRequest] builds for a device error code. *)
Definition device_error_text (code : Z) : string :=
  ("device returned error code: " ++ fmt_d code)%string.

(** What a discovery datagram from [addr] announces, after the
    specification: nothing when the payload is not longer than 16 bytes,
    when the body after the 16-byte header is not JSON, or when its
    error_code is not 0; otherwise the device, under the reported ip or,
    when that is empty, under the source address. (A read takes at most 2048
    bytes of a datagram.) *)
Definition announced {J : Json} (payload : bytes) (addr : string) : option DiscoveredDevice :=
  if len payload <=? 16 then None
  else
    match json_Unmarshal_discoveryResponse (skipn 16 (firstn 2048 payload)) with
    | None => None
    | Some resp =>
        if discovery_ErrorCode resp =? 0
        then Some {| IP := if String.eqb (Result_IP resp) "" then addr else Result_IP resp;
                     MAC := Result_MAC resp; DeviceID := Result_DeviceID resp;
                     Model := Result_DeviceModel resp; Alias := "" |}
        else None
    end.

(** Turns that leave the collection loop running: datagrams and read errors
    other than a timeout. *)
Definition keeps_reading (t : turn) : Prop :=
  match t with
  | Datagram _ _ | ReadFails => True
  | _ => False
  end.

(** No datagram among [turns] announces a device under [ip]. *)
Definition unannounced {J : Json} (ip : string) (turns : list turn) : Prop :=
  forall payload addr dev,
    In (Datagram payload addr) turns -> announced payload addr = Some dev -> IP dev <> ip.

(** An instant in a zone. *)
Definition at_zone (loc : Location) (u : Z) : Time := {| unixSec := u; location := loc |}.

(** Midnight of the day with day count [k] exists in [loc]: the instant
    [time.Date] gives for it shows it on the wall clock. That is so in every
    zone of fixed offset, and in a zone with transitions on every day whose
    midnight no transition skips. *)
Definition midnight_exists (loc : Location) (k : Z) : Prop :=
  wall (at_zone loc (zone_adjust loc (k * secondsPerDay))) = k * secondsPerDay.

(** The loop's invariant: [seen] holds the ips of [devices], each once. *)
Definition collected (devices : list DiscoveredDevice) (seen : list string) : Prop :=
  NoDup (map IP devices) /\ forall ip, In ip seen <-> In ip (map IP devices).

(** *** Checks by enumeration *)

(** [f] holds of the [count] integers from [start] on. *)
Fixpoint holds_from (f : Z -> bool) (start : Z) (count : nat) : bool :=
  match count with
  | O => true
  | S count' => f start && holds_from f (start + 1) count'
  end.

(** The part of [civil_from_days] that depends on the day of the 400-year
    era only: year of era, month counted from March, day of month. *)
Definition civil_of_doe (doe : Z) : Z * Z * Z :=
  let yoe := (doe - doe / 1460 + doe / 36524 - doe / 146096) / 365 in
  let doy := doe - (365 * yoe + yoe / 4 - yoe / 100) in
  let mp := (5 * doy + 2) / 153 in
  (yoe, mp, doy - (153 * mp + 2) / 5 + 1).

Definition doe_of_civil (yoe mp d : Z) : Z :=
  365 * yoe + yoe / 4 - yoe / 100 + (153 * mp + 2) / 5 + d - 1.

Definition month_of_mp (mp : Z) : Z := if mp <? 10 then mp + 3 else mp - 9.

(** Every day of the era names a year of era below 400, a month and a day,
    and these name the day back. *)
Definition doe_ok (doe : Z) : bool :=
  let '(yoe, mp, d) := civil_of_doe doe in
  (0 <=? yoe) && (yoe <? 400) && (0 <=? mp) && (mp <? 12) && (1 <=? d) && (d <=? 31)
  && (doe_of_civil yoe mp d =? doe).

(** Every first of a month names its day of the era, and that day names it
    back. *)
Definition first_ok (yoe : Z) : bool :=
  holds_from (fun mp =>
    let doe := doe_of_civil yoe mp 1 in
    (0 <=? doe) && (doe <? 146097) &&
    let '(yoe', mp', d') := civil_of_doe doe in
    (yoe' =? yoe) && (mp' =? mp) && (d' =? 1)) 0 12.

(** A turn the discovery loops pass over: a read error other than a
    timeout, or a datagram that announces nothing. *)
Definition passed_over {J : Json} (t : turn) : Prop :=
  match t with
  | ReadFails => True
  | Datagram payload addr => announced payload addr = None
  | _ => False
  end.

(** What one command may do to a connection: nothing at all, or one frame
    on the wire, framed under the counter plus one, and the counter left
    there. Either way the connection stays keyed. *)
Definition one_step {P : Primitives} {A : Type} (p : P110)
  (r : A * P110 * list http_request) : Prop :=
  let p' := snd (fst r) in
  let sent := snd r in
  let sq := int32_of_Z (seq (session p) + 1) in
  ((sent = [] /\ p' = p) \/
   (exists reqJSON, sent = [spec_frame (session p) sq reqJSON] /\
                    p' = with_session p (with_seq (session p) sq))) /\
  keyed (session p').

(** The first month after month [m] of year [y]. *)
Definition next_month (y m : Z) : Z * Z := if m =? 12 then (y + 1, 1) else (y, m + 1).

(** The day [doe] of the era that begins on 0000-03-01 comes before the
    first of the month after its own. *)
Definition next_month_ok (doe : Z) : bool :=
  let z := doe - 719468 in
  let '(y, m, d) := civil_from_days z in
  let '(y', m') := next_month y m in
  z <? days_from_civil y' m' 1.

(** Leap years of the Gregorian calendar. *)
Definition is_leap (y : Z) : bool :=
  (y mod 4 =? 0) && (negb (y mod 100 =? 0) || (y mod 400 =? 0)).

(** The number of days of the quarter that begins with month [q]. *)
Definition days_in_quarter (y q : Z) : Z :=
  if q =? 1 then (if is_leap y then 91 else 90)
  else if q =? 4 then 91
  else 92.

Definition days_in_year (y : Z) : Z := if is_leap y then 366 else 365.

(** [GetEnergyData] for [interval] at [t] is [sendRequest] of the method
    "get_energy_data" with the parameters [ps]: the same frames go out, the
    connection is left the same, and the result is that of [sendRequest],
    parsed. *)
Definition requests_energy_data (interval : EnergyDataInterval) (t : Time) (ps : params)
  : Prop :=
  forall (P : Primitives) (J : Json) (R : JsonResults) (p : P110) (d : device),
    let '(r, p', sent) := GetEnergyData p interval t d in
    let '(o, p0, sent0) := sendRequest p "get_energy_data" ps d in
    p' = p0 /\ sent = sent0 /\
    match o with
    | Ok result =>
        r = match json_Unmarshal_EnergyData result with
            | Some data => Returns data
            | None => Fails ErrParseEnergyData
            end
    | Err err => r = Fails (Of err)
    | Panic m => r = Panics m
    end.

(** The offset of [loc] does not change within a day of the second [a], and
    is less than a day. *)
Definition steady (loc : Location) (a : Z) : Prop :=
  exists o, - secondsPerDay <= o <= secondsPerDay /\
            forall u, a - secondsPerDay <= u <= a + secondsPerDay -> offset_at loc u = o.

(** The sum of a list of integers, without wrap-around. *)
Definition total_of (data : list Z) : Z := fold_right Z.add 0 data.

(** The pieces of at most seven values that a list falls into, in order;
    [fuel] bounds their number. *)
Fixpoint chunks7 (fuel : nat) (data : list Z) : list (list Z) :=
  match fuel with
  | O => []
  | S fuel' =>
      match data with
      | [] => []
      | _ => firstn 7 data :: chunks7 fuel' (skipn 7 data)
      end
  end.

(** The energy of the last of the records that is for hour [h], 0 when
    there is none. *)
Definition last_for_hour (records : list Main.HourlyRecord.t) (h : Z) : Z :=
  hd 0 (map Main.HourlyRecord.EnergyWh
            (filter (fun r => Main.HourlyRecord.Hour r =? h) (rev records))).

(** The rows of the weekly report for a list of pieces, numbered from
    [w]. *)
Fixpoint rows_from (w : Z) (pieces : list (list Z)) : list Main.WeekRow :=
  match pieces with
  | [] => []
  | c :: rest =>
      {| Main.week := w; Main.weekData := c; Main.dashes := 7 - len c;
         Main.weekTotal := Main.sum c |} :: rows_from (w + 1) rest
  end.

(** The line of the monthly report for month [j] (counted from 0) when the
    bars are scaled by [scale]. *)
Definition bar_of (data : list Z) (scale : Z) (j : nat) : Main.MonthBar :=
  let v := nth j data 0 in
  {| Main.month := nth j Main.months ""%string; Main.month_wh := v;
     Main.full := v * 30 / scale; Main.light := 30 - v * 30 / scale |}.

(** The positive values of [data] with their positions, from position [i]
    on. *)
Fixpoint positive_entries (data : list Z) (i : Z) : list (Z * Z) :=
  match data with
  | [] => []
  | wh :: rest =>
      if 0 <? wh then (i, wh) :: positive_entries rest (i + 1)
      else positive_entries rest (i + 1)
  end.

(** A store call that a poll at time [now] of the devices [ips] may make:
    for one of the devices; hourly and daily values under the date of [now],
    monthly values under its year; hourly and monthly energies positive, at
    an hour from 0 and a month that is a position plus one. *)
Definition well_stored (now : Time) (ips : list string) (c : Main.StoreCall) : Prop :=
  match c with
  | Main.InsertReading ip _ _ => In ip ips
  | Main.InsertHourly date hour ip wh =>
      date = Main.Time_Format_date now /\ 0 <= hour /\ 0 < wh /\ In ip ips
  | Main.InsertDaily date ip _ _ => date = Main.Time_Format_date now /\ In ip ips
  | Main.InsertMonthly year month ip wh =>
      year = Time_Year now /\ (exists i, 0 <= i /\ month = Main.int_of_Z (i + 1)) /\
      0 < wh /\ In ip ips
  end.

(** What the loop of [maxVal] knows after the values [pre]. *)
Definition max_so_far (pre : list Z) (max maxIdx : Z) : Prop :=
  0 <= max /\ Forall (fun v => v <= max) pre /\
  (max = 0 -> maxIdx = 0) /\
  (0 < max -> 0 <= maxIdx < len pre /\ Main.at_ pre maxIdx = max /\
              forall j, 0 <= j < maxIdx -> Main.at_ pre j < max).

(** ** Concrete values for the examples *)

Module Example.

(** Scenario B of the specification: credentials "a@b" / "pw", a local seed
    of sixteen 0x00 and a remote seed of sixteen 0xFF. *)
Definition fresh : klapSession :=
  newKlapSession (P := Standard) "192.0.2.10" "a@b" "pw" (repeat "000"%byte 16).

Definition shaken : klapSession := with_remoteSeed fresh (repeat "255"%byte 16).

(** The session after key derivation. *)
Definition ready : klapSession := deriveKeys (P := Standard) shaken.

(** The same session with its counter at the largest [int32]. *)
Definition at_max : klapSession := with_seq ready MaxInt32.

(** A peer that never answers. *)
Definition silent : device := fun _ => PostError.

Definition quote : string := String (ascii_of_nat 34) EmptyString.

(** The text [{"error_code":N}]. *)
Definition envelope_text (code : Z) : string :=
  ("{" ++ quote ++ "error_code" ++ quote ++ ":" ++ fmt_d code ++ "}")%string.

(** A peer that answers every request with the envelope [{"error_code":N}],
    framed for the session and the sequence value it was asked with. *)
Definition answering (s : klapSession) (sq code : Z) : device :=
  fun _ => Response 200
             (Some (spec_body (P := Standard) s sq (list_byte_of_string (envelope_text code)))).

(** Enough of [encoding/json] for the examples: requests are written as
    [{"method":"M"}], and an envelope is read when it is exactly
    [{"error_code":N}]. *)
Definition unmarshal_envelope (b : bytes) : option klapResponse :=
  let text := string_of_list_byte b in
  let head := ("{" ++ quote ++ "error_code" ++ quote ++ ":")%string in
  let n := String.length text in
  let h := String.length head in
  if (String.eqb (substring 0 h text) head && String.eqb (substring (n - 1) 1 text) "}")%bool
  then match NilZero.int_of_string (substring h (n - 1 - h) text) with
       | Some i => Some {| ErrorCode := Z.of_int i; Result := [] |}
       | None => None
       end
  else None.

Definition json : Json :=
  {| json_Marshal := fun method _ =>
       Some (list_byte_of_string
               ("{" ++ quote ++ "method" ++ quote ++ ":" ++ quote ++ method ++ quote ++ "}")%string);
     json_Unmarshal_klapResponse := unmarshal_envelope;
     json_Unmarshal_discoveryResponse := fun _ => None |}.

Definition plug : P110 :=
  {| ip := "192.0.2.10"; session := ready; terminalUUID := "" |}.

(** Scenario E of the specification: 2024-03-15T14:22:00 at +05:30. *)
Definition afternoon : Time :=
  {| unixSec := 1710492720; location := time_FixedZone 19800 |}.

End Example.

(** ** Concrete peers for the examples of the client layer *)

Module Peer.

(** The remote seed of scenario B. *)
Definition remote : bytes := repeat "255"%byte 16.

(** A device that knows the credentials "a@b" / "pw": it answers
    [handshake1] with its seed and the server hash over the seed it
    received. *)
Definition honest1 : device :=
  fun rq =>
    Response 200
      (Some (remote ++ sha256_Sum256 (Primitives := Standard)
                         (req_body rq ++ remote
                          ++ generateAuthHash (P := Standard) "a@b" "pw"))).

(** It accepts every [handshake2]. *)
Definition honest2 : device := fun _ => Response 200 (Some []).

Definition client : Client := NewClient "a@b" "pw".

(** The header of a discovery datagram, and a parser that reads one text:
    a result without an ip, error code 0. *)
Definition header : bytes := repeat "000"%byte 16.

Definition announcement : bytes := list_byte_of_string "{}".

Definition json : Json :=
  {| json_Marshal := json_Marshal (Json := Example.json);
     json_Unmarshal_klapResponse := json_Unmarshal_klapResponse (Json := Example.json);
     json_Unmarshal_discoveryResponse := fun b =>
       if bytes_Equal b announcement
       then Some {| Result_DeviceID := "id"; Result_DeviceModel := "P110";
                    Result_IP := ""; Result_MAC := "00-00-5E-00-53-01";
                    discovery_ErrorCode := 0 |}
       else None |}.


(** A connection to a peer that never answers reads no result. *)
Definition no_results : JsonResults :=
  {| json_Unmarshal_DeviceInfo := fun _ => None;
     json_Unmarshal_DeviceUsage := fun _ => None;
     json_Unmarshal_CurrentPower := fun _ => None;
     json_Unmarshal_EnergyUsage := fun _ => None;
     json_Unmarshal_EnergyData := fun _ => None |}.

(** The session of scenario B is asked for its device info and answered
    with a correctly signed body whose rest is a single byte. *)
Definition one_byte_reply : device :=
  fun _ =>
    let sq := int32_of_Z (seq Example.ready + 1) in
    Response 200
      (Some (sha256_Sum256 (Primitives := Standard)
               (sig Example.ready ++ int32_be sq ++ ["000"%byte]) ++ ["000"%byte])).

Definition visit : Main.Visit :=
  {| Main.jar := true; Main.rnd := Some (repeat "000"%byte 16); Main.uuid := "";
     Main.at_handshake1 := honest1; Main.at_handshake2 := honest2;
     Main.at_info := one_byte_reply; Main.at_power := Example.silent;
     Main.at_hourly := Example.silent; Main.at_usage := Example.silent;
     Main.at_monthly := Example.silent |}.

End Peer.

(** A zone with transitions: America/Sao_Paulo from its summer time of
    2017 on. Summer time (-02:00) began at 00:00 on 2017-10-15 and on
    2018-11-04 and ended at 00:00 on 2018-02-18 and on 2019-02-17; since
    then the zone keeps -03:00. Instants before October 2017 are given the
    standard offset. *)
Module SaoPaulo.

Definition zone : Location :=
  {| lookup := fun u =>
       if u <? 1508036400 then (-10800, alpha, 1508036400)
       else if u <? 1518919200 then (-7200, 1508036400, 1518919200)
       else if u <? 1541300400 then (-10800, 1518919200, 1541300400)
       else if u <? 1550368800 then (-7200, 1541300400, 1550368800)
       else (-10800, 1550368800, omega) |}.

(** 2018-11-04T12:00:00-02:00, the day on which the clocks went from 00:00
    to 01:00. *)
Definition noon : Time := {| unixSec := 1541340000; location := zone |}.

(** 2024-03-15T12:00:00-03:00. *)
Definition later : Time := {| unixSec := 1710514800; location := zone |}.

End SaoPaulo.

(** * Properties *)

(** ** Bytes *)

Lemma Z_of_byte_range (b : byte) : 0 <= Z_of_byte b < 256.
Proof.
  unfold Z_of_byte. pose proof (Byte.to_N_bounded b). lia.
Qed.

Lemma Z_of_byte_of_Z (z : Z) : Z_of_byte (byte_of_Z z) = z mod 256.
Proof.
  unfold Z_of_byte, byte_of_Z.
  pose proof (Z.mod_pos_bound z 256 ltac:(lia)) as Hm.
  destruct (Byte.of_N (Z.to_N (z mod 256))) as [b|] eqn:E.
  - apply Byte.to_of_N in E. rewrite E. lia.
  - apply Byte.of_N_None_iff in E. lia.
Qed.

Lemma byte_of_Z_of_byte (b : byte) : byte_of_Z (Z_of_byte b) = b.
Proof.
  unfold byte_of_Z. pose proof (Z_of_byte_range b) as Hr.
  rewrite Z.mod_small by lia. unfold Z_of_byte. rewrite N2Z.id, Byte.of_to_N.
  reflexivity.
Qed.

Lemma Z_of_byte_inj (a b : byte) : Z_of_byte a = Z_of_byte b -> a = b.
Proof.
  intros E. rewrite <- (byte_of_Z_of_byte a), <- (byte_of_Z_of_byte b), E.
  reflexivity.
Qed.

Lemma byte_eqb_eq (a b : byte) : Byte.eqb a b = true <-> a = b.
Proof.
  split.
  - apply Byte.byte_dec_bl.
  - apply Byte.byte_dec_lb.
Qed.

Lemma byte_eqb_refl (a : byte) : Byte.eqb a a = true.
Proof. apply byte_eqb_eq. reflexivity. Qed.

Lemma bytes_Equal_eq (a b : bytes) : bytes_Equal a b = true <-> a = b.
Proof.
  revert b. induction a as [|x a IH]; intros [|y b]; simpl; split; intros E;
    try reflexivity; try discriminate.
  - apply andb_true_iff in E. destruct E as [E1 E2].
    apply byte_eqb_eq in E1. apply IH in E2. congruence.
  - injection E as -> ->. rewrite byte_eqb_refl. simpl. apply IH. reflexivity.
Qed.

Lemma bytes_Equal_refl (a : bytes) : bytes_Equal a a = true.
Proof. apply bytes_Equal_eq. reflexivity. Qed.

Lemma len_nonneg {A : Type} (l : list A) : 0 <= len l.
Proof. unfold len. lia. Qed.

Lemma len_app {A : Type} (l1 l2 : list A) : len (l1 ++ l2) = len l1 + len l2.
Proof. unfold len. rewrite length_app. lia. Qed.

Lemma slice_0 (data : bytes) (n : Z) : slice data 0 n = firstn (Z.to_nat n) data.
Proof. unfold slice. rewrite Z.sub_0_r. reflexivity. Qed.

Lemma slice_to_len (data : bytes) (lo : Z) :
  slice data lo (len data) = skipn (Z.to_nat lo) data.
Proof.
  unfold slice, len. apply firstn_all2. rewrite length_skipn. lia.
Qed.

(** ** PKCS#7 *)

Lemma pkcs7Unpad_loop_spec (data : bytes) (length padding : Z) (todo : nat) (i : Z) :
  pkcs7Unpad_loop data length padding todo i = true <->
  (forall j, i <= j < i + Z.of_nat todo -> index data (length - 1 - j) = byte_of_Z padding).
Proof.
  revert i. induction todo as [|todo IH]; intros i; simpl pkcs7Unpad_loop.
  - split; [intros _ j Hj; lia | reflexivity].
  - destruct (Byte.eqb (index data (length - 1 - i)) (byte_of_Z padding)) eqn:E.
    + apply byte_eqb_eq in E. rewrite IH. split; intros Hall j Hj.
      * destruct (Z.eq_dec j i) as [->|Hne]; [exact E | apply Hall; lia].
      * apply Hall. lia.
    + split; [discriminate|]. intros Hall.
      rewrite (Hall i ltac:(lia)) in E. rewrite byte_eqb_refl in E. discriminate.
Qed.

Lemma tail_is_index (data : bytes) (p : Z) (b : byte) :
  0 <= p <= len data ->
  (tail_is data p b <->
   forall j, 0 <= j < 0 + Z.of_nat (Z.to_nat p) -> index data (len data - 1 - j) = b).
Proof.
  intros Hp. unfold tail_is, bytes_Repeat, index. rewrite slice_to_len.
  unfold len in *. split.
  - intros E j Hj.
    replace (Z.to_nat (Z.of_nat (length data) - 1 - j))
      with (Z.to_nat (Z.of_nat (length data) - p) + (Z.to_nat p - 1 - Z.to_nat j))%nat by lia.
    rewrite <- nth_skipn, E. apply nth_repeat_lt. lia.
  - intros Hall. apply nth_ext with (d := "000"%byte) (d' := "000"%byte).
    + rewrite length_skipn, repeat_length. lia.
    + intros n Hn. rewrite length_skipn in Hn. rewrite nth_skipn.
      rewrite nth_repeat_lt by lia.
      specialize (Hall (p - 1 - Z.of_nat n) ltac:(lia)).
      replace (Z.to_nat (Z.of_nat (length data) - 1 - (p - 1 - Z.of_nat n)))
        with (Z.to_nat (Z.of_nat (length data) - p) + n)%nat in Hall by lia.
      exact Hall.
Qed.

Lemma pkcs7Unpad_cases (data : bytes) :
  let p := padding_of data in
  (data = [] /\ pkcs7Unpad data = Err ErrEmptyData) \/
  (data <> [] /\ (p = 0 \/ len data < p \/ ~ tail_is data p (byte_of_Z p)) /\
   pkcs7Unpad data = Err ErrInvalidPadding) \/
  (data <> [] /\ 0 < p <= len data /\ tail_is data p (byte_of_Z p) /\
   pkcs7Unpad data = Ok (slice data 0 (len data - p))).
Proof.
  intros p. unfold pkcs7Unpad. fold (padding_of data). fold p.
  pose proof (Z_of_byte_range (index data (len data - 1))) as Hr. fold (padding_of data) in Hr.
  fold p in Hr.
  destruct (len data =? 0) eqn:E0.
  - left. apply Z.eqb_eq in E0. destruct data; [auto | unfold len in E0; simpl in E0; lia].
  - right. apply Z.eqb_neq in E0.
    assert (Hne : data <> []) by (intros ->; apply E0; reflexivity).
    destruct (p >? len data) eqn:E1; simpl.
    { left. split; [exact Hne|]. split; [|reflexivity]. right. left.
      apply Z.gtb_lt in E1. lia. }
    destruct (p =? 0) eqn:E2; simpl.
    { left. split; [exact Hne|]. split; [|reflexivity]. left.
      apply Z.eqb_eq in E2. exact E2. }
    assert (Hp : 0 < p <= len data).
    { apply Z.eqb_neq in E2. rewrite Z.gtb_ltb in E1. apply Z.ltb_ge in E1. lia. }
    assert (Hp' : 0 <= p <= len data) by lia.
    destruct (pkcs7Unpad_loop data (len data) p (Z.to_nat p) 0) eqn:EL.
    + right. split; [exact Hne|]. split; [lia|]. split; [|reflexivity].
      apply (tail_is_index _ _ _ Hp'). apply pkcs7Unpad_loop_spec. exact EL.
    + left. split; [exact Hne|]. split; [|reflexivity]. right. right. intros Ht.
      pose proof (proj1 (tail_is_index _ _ _ Hp') Ht) as Hall.
      apply pkcs7Unpad_loop_spec in Hall. rewrite Hall in EL. discriminate.
Qed.

Lemma pkcs7Pad_padding (data : bytes) :
  let padding := 16 - Z.rem (len data) 16 in
  1 <= padding <= 16 /\ Z.rem (len data + padding) 16 = 0.
Proof.
  intros padding. subst padding. pose proof (len_nonneg data) as Hl.
  rewrite Z.rem_mod_nonneg by lia.
  pose proof (Z.mod_pos_bound (len data) 16 ltac:(lia)) as Hm.
  split; [lia|].
  rewrite Z.rem_mod_nonneg by lia.
  replace (len data + (16 - len data mod 16)) with (len data - len data mod 16 + 1 * 16) by lia.
  rewrite Z.mod_add by lia.
  rewrite (Z.div_mod (len data) 16) at 1 by lia.
  replace (16 * (len data / 16) + len data mod 16 - len data mod 16)
    with ((len data / 16) * 16) by lia.
  apply Z.mod_mul. lia.
Qed.

Lemma pkcs7Pad_len (data : bytes) :
  len (pkcs7Pad data aes_BlockSize) = len data + (16 - Z.rem (len data) 16).
Proof.
  unfold pkcs7Pad, aes_BlockSize, bytes_Repeat. rewrite len_app.
  pose proof (pkcs7Pad_padding data) as [Hp _].
  unfold len at 2. rewrite repeat_length. lia.
Qed.

(** Unpadding undoes padding to the AES block size. *)
Lemma pkcs7Unpad_pkcs7Pad (data : bytes) :
  pkcs7Unpad (pkcs7Pad data aes_BlockSize) = Ok data.
Proof.
  pose proof (pkcs7Pad_padding data) as [Hp _].
  pose proof (pkcs7Pad_len data) as Hlen.
  set (padding := 16 - Z.rem (len data) 16) in *.
  set (padded := pkcs7Pad data aes_BlockSize) in *.
  assert (Hpad : padded = data ++ repeat (byte_of_Z padding) (Z.to_nat padding)) by reflexivity.
  assert (Hlast : padding_of padded = padding).
  { unfold padding_of, index. rewrite Hlen, Hpad.
    rewrite app_nth2 by (unfold len; lia).
    rewrite nth_repeat_lt by (unfold len; lia).
    rewrite Z_of_byte_of_Z. apply Z.mod_small. lia. }
  destruct (pkcs7Unpad_cases padded) as [[He _]|[(_ & Hbad & _)|(_ & _ & _ & Hok)]].
  - rewrite Hpad in He. apply app_eq_nil in He. destruct He as [_ He].
    destruct (Z.to_nat padding) eqn:E; [lia | discriminate].
  - exfalso. rewrite Hlast in Hbad. pose proof (len_nonneg data) as Hd.
    destruct Hbad as [H0|[Hlt|Hnt]]; try lia.
    apply Hnt. unfold tail_is. rewrite slice_to_len, Hlen.
    replace (len data + padding - padding) with (len data) by lia.
    rewrite Hpad. unfold len. rewrite Nat2Z.id.
    rewrite skipn_app, skipn_all, Nat.sub_diag. reflexivity.
  - rewrite Hok, Hlast, Hlen, slice_0.
    replace (len data + padding - padding) with (len data) by lia.
    rewrite Hpad. unfold len. rewrite Nat2Z.id.
    rewrite firstn_app, firstn_all, Nat.sub_diag. simpl. rewrite app_nil_r. reflexivity.
Qed.

(** ** Hashing helpers *)

Section Hashing.
Context {P : Primitives}.

Lemma fold_left_Write (parts : list bytes) (h : hasher) :
  written (fold_left Write parts h) = written h ++ concat parts.
Proof.
  revert h. induction parts as [|p parts IH]; intros h; simpl.
  - rewrite app_nil_r. reflexivity.
  - rewrite IH. simpl. rewrite <- app_assoc. reflexivity.
Qed.

Lemma sha256Hash_concat (parts : list bytes) :
  sha256Hash parts = sha256_Sum256 (concat parts).
Proof.
  unfold sha256Hash, Sum. rewrite fold_left_Write. reflexivity.
Qed.

Lemma concat_slices_concat (slices : list bytes) : concat_slices slices = concat slices.
Proof.
  unfold concat_slices.
  assert (G : forall acc, fold_left (fun result s => result ++ s) slices acc = acc ++ concat slices).
  { induction slices as [|x xs IH]; intros acc; simpl.
    - rewrite app_nil_r. reflexivity.
    - rewrite IH, <- app_assoc. reflexivity. }
  apply G.
Qed.

Lemma sign_eq (s : klapSession) (sq : Z) (ct : bytes) :
  sign s sq ct = sha256_Sum256 (sig s ++ BigEndian_PutUint32 (uint32_of_Z sq) ++ ct).
Proof.
  unfold sign, Sum, Write, sha256_New. simpl. rewrite <- app_assoc. reflexivity.
Qed.

End Hashing.

(** ** The IV *)

Lemma length_copy (dst src : bytes) : length (copy dst src) = length dst.
Proof.
  unfold copy. rewrite length_app, length_firstn, length_skipn. lia.
Qed.

Lemma length_build_iv (s : klapSession) (sq : Z) : length (build_iv s sq) = 16%nat.
Proof.
  unfold build_iv, PutUint32_at.
  rewrite !length_app, length_firstn, length_skipn, length_copy, repeat_length.
  reflexivity.
Qed.

Lemma build_iv_eq (s : klapSession) (sq : Z) :
  length (ivSeq s) = 12%nat ->
  build_iv s sq = ivSeq s ++ BigEndian_PutUint32 (uint32_of_Z sq).
Proof.
  intros H12. unfold build_iv, PutUint32_at, copy. rewrite H12, repeat_length.
  rewrite (firstn_all2 (n := 16) (ivSeq s)) by lia.
  set (z := skipn 12 (repeat "000"%byte 16)).
  assert (Hz : length z = 4%nat) by reflexivity.
  rewrite firstn_app, H12, Nat.sub_diag, firstn_O, app_nil_r.
  rewrite firstn_all2 by lia.
  rewrite skipn_all2 by (rewrite length_app; lia).
  rewrite app_nil_r. reflexivity.
Qed.

(** ** Cipher block chaining *)

Lemma lxor_byte_range (a b : Z) :
  0 <= a < 256 -> 0 <= b < 256 -> 0 <= Z.lxor a b < 256.
Proof.
  intros Ha Hb.
  assert (H0 : 0 <= Z.lxor a b) by (apply Z.lxor_nonneg; lia).
  split; [exact H0|].
  destruct (Z.eq_dec (Z.lxor a b) 0) as [->|Hne]; [lia|].
  change 256 with (2 ^ 8). apply Z.log2_lt_pow2; [lia|].
  pose proof (Z.log2_lxor a b ltac:(lia) ltac:(lia)) as Hl.
  assert (Hla : Z.log2 a < 8).
  { destruct (Z.eq_dec a 0) as [->|]; [reflexivity|]. apply Z.log2_lt_pow2; lia. }
  assert (Hlb : Z.log2 b < 8).
  { destruct (Z.eq_dec b 0) as [->|]; [reflexivity|]. apply Z.log2_lt_pow2; lia. }
  lia.
Qed.

Lemma Z_of_byte_xor (x y : byte) :
  Z_of_byte (byte_of_Z (Z.lxor (Z_of_byte x) (Z_of_byte y))) =
  Z.lxor (Z_of_byte x) (Z_of_byte y).
Proof.
  rewrite Z_of_byte_of_Z. apply Z.mod_small.
  apply lxor_byte_range; apply Z_of_byte_range.
Qed.

Lemma length_xor_bytes (a b : bytes) :
  length (xor_bytes a b) = Nat.min (length a) (length b).
Proof.
  revert b. induction a as [|x a IH]; intros [|y b]; simpl; auto.
Qed.

Lemma xor_bytes_involutive (a b : bytes) :
  length a = length b -> xor_bytes (xor_bytes a b) b = a.
Proof.
  revert b. induction a as [|x a IH]; intros [|y b] Hl; simpl in *; try discriminate.
  - reflexivity.
  - rewrite IH by lia. f_equal.
    rewrite Z_of_byte_xor, Z.lxor_assoc, Z.lxor_nilpotent, Z.lxor_0_r.
    apply byte_of_Z_of_byte.
Qed.

Lemma concat_blocks_of (fuel : nat) (data : bytes) :
  (length data <= fuel)%nat -> concat (blocks_of fuel data) = data.
Proof.
  revert data. induction fuel as [|fuel IH]; intros data Hl; cbn [blocks_of].
  - destruct data; [reflexivity | simpl in Hl; lia].
  - destruct data as [|x data]; [reflexivity|].
    cbn [concat]. rewrite IH.
    + apply firstn_skipn.
    + rewrite length_skipn. cbn [length] in *. lia.
Qed.

Lemma blocks_of_block16 (fuel : nat) (data : bytes) :
  (length data mod 16 = 0)%nat -> Forall block16 (blocks_of fuel data).
Proof.
  revert data. induction fuel as [|fuel IH]; intros data Hm; cbn [blocks_of].
  - constructor.
  - destruct data as [|x data]; [constructor|].
    assert (Hge : (16 <= length (x :: data))%nat).
    { apply Nat.Div0.mod_divides in Hm. destruct Hm as [c Hc].
      destruct c; [simpl in Hc; discriminate | lia]. }
    constructor.
    + unfold block16. rewrite length_firstn. lia.
    + apply IH. rewrite length_skipn.
      apply Nat.Div0.mod_divides in Hm. destruct Hm as [c Hc]. rewrite Hc.
      apply Nat.Div0.mod_divides. exists (c - 1)%nat. lia.
Qed.

Lemma blocks_of_concat (bs : list bytes) (fuel : nat) :
  Forall block16 bs -> (length bs <= fuel)%nat -> blocks_of fuel (concat bs) = bs.
Proof.
  revert fuel. induction bs as [|b bs IH]; intros fuel Hb Hf.
  - destruct fuel; reflexivity.
  - inversion Hb as [|? ? Hb16 Hbs]; subst. simpl in Hf.
    destruct fuel as [|fuel]; [lia|]. cbn [blocks_of concat].
    destruct (b ++ concat bs) as [|y rest] eqn:E.
    + apply app_eq_nil in E. destruct E as [-> _]. discriminate Hb16.
    + rewrite <- E. unfold block16 in Hb16.
      rewrite firstn_app, skipn_app, Hb16, Nat.sub_diag.
      rewrite <- Hb16 at 1. rewrite firstn_all. rewrite <- Hb16 at 1. rewrite skipn_all.
      simpl. rewrite app_nil_r. f_equal. apply IH; [exact Hbs | lia].
Qed.

Lemma length_concat_block16 (bs : list bytes) :
  Forall block16 bs -> length (concat bs) = (16 * length bs)%nat.
Proof.
  induction 1 as [|b bs Hb _ IH]; simpl; [reflexivity|].
  rewrite length_app, IH, Hb. lia.
Qed.

Section CBC.
Context {P : Primitives}.
Hypothesis CL : CipherLaws P.

Lemma cbc_encrypt_blocks_block16 (k iv : bytes) (bs : list bytes) :
  Forall block16 bs -> block16 iv -> Forall block16 (cbc_encrypt_blocks k iv bs).
Proof.
  intros Hbs. revert iv. induction Hbs as [|b bs Hb _ IH]; intros iv Hiv; simpl.
  - constructor.
  - assert (Hc : block16 (aes_Encrypt k (xor_bytes b iv))).
    { apply (aes_Encrypt_size P CL). rewrite length_xor_bytes, Hb, Hiv. reflexivity. }
    constructor; [exact Hc | apply IH; exact Hc].
Qed.

Lemma length_cbc_encrypt_blocks (k iv : bytes) (bs : list bytes) :
  length (cbc_encrypt_blocks k iv bs) = length bs.
Proof.
  revert iv. induction bs as [|b bs IH]; intros iv; simpl; [reflexivity|].
  rewrite IH. reflexivity.
Qed.

Lemma cbc_decrypt_encrypt_blocks (k iv : bytes) (bs : list bytes) :
  Forall block16 bs -> block16 iv ->
  cbc_decrypt_blocks k iv (cbc_encrypt_blocks k iv bs) = bs.
Proof.
  intros Hbs. revert iv. induction Hbs as [|b bs Hb _ IH]; intros iv Hiv; simpl.
  - reflexivity.
  - assert (Hx : length (xor_bytes b iv) = 16%nat).
    { rewrite length_xor_bytes, Hb, Hiv. reflexivity. }
    rewrite (aes_Decrypt_Encrypt P CL) by exact Hx.
    rewrite xor_bytes_involutive by (rewrite Hb, Hiv; reflexivity).
    f_equal. apply IH. apply (aes_Encrypt_size P CL). exact Hx.
Qed.

End CBC.

(** ** Fixed-width integers *)

Lemma int32_of_Z_range (z : Z) : is_int32 (int32_of_Z z).
Proof.
  unfold is_int32, int32_of_Z.
  pose proof (Z.mod_pos_bound (z + 2 ^ 31) (2 ^ 32) ltac:(lia)). lia.
Qed.

Lemma int32_of_Z_small (z : Z) : is_int32 z -> int32_of_Z z = z.
Proof.
  unfold is_int32, int32_of_Z. intros H. rewrite Z.mod_small; lia.
Qed.

Lemma BigEndian_PutUint32_int32_be (sq : Z) :
  BigEndian_PutUint32 (uint32_of_Z sq) = int32_be sq.
Proof.
  unfold BigEndian_PutUint32, int32_be, uint32_of_Z.
  rewrite !Z.shiftr_div_pow2 by lia. reflexivity.
Qed.

Lemma length_int32_be (sq : Z) : length (int32_be sq) = 4%nat.
Proof. reflexivity. Qed.

(** Bytes placed side by side: [or] of disjoint bit ranges is a sum. *)
Lemma lor_shiftl_add (a b n : Z) :
  0 <= n -> 0 <= a < 2 ^ n -> Z.lor a (Z.shiftl b n) = a + b * 2 ^ n.
Proof.
  intros Hn Ha. rewrite Z.shiftl_mul_pow2 by exact Hn.
  assert (Hland : Z.land a (b * 2 ^ n) = 0).
  { apply Z.bits_inj'. intros k Hk. rewrite Z.land_spec, Z.bits_0.
    destruct (Z.lt_ge_cases k n) as [Hlt|Hge].
    - rewrite Z.mul_pow2_bits_low by exact Hlt. apply andb_false_r.
    - destruct (Z.eq_dec a 0) as [->|Hne]; [rewrite Z.bits_0; reflexivity|].
      rewrite (Z.bits_above_log2 a k); [reflexivity | lia |].
      apply Z.lt_le_trans with n; [|exact Hge].
      apply Z.log2_lt_pow2; lia. }
  rewrite <- (Z.lxor_lor _ _ Hland). symmetry. apply Z.add_nocarry_lxor. exact Hland.
Qed.

Lemma BigEndian_Uint32_sum (b : bytes) :
  BigEndian_Uint32 b =
  Z_of_byte (index b 0) * 2 ^ 24 + Z_of_byte (index b 1) * 2 ^ 16
  + Z_of_byte (index b 2) * 2 ^ 8 + Z_of_byte (index b 3).
Proof.
  unfold BigEndian_Uint32.
  pose proof (Z_of_byte_range (index b 0)) as H0.
  pose proof (Z_of_byte_range (index b 1)) as H1.
  pose proof (Z_of_byte_range (index b 2)) as H2.
  pose proof (Z_of_byte_range (index b 3)) as H3.
  rewrite (lor_shiftl_add _ _ 8) by lia.
  rewrite (lor_shiftl_add _ _ 16) by lia.
  rewrite (lor_shiftl_add _ _ 24) by lia.
  lia.
Qed.

Lemma int32_of_BigEndian_Uint32 (b : bytes) :
  int32_of_Z (BigEndian_Uint32 b) = int32_of_be b.
Proof.
  rewrite BigEndian_Uint32_sum. unfold int32_of_be, int32_of_Z.
  pose proof (Z_of_byte_range (index b 0)) as H0.
  pose proof (Z_of_byte_range (index b 1)) as H1.
  pose proof (Z_of_byte_range (index b 2)) as H2.
  pose proof (Z_of_byte_range (index b 3)) as H3.
  set (u := Z_of_byte (index b 0) * 2 ^ 24 + Z_of_byte (index b 1) * 2 ^ 16
            + Z_of_byte (index b 2) * 2 ^ 8 + Z_of_byte (index b 3)).
  assert (Hu : 0 <= u < 2 ^ 32) by (subst u; lia).
  destruct (u <? 2 ^ 31) eqn:E.
  - apply Z.ltb_lt in E. rewrite Z.mod_small by lia. lia.
  - apply Z.ltb_ge in E.
    replace (u + 2 ^ 31) with (u - 2 ^ 31 + 1 * 2 ^ 32) by lia.
    rewrite Z.mod_add by lia. rewrite Z.mod_small by lia. lia.
Qed.

Lemma index_4 (a b c d : byte) :
  index [a; b; c; d] 0 = a /\ index [a; b; c; d] 1 = b /\
  index [a; b; c; d] 2 = c /\ index [a; b; c; d] 3 = d.
Proof. repeat split. Qed.

(** The signed value read back from [int32_be s] is [s]. *)
Lemma int32_of_be_int32_be (s : Z) : is_int32 s -> int32_of_be (int32_be s) = s.
Proof.
  intros Hs. unfold is_int32 in Hs. unfold int32_of_be, int32_be.
  match goal with |- context [index [?a; ?b; ?c; ?d] _] =>
    destruct (index_4 a b c d) as (E0 & E1 & E2 & E3) end.
  rewrite E0, E1, E2, E3. clear E0 E1 E2 E3.
  rewrite !Z_of_byte_of_Z.
  set (u := s mod 2 ^ 32).
  assert (Hu : 0 <= u < 2 ^ 32) by (apply Z.mod_pos_bound; lia).
  assert (Hsum : u / 2 ^ 24 mod 256 * 2 ^ 24 + u / 2 ^ 16 mod 256 * 2 ^ 16
                 + u / 2 ^ 8 mod 256 * 2 ^ 8 + u mod 256 = u).
  { change (2 ^ 24) with 16777216. change (2 ^ 16) with 65536. change (2 ^ 8) with 256.
    change (2 ^ 32) with 4294967296 in Hu. Z.div_mod_to_equations. lia. }
  rewrite Hsum.
  assert (Hus : u = s \/ u = s + 2 ^ 32).
  { subst u. destruct (Z_lt_le_dec s 0).
    - right. replace s with (s + 2 ^ 32 + (-1) * 2 ^ 32) at 1 by lia.
      rewrite Z.mod_add by lia. apply Z.mod_small. lia.
    - left. apply Z.mod_small. lia. }
  destruct (u <? 2 ^ 31) eqn:E.
  - apply Z.ltb_lt in E. lia.
  - apply Z.ltb_ge in E. lia.
Qed.

(** ** Framing: what [encrypt] builds and what [decrypt] accepts *)

Lemma firstn_length_app {A : Type} (a b : list A) (n : nat) :
  length a = n -> firstn n (a ++ b) = a.
Proof.
  intros <-. rewrite firstn_app, Nat.sub_diag, firstn_all, firstn_O. apply app_nil_r.
Qed.

Lemma skipn_length_app {A : Type} (a b : list A) (n : nat) :
  length a = n -> skipn n (a ++ b) = b.
Proof.
  intros <-. rewrite skipn_app, Nat.sub_diag, skipn_all. reflexivity.
Qed.

Lemma aes_NewCipher_16 (k : bytes) : len k = 16 -> aes_NewCipher k = Ok k.
Proof. intros H. unfold aes_NewCipher. rewrite H. reflexivity. Qed.

Lemma rem16_nat (data : bytes) :
  Z.rem (len data) aes_BlockSize = 0 <-> (length data mod 16 = 0)%nat.
Proof.
  unfold aes_BlockSize, len. rewrite Z.rem_mod_nonneg by lia.
  change 16 with (Z.of_nat 16). rewrite <- Nat2Z.inj_mod. lia.
Qed.

Lemma pkcs7Pad_whole_blocks (plaintext : bytes) :
  Z.rem (len (pkcs7Pad plaintext aes_BlockSize)) aes_BlockSize = 0.
Proof.
  rewrite pkcs7Pad_len. apply (pkcs7Pad_padding plaintext).
Qed.

Lemma spec_iv_build_iv (s : klapSession) (sq : Z) :
  len (ivSeq s) = 12 -> build_iv s sq = spec_iv s sq.
Proof.
  intros H. unfold spec_iv. rewrite <- BigEndian_PutUint32_int32_be.
  apply build_iv_eq. unfold len in H. lia.
Qed.

Section Framing.
Context {P : Primitives}.

Lemma spec_signature_sign (s : klapSession) (sq : Z) (ct : bytes) :
  sign s sq ct = spec_signature s sq ct.
Proof.
  rewrite sign_eq, BigEndian_PutUint32_int32_be. reflexivity.
Qed.

(** [encrypt] under a 16-byte key: no error, no panic. *)
Lemma encrypt_Ok (s : klapSession) (plaintext : bytes) :
  len (key s) = 16 ->
  let sq := int32_of_Z (seq s + 1) in
  let ct := spec_cbc_encrypt (key s) (build_iv s sq) (pkcs7Pad plaintext aes_BlockSize) in
  encrypt s plaintext = (Ok (spec_signature s sq ct ++ ct, sq), with_seq s sq).
Proof.
  intros Hk sq ct. unfold encrypt. fold sq.
  set (s1 := with_seq s sq).
  change (seq s1) with sq. change (key s1) with (key s).
  rewrite (aes_NewCipher_16 _ Hk).
  unfold CBCEncrypter_CryptBlocks.
  assert (Hl : len (build_iv s1 sq) = aes_BlockSize).
  { unfold len. rewrite length_build_iv. reflexivity. }
  rewrite Hl, Z.eqb_refl. cbn [negb].
  rewrite pkcs7Pad_whole_blocks. cbn [Z.eqb negb].
  rewrite spec_signature_sign. reflexivity.
Qed.

(** With a 12-byte [ivSeq] besides, the payload is the body of the
    specification for the incremented counter. *)
Lemma encrypt_spec_body (s : klapSession) (plaintext : bytes) :
  len (key s) = 16 -> len (ivSeq s) = 12 ->
  let sq := int32_of_Z (seq s + 1) in
  encrypt s plaintext = (Ok (spec_body s sq plaintext, sq), with_seq s sq).
Proof.
  intros Hk Hiv sq. rewrite (encrypt_Ok s plaintext Hk). fold sq.
  rewrite (spec_iv_build_iv s sq Hiv). reflexivity.
Qed.

Hypothesis HL : HashLaws P.

Lemma length_spec_signature (s : klapSession) (sq : Z) (ct : bytes) :
  length (spec_signature s sq ct) = 32%nat.
Proof. apply (sha256_Size P HL). Qed.

(** What [decrypt] does with a body [sg ++ ct] whose first part is 32 bytes
    long, under a 16-byte key. *)
Lemma decrypt_split (s : klapSession) (sg ct : bytes) (sq : Z) :
  len (key s) = 16 -> length sg = 32%nat ->
  decrypt s (sg ++ ct) sq =
  if negb (bytes_Equal sg (spec_signature s sq ct)) then Err ErrSignature
  else if negb (Z.rem (len ct) aes_BlockSize =? 0)
       then Panic "crypto/cipher: input not full blocks"
       else match pkcs7Unpad (spec_cbc_decrypt (key s) (build_iv s sq) ct) with
            | Ok plaintext => Ok plaintext
            | Err e => Err (ErrUnpad e)
            | Panic m => Panic m
            end.
Proof.
  intros Hk Hsg. unfold decrypt.
  assert (Hlen : len (sg ++ ct) = 32 + len ct).
  { rewrite len_app. unfold len. lia. }
  assert (Hlt : (len (sg ++ ct) <? 32) = false).
  { apply Z.ltb_ge. pose proof (len_nonneg ct). lia. }
  rewrite Hlt, slice_to_len, slice_0.
  change (Z.to_nat 32) with 32%nat.
  rewrite (firstn_length_app sg ct _ Hsg), (skipn_length_app sg ct _ Hsg).
  rewrite spec_signature_sign.
  destruct (bytes_Equal sg (spec_signature s sq ct)); cbn [negb]; [|reflexivity].
  rewrite (aes_NewCipher_16 _ Hk). unfold CBCDecrypter_CryptBlocks.
  assert (Hl : len (build_iv s sq) = aes_BlockSize).
  { unfold len. rewrite length_build_iv. reflexivity. }
  rewrite Hl, Z.eqb_refl. cbn [negb].
  destruct (Z.rem (len ct) aes_BlockSize =? 0); reflexivity.
Qed.

Hypothesis CL : CipherLaws P.

Lemma spec_cbc_decrypt_encrypt (k iv padded : bytes) :
  block16 iv -> Z.rem (len padded) aes_BlockSize = 0 ->
  spec_cbc_decrypt k iv (spec_cbc_encrypt k iv padded) = padded.
Proof.
  intros Hiv Hp. apply rem16_nat in Hp.
  unfold spec_cbc_decrypt, spec_cbc_encrypt.
  pose proof (blocks_of_block16 (length padded) padded Hp) as Hb.
  pose proof (cbc_encrypt_blocks_block16 CL k iv _ Hb Hiv) as Hc.
  rewrite blocks_of_concat.
  - rewrite (cbc_decrypt_encrypt_blocks CL) by assumption.
    apply concat_blocks_of. lia.
  - exact Hc.
  - rewrite (length_concat_block16 _ Hc). lia.
Qed.

Lemma spec_cbc_encrypt_whole_blocks (k iv padded : bytes) :
  block16 iv -> Z.rem (len padded) aes_BlockSize = 0 ->
  length (spec_cbc_encrypt k iv padded) = length padded.
Proof.
  intros Hiv Hp. apply rem16_nat in Hp. unfold spec_cbc_encrypt.
  pose proof (blocks_of_block16 (length padded) padded Hp) as Hb.
  rewrite (length_concat_block16 _ (cbc_encrypt_blocks_block16 CL k iv _ Hb Hiv)).
  rewrite length_cbc_encrypt_blocks.
  rewrite <- (length_concat_block16 _ Hb), concat_blocks_of by lia. reflexivity.
Qed.

(** [decrypt] of the specification's body under the same sequence value. *)
Lemma decrypt_spec_body (s : klapSession) (sq : Z) (plaintext : bytes) :
  len (key s) = 16 -> len (ivSeq s) = 12 ->
  decrypt s (spec_body s sq plaintext) sq = Ok plaintext.
Proof.
  intros Hk Hiv. unfold spec_body.
  rewrite decrypt_split by (auto using length_spec_signature).
  rewrite bytes_Equal_refl. cbn [negb].
  assert (Hb : block16 (spec_iv s sq)).
  { rewrite <- (spec_iv_build_iv s sq Hiv). apply length_build_iv. }
  unfold spec_ciphertext.
  assert (Hr : Z.rem (len (spec_cbc_encrypt (key s) (spec_iv s sq) (pkcs7Pad plaintext 16)))
                     aes_BlockSize = 0).
  { apply rem16_nat. rewrite spec_cbc_encrypt_whole_blocks.
    - apply rem16_nat. apply pkcs7Pad_whole_blocks.
    - exact Hb.
    - apply pkcs7Pad_whole_blocks. }
  rewrite Hr. cbn [Z.eqb negb].
  rewrite (spec_iv_build_iv s sq Hiv).
  rewrite spec_cbc_decrypt_encrypt; [| exact Hb | apply pkcs7Pad_whole_blocks].
  change 16 with aes_BlockSize. rewrite pkcs7Unpad_pkcs7Pad. reflexivity.
Qed.

End Framing.

(** [deriveKeys] leaves a session keyed. *)
Lemma deriveKeys_keyed (P : Primitives) (HL : HashLaws P) (s : klapSession) :
  keyed (deriveKeys s).
Proof.
  assert (Hlen : forall m n, (n <= 32)%nat -> len (firstn n (sha256Hash m)) = Z.of_nat n).
  { intros m n Hn. unfold len. rewrite length_firstn, sha256Hash_concat, (sha256_Size P HL). lia. }
  unfold keyed, deriveKeys. cbn [key ivSeq sig seq with_keys]. unfold klapIVSize.
  rewrite !slice_0.
  repeat split; try (apply Hlen; lia); apply int32_of_Z_range.
Qed.

(** ** The standard primitives satisfy the laws *)

Module FIPS_facts.
Import FIPS.

Lemma length_bytes_of_word (w : Z) : length (bytes_of_word w) = 4%nat.
Proof. reflexivity. Qed.

Lemma length_sha256 (m : bytes) : length (sha256 m) = 32%nat.
Proof.
  unfold sha256, digest256. rewrite !length_app, !length_bytes_of_word. reflexivity.
Qed.

Lemma length_sha1 (m : bytes) : length (sha1 m) = 20%nat.
Proof.
  unfold sha1, digest160. rewrite !length_app, !length_bytes_of_word. reflexivity.
Qed.

(** *** Checking a property of bytes on all 256 of them *)

Lemma all_bytes_nth (b : byte) : nth (Byte.to_nat b) all_bytes "000"%byte = b.
Proof. destruct b; vm_compute; reflexivity. Qed.

Lemma all_bytes_In (b : byte) : In b all_bytes.
Proof.
  rewrite <- (all_bytes_nth b) at 1. apply nth_In.
  pose proof (Byte.to_nat_bounded b). change (length all_bytes) with 256%nat. lia.
Qed.

Lemma forall_byte (f : byte -> bool) :
  forallb f all_bytes = true -> forall b, f b = true.
Proof.
  intros H b. rewrite forallb_forall in H. apply H. apply all_bytes_In.
Qed.

Lemma forall_byte2 (f : byte -> byte -> bool) :
  forallb (fun a => forallb (f a) all_bytes) all_bytes = true -> forall a b, f a b = true.
Proof.
  intros H a b. apply (forall_byte (f a)). apply (forall_byte _ H a).
Qed.

(** *** The layers of a round and their inverses *)

Lemma inv_sbox_sbox (b : byte) : inv_sbox (sbox b) = b.
Proof.
  apply byte_eqb_eq. revert b. apply forall_byte. vm_compute. reflexivity.
Qed.

Lemma inv_sub_bytes_sub_bytes (st : bytes) : inv_sub_bytes (sub_bytes st) = st.
Proof.
  unfold inv_sub_bytes, sub_bytes. rewrite map_map.
  rewrite <- (map_id st) at 2. apply map_ext. exact inv_sbox_sbox.
Qed.

Lemma xor_byte_involutive (x y : byte) : xor_byte (xor_byte x y) y = x.
Proof.
  unfold xor_byte. rewrite Z_of_byte_xor, Z.lxor_assoc, Z.lxor_nilpotent, Z.lxor_0_r.
  apply byte_of_Z_of_byte.
Qed.

Lemma add_round_key_involutive (k st : bytes) :
  add_round_key k (add_round_key k st) = st.
Proof.
  revert k. induction st as [|x st IH]; intros [|y k]; cbn [add_round_key]; try reflexivity.
  rewrite xor_byte_involutive, IH. reflexivity.
Qed.

Lemma length_add_round_key (k st : bytes) : length (add_round_key k st) = length st.
Proof.
  revert k. induction st as [|x st IH]; intros [|y k]; cbn [add_round_key length]; try reflexivity.
  rewrite IH. reflexivity.
Qed.

(** A state of sixteen bytes, named. *)
Lemma block16_inv (st : bytes) :
  block16 st ->
  exists s0 s1 s2 s3 s4 s5 s6 s7 s8 s9 s10 s11 s12 s13 s14 s15,
    st = [s0; s1; s2; s3; s4; s5; s6; s7; s8; s9; s10; s11; s12; s13; s14; s15].
Proof.
  unfold block16. intros H.
  do 16 (destruct st as [|? st]; [discriminate H|]).
  destruct st; [|discriminate H].
  repeat eexists.
Qed.

Lemma inv_shift_rows_shift_rows (st : bytes) :
  block16 st -> inv_shift_rows (shift_rows st) = st.
Proof.
  intros H. destruct (block16_inv st H) as (s0&s1&s2&s3&s4&s5&s6&s7&s8&s9&s10&s11&s12&s13&s14&s15&->).
  reflexivity.
Qed.

Lemma block16_shift_rows (st : bytes) : block16 st -> block16 (shift_rows st).
Proof.
  intros H. destruct (block16_inv st H) as (s0&s1&s2&s3&s4&s5&s6&s7&s8&s9&s10&s11&s12&s13&s14&s15&->).
  reflexivity.
Qed.

Lemma block16_mix_columns (st : bytes) : block16 st -> block16 (mix_columns st).
Proof.
  intros H. destruct (block16_inv st H) as (s0&s1&s2&s3&s4&s5&s6&s7&s8&s9&s10&s11&s12&s13&s14&s15&->).
  reflexivity.
Qed.

Lemma block16_sub_bytes (st : bytes) : block16 st -> block16 (sub_bytes st).
Proof. unfold block16, sub_bytes. rewrite length_map. auto. Qed.

Lemma block16_add_round_key (k st : bytes) : block16 st -> block16 (add_round_key k st).
Proof. unfold block16. rewrite length_add_round_key. auto. Qed.

(** *** MixColumns: linear over xor, so its inverse is checked per variable *)

Lemma Z_of_byte_xor_byte (x y : byte) :
  Z_of_byte (xor_byte x y) = Z.lxor (Z_of_byte x) (Z_of_byte y).
Proof. apply Z_of_byte_xor. Qed.

Lemma xor_byte_interchange (a b c d : byte) :
  xor_byte (xor_byte a b) (xor_byte c d) = xor_byte (xor_byte a c) (xor_byte b d).
Proof.
  apply Z_of_byte_inj. rewrite !Z_of_byte_xor_byte.
  apply Z.bits_inj'. intros n _. rewrite !Z.lxor_spec. btauto.
Qed.

Lemma xtime_xor_byte (a b : byte) :
  xtime (xor_byte a b) = xor_byte (xtime a) (xtime b).
Proof.
  apply byte_eqb_eq. revert a b. apply forall_byte2. vm_compute. reflexivity.
Qed.

Lemma gmul_bits_xor_byte (bits : nat) (c : Z) (a b : byte) :
  gmul_bits bits c (xor_byte a b) = xor_byte (gmul_bits bits c a) (gmul_bits bits c b).
Proof.
  revert c a b. induction bits as [|bits IH]; intros c a b; cbn [gmul_bits].
  - reflexivity.
  - rewrite xtime_xor_byte, IH. destruct (Z.odd c); [|reflexivity].
    apply xor_byte_interchange.
Qed.

Lemma gmul_xor_byte (c : Z) (a b : byte) :
  gmul c (xor_byte a b) = xor_byte (gmul c a) (gmul c b).
Proof. apply gmul_bits_xor_byte. Qed.

Lemma gmul_xor4 (c : Z) (w x y z : byte) :
  gmul c (xor4 w x y z) = xor4 (gmul c w) (gmul c x) (gmul c y) (gmul c z).
Proof.
  unfold xor4. rewrite !gmul_xor_byte. reflexivity.
Qed.

Lemma Z_of_byte_xor4 (w x y z : byte) :
  Z_of_byte (xor4 w x y z) =
  Z.lxor (Z.lxor (Z_of_byte w) (Z_of_byte x)) (Z.lxor (Z_of_byte y) (Z_of_byte z)).
Proof.
  unfold xor4, xor_byte. rewrite !Z_of_byte_xor. reflexivity.
Qed.

(** Sixteen terms summed by rows or by columns. *)
Lemma xor4_transpose (a1 b1 c1 d1 a2 b2 c2 d2 a3 b3 c3 d3 a4 b4 c4 d4 : byte) :
  xor4 (xor4 a1 b1 c1 d1) (xor4 a2 b2 c2 d2) (xor4 a3 b3 c3 d3) (xor4 a4 b4 c4 d4) =
  xor4 (xor4 a1 a2 a3 a4) (xor4 b1 b2 b3 b4) (xor4 c1 c2 c3 c4) (xor4 d1 d2 d3 d4).
Proof.
  apply Z_of_byte_inj. rewrite !Z_of_byte_xor4.
  apply Z.bits_inj'. intros n _. rewrite !Z.lxor_spec. btauto.
Qed.

Lemma xor4_unit (x : byte) :
  xor4 x zero zero zero = x /\ xor4 zero x zero zero = x /\
  xor4 zero zero x zero = x /\ xor4 zero zero zero x = x.
Proof.
  repeat split; apply byte_eqb_eq; revert x; apply forall_byte; vm_compute; reflexivity.
Qed.

(** The product of the two matrices, entry by entry, on one variable. *)
Lemma inv_mix_mix_entries (x : byte) :
  (xor4 (gmul 14 (gmul 2 x)) (gmul 11 x) (gmul 13 x) (gmul 9 (gmul 3 x)) = x /\
   xor4 (gmul 14 (gmul 3 x)) (gmul 11 (gmul 2 x)) (gmul 13 x) (gmul 9 x) = zero /\
   xor4 (gmul 14 x) (gmul 11 (gmul 3 x)) (gmul 13 (gmul 2 x)) (gmul 9 x) = zero /\
   xor4 (gmul 14 x) (gmul 11 x) (gmul 13 (gmul 3 x)) (gmul 9 (gmul 2 x)) = zero) /\
  (xor4 (gmul 9 (gmul 2 x)) (gmul 14 x) (gmul 11 x) (gmul 13 (gmul 3 x)) = zero /\
   xor4 (gmul 9 (gmul 3 x)) (gmul 14 (gmul 2 x)) (gmul 11 x) (gmul 13 x) = x /\
   xor4 (gmul 9 x) (gmul 14 (gmul 3 x)) (gmul 11 (gmul 2 x)) (gmul 13 x) = zero /\
   xor4 (gmul 9 x) (gmul 14 x) (gmul 11 (gmul 3 x)) (gmul 13 (gmul 2 x)) = zero) /\
  (xor4 (gmul 13 (gmul 2 x)) (gmul 9 x) (gmul 14 x) (gmul 11 (gmul 3 x)) = zero /\
   xor4 (gmul 13 (gmul 3 x)) (gmul 9 (gmul 2 x)) (gmul 14 x) (gmul 11 x) = zero /\
   xor4 (gmul 13 x) (gmul 9 (gmul 3 x)) (gmul 14 (gmul 2 x)) (gmul 11 x) = x /\
   xor4 (gmul 13 x) (gmul 9 x) (gmul 14 (gmul 3 x)) (gmul 11 (gmul 2 x)) = zero) /\
  (xor4 (gmul 11 (gmul 2 x)) (gmul 13 x) (gmul 9 x) (gmul 14 (gmul 3 x)) = zero /\
   xor4 (gmul 11 (gmul 3 x)) (gmul 13 (gmul 2 x)) (gmul 9 x) (gmul 14 x) = zero /\
   xor4 (gmul 11 x) (gmul 13 (gmul 3 x)) (gmul 9 (gmul 2 x)) (gmul 14 x) = zero /\
   xor4 (gmul 11 x) (gmul 13 x) (gmul 9 (gmul 3 x)) (gmul 14 (gmul 2 x)) = x).
Proof.
  repeat split; apply byte_eqb_eq; revert x; apply forall_byte; vm_compute; reflexivity.
Qed.

Lemma inv_mix_column_mix_column (a b c d : byte) :
  inv_mix_column (xor4 (gmul 2 a) (gmul 3 b) c d) (xor4 a (gmul 2 b) (gmul 3 c) d)
                 (xor4 a b (gmul 2 c) (gmul 3 d)) (xor4 (gmul 3 a) b c (gmul 2 d))
  = [a; b; c; d].
Proof.
  unfold inv_mix_column.
  destruct (inv_mix_mix_entries a) as ((A1&_&_&_)&(A2&_&_&_)&(A3&_&_&_)&(A4&_&_&_)).
  destruct (inv_mix_mix_entries b) as ((_&B1&_&_)&(_&B2&_&_)&(_&B3&_&_)&(_&B4&_&_)).
  destruct (inv_mix_mix_entries c) as ((_&_&C1&_)&(_&_&C2&_)&(_&_&C3&_)&(_&_&C4&_)).
  destruct (inv_mix_mix_entries d) as ((_&_&_&D1)&(_&_&_&D2)&(_&_&_&D3)&(_&_&_&D4)).
  destruct (xor4_unit a) as (Ua & _). destruct (xor4_unit b) as (_ & Ub & _).
  destruct (xor4_unit c) as (_ & _ & Uc & _). destruct (xor4_unit d) as (_ & _ & _ & Ud).
  repeat apply f_equal2; try reflexivity; rewrite !gmul_xor4, xor4_transpose.
  - rewrite A1, B1, C1, D1. exact Ua.
  - rewrite A2, B2, C2, D2. exact Ub.
  - rewrite A3, B3, C3, D3. exact Uc.
  - rewrite A4, B4, C4, D4. exact Ud.
Qed.

Lemma inv_mix_columns_mix_columns (st : bytes) :
  block16 st -> inv_mix_columns (mix_columns st) = st.
Proof.
  intros H. destruct (block16_inv st H) as (s0&s1&s2&s3&s4&s5&s6&s7&s8&s9&s10&s11&s12&s13&s14&s15&->).
  unfold mix_columns, inv_mix_columns, columns, mix_column. cbn [app].
  rewrite !inv_mix_column_mix_column. reflexivity.
Qed.

(** *** The cipher and its inverse *)

Lemma inv_rounds_rounds (rks : list bytes) (st : bytes) :
  block16 st -> inv_rounds rks (rounds rks st) = st.
Proof.
  revert st. induction rks as [|k rks IH]; intros st H; [reflexivity|].
  destruct rks as [|k' rks].
  - cbn [rounds inv_rounds].
    rewrite add_round_key_involutive, inv_shift_rows_shift_rows, inv_sub_bytes_sub_bytes;
      auto using block16_sub_bytes.
  - change (rounds (k :: k' :: rks) st)
      with (rounds (k' :: rks) (add_round_key k (mix_columns (shift_rows (sub_bytes st))))).
    change (inv_rounds (k :: k' :: rks) ?x)
      with (inv_sub_bytes (inv_shift_rows (inv_mix_columns
              (add_round_key k (inv_rounds (k' :: rks) x))))).
    rewrite IH by auto using block16_add_round_key, block16_mix_columns,
                              block16_shift_rows, block16_sub_bytes.
    rewrite add_round_key_involutive, inv_mix_columns_mix_columns,
      inv_shift_rows_shift_rows, inv_sub_bytes_sub_bytes;
      auto using block16_shift_rows, block16_sub_bytes.
Qed.

Lemma block16_rounds (rks : list bytes) (st : bytes) : block16 st -> block16 (rounds rks st).
Proof.
  revert st. induction rks as [|k rks IH]; intros st H; [exact H|].
  destruct rks as [|k' rks].
  - cbn [rounds]. auto using block16_add_round_key, block16_shift_rows, block16_sub_bytes.
  - change (rounds (k :: k' :: rks) st)
      with (rounds (k' :: rks) (add_round_key k (mix_columns (shift_rows (sub_bytes st))))).
    apply IH. auto using block16_add_round_key, block16_mix_columns,
                block16_shift_rows, block16_sub_bytes.
Qed.

Lemma aes_decrypt_encrypt (k block : bytes) :
  block16 block -> aes_decrypt k (aes_encrypt k block) = block.
Proof.
  intros H. unfold aes_decrypt, aes_encrypt, inv_cipher, cipher.
  destruct (round_keys k) as [|k0 rks]; [reflexivity|].
  rewrite inv_rounds_rounds by auto using block16_add_round_key.
  apply add_round_key_involutive.
Qed.

Lemma block16_aes_encrypt (k block : bytes) : block16 block -> block16 (aes_encrypt k block).
Proof.
  intros H. unfold aes_encrypt, cipher.
  destruct (round_keys k) as [|k0 rks]; [exact H|].
  auto using block16_rounds, block16_add_round_key.
Qed.

End FIPS_facts.

Lemma Standard_HashLaws : HashLaws Standard.
Proof.
  split; [exact FIPS_facts.length_sha1 | exact FIPS_facts.length_sha256].
Qed.

Lemma Standard_CipherLaws : CipherLaws Standard.
Proof.
  split; intros k b H; [apply FIPS_facts.block16_aes_encrypt | apply FIPS_facts.aes_decrypt_encrypt];
    exact H.
Qed.

(** ** The requests of a session *)

Lemma last_cons {A : Type} (l : list A) (a d : A) : last (a :: l) d = last l a.
Proof.
  revert a d. induction l as [|x l IH]; intros a d; [reflexivity|].
  change (last (a :: x :: l) d) with (last (x :: l) d).
  rewrite !IH. reflexivity.
Qed.

Section Requests.
Context {P : Primitives}.

Lemma spec_frames_with_seq (s : klapSession) (x : Z) (sqs : list Z) (payloads : list bytes) :
  spec_frames (with_seq s x) sqs payloads = spec_frames s sqs payloads.
Proof.
  revert payloads. induction sqs as [|sq sqs IH]; intros [|p payloads]; cbn [spec_frames];
    try reflexivity.
  rewrite IH. reflexivity.
Qed.

(** Whatever the peer answers, [request] sends the frame of the
    specification for the incremented counter and keeps the increment. *)
Lemma request_sends (s : klapSession) (payload : bytes) (d : device) :
  len (key s) = 16 -> len (ivSeq s) = 12 ->
  let sq := int32_of_Z (seq s + 1) in
  snd (fst (request s payload d)) = with_seq s sq /\
  snd (request s payload d) = [spec_frame s sq payload].
Proof.
  intros Hk Hiv sq. unfold request. rewrite (encrypt_spec_body s payload Hk Hiv). fold sq.
  change (request_request (with_seq s sq) (spec_body s sq payload) sq)
    with (spec_frame s sq payload).
  destruct (d (spec_frame s sq payload)) as [|code [body|]].
  - split; reflexivity.
  - destruct (negb (code =? http_StatusOK)); [split; reflexivity|].
    destruct (decrypt (with_seq s sq) body sq); split; reflexivity.
  - destruct (negb (code =? http_StatusOK)); split; reflexivity.
Qed.

Lemma requests_sends (calls : list (bytes * device)) (s : klapSession) :
  len (key s) = 16 -> len (ivSeq s) = 12 ->
  requests s calls =
  (with_seq s (last (seq_values (seq s) (length calls)) (seq s)),
   spec_frames s (seq_values (seq s) (length calls)) (map fst calls)).
Proof.
  revert s. induction calls as [|[payload d] calls IH]; intros s Hk Hiv.
  - destruct s; reflexivity.
  - cbn [requests].
    destruct (request_sends s payload d Hk Hiv) as [Hs Hsent].
    destruct (request s payload d) as [[r s1] sent]. cbn [fst snd] in Hs, Hsent. subst s1 sent.
    rewrite (IH (with_seq s (int32_of_Z (seq s + 1))) Hk Hiv).
    cbn [seq with_seq length seq_values map fst spec_frames app].
    rewrite spec_frames_with_seq, last_cons. reflexivity.
Qed.

End Requests.

Lemma seq_values_no_overflow (n : nat) (sq : Z) :
  is_int32 sq -> sq + Z.of_nat n <= MaxInt32 ->
  seq_values sq n = map (fun k => sq + Z.of_nat k) (List.seq 1 n).
Proof.
  revert sq. induction n as [|n IH]; intros sq Hsq Hn; [reflexivity|].
  unfold is_int32, MaxInt32 in *. cbn [seq_values List.seq map].
  rewrite int32_of_Z_small by (unfold is_int32; lia).
  rewrite IH by (unfold is_int32; lia).
  f_equal. rewrite <- (seq_shift n 1), map_map. apply map_ext. intros k. lia.
Qed.

Lemma seq_values_int32 (n : nat) (sq : Z) : Forall is_int32 (seq_values sq n).
Proof.
  revert sq. induction n as [|n IH]; intros sq; cbn [seq_values]; constructor.
  - apply int32_of_Z_range.
  - apply IH.
Qed.

Lemma increasing_from (n : nat) (sq : Z) (start : nat) :
  StronglySorted Z.lt (map (fun k => sq + Z.of_nat k) (List.seq start n)).
Proof.
  revert start. induction n as [|n IH]; intros start; cbn [List.seq map]; constructor.
  - apply IH.
  - apply Forall_forall. intros x Hx. apply in_map_iff in Hx.
    destruct Hx as (k & <- & Hk). apply in_seq in Hk. lia.
Qed.

(** ** Discovery *)

Section Discovery.
Context {J : Json}.

Lemma len_firstn_le16 (payload : bytes) :
  (len (firstn 2048 payload) <=? 16) = (len payload <=? 16).
Proof.
  unfold len. rewrite length_firstn.
  destruct (Z.of_nat (length payload) <=? 16) eqn:E.
  - apply Z.leb_le in E. apply Z.leb_le. lia.
  - apply Z.leb_gt in E. apply Z.leb_gt. lia.
Qed.

(** The loop body accepts what the datagram announces unless its ip was
    seen. *)
Lemma accept_datagram_announced (seen : list string) (payload : bytes) (addr : string) :
  accept_datagram seen payload addr =
  match announced payload addr with
  | None => None
  | Some dev => if seen_get seen (IP dev) then None else Some dev
  end.
Proof.
  unfold accept_datagram, announced. rewrite len_firstn_le16.
  destruct (len payload <=? 16); [reflexivity|].
  rewrite slice_to_len. change (Z.to_nat 16) with 16%nat.
  destruct (json_Unmarshal_discoveryResponse (skipn 16 (firstn 2048 payload))) as [resp|];
    [|reflexivity].
  destruct (discovery_ErrorCode resp =? 0); reflexivity.
Qed.

Lemma seen_get_In (seen : list string) (ip : string) :
  seen_get seen ip = true <-> In ip seen.
Proof.
  unfold seen_get. rewrite existsb_exists. split.
  - intros (x & Hx & E). apply String.eqb_eq in E. subst x. exact Hx.
  - intros H. exists ip. split; [exact H | apply String.eqb_refl].
Qed.

Lemma collected_step (devices : list DiscoveredDevice) (seen : list string)
  (payload : bytes) (addr : string) (dev : DiscoveredDevice) :
  collected devices seen -> accept_datagram seen payload addr = Some dev ->
  collected (devices ++ [dev]) (seen_set seen (IP dev)) /\ ~ In (IP dev) (map IP devices).
Proof.
  intros [Hnd Hseen] Ha. rewrite accept_datagram_announced in Ha.
  destruct (announced payload addr) as [dev'|]; [|discriminate].
  destruct (seen_get seen (IP dev')) eqn:E; [discriminate|]. injection Ha as ->.
  assert (Hnew : ~ In (IP dev) (map IP devices)).
  { intros Hin. apply Hseen in Hin. apply seen_get_In in Hin. congruence. }
  split; [|exact Hnew]. split.
  - rewrite map_app. cbn [map]. apply NoDup_app; [exact Hnd | repeat constructor; auto |].
    intros x Hx [<-|[]]. contradiction.
  - intros ip. unfold seen_set. rewrite map_app, in_app_iff. cbn [In map].
    rewrite Hseen. tauto.
Qed.

Lemma discover_loop_collected (turns : list turn) (devices : list DiscoveredDevice)
  (seen : list string) :
  collected devices seen ->
  NoDup (map IP (fst (discover_loop turns devices seen))) /\
  (forall dev, In dev devices -> In dev (fst (discover_loop turns devices seen))).
Proof.
  revert devices seen. induction turns as [|t turns IH]; intros devices seen Hc.
  - split; [apply Hc | auto].
  - destruct t; cbn [discover_loop fst]; try (split; [apply Hc | auto]).
    + apply IH. exact Hc.
    + destruct (accept_datagram seen payload addr) as [dev|] eqn:Ha.
      * destruct (collected_step _ _ _ _ _ Hc Ha) as [Hc' _].
        destruct (IH _ _ Hc') as [Hnd Hin]. split; [exact Hnd|].
        intros x Hx. apply Hin. apply in_or_app. left. exact Hx.
      * apply IH. exact Hc.
Qed.

(** A datagram that announces nothing changes nothing. *)
Lemma discover_loop_skip (pre post : list turn) (payload : bytes) (addr : string)
  (devices : list DiscoveredDevice) (seen : list string) :
  announced payload addr = None ->
  discover_loop (pre ++ Datagram payload addr :: post) devices seen =
  discover_loop (pre ++ post) devices seen.
Proof.
  intros Hn. revert devices seen. induction pre as [|t pre IH]; intros devices seen.
  - cbn [app discover_loop]. rewrite accept_datagram_announced, Hn. reflexivity.
  - cbn [app]. destruct t; cbn [discover_loop]; try reflexivity.
    + apply IH.
    + destruct (accept_datagram seen payload0 addr0); apply IH.
Qed.

(** Datagrams and read errors never end the loop with an error. *)
Lemma discover_loop_no_error (turns : list turn) (devices : list DiscoveredDevice)
  (seen : list string) :
  Forall keeps_reading turns -> snd (discover_loop turns devices seen) = None.
Proof.
  intros H. revert devices seen. induction H as [|t turns Ht _ IH]; intros devices seen;
    [reflexivity|].
  destruct t; cbn [keeps_reading] in Ht; try contradiction; cbn [discover_loop].
  - apply IH.
  - destruct (accept_datagram seen payload addr); apply IH.
Qed.

(** The first datagram that announces an ip puts its device in the list. *)
Lemma discover_loop_first (pre post : list turn) (payload : bytes) (addr : string)
  (dev : DiscoveredDevice) (devices : list DiscoveredDevice) (seen : list string) :
  collected devices seen -> Forall keeps_reading pre ->
  announced payload addr = Some dev ->
  ~ In (IP dev) (map IP devices) -> unannounced (IP dev) pre ->
  In dev (fst (discover_loop (pre ++ Datagram payload addr :: post) devices seen)).
Proof.
  intros Hc Hpre Ha. revert devices seen Hc.
  induction Hpre as [|t pre Ht _ IH]; intros devices seen Hc Hnew Hun.
  - cbn [app discover_loop]. rewrite accept_datagram_announced, Ha.
    assert (E : seen_get seen (IP dev) = false).
    { destruct (seen_get seen (IP dev)) eqn:E; [|reflexivity].
      apply seen_get_In in E. apply Hc in E. contradiction. }
    rewrite E.
    assert (Hc' : collected (devices ++ [dev]) (seen_set seen (IP dev))).
    { apply (collected_step devices seen payload addr dev Hc).
      rewrite accept_datagram_announced, Ha, E. reflexivity. }
    apply (discover_loop_collected post _ _ Hc'). apply in_or_app. right. left. reflexivity.
  - assert (Hun' : unannounced (IP dev) pre).
    { intros p a d' Hin. apply (Hun p a d'). right. exact Hin. }
    cbn [app]. destruct t; cbn [keeps_reading] in Ht; try contradiction; cbn [discover_loop].
    + apply IH; assumption.
    + destruct (accept_datagram seen payload0 addr0) as [dev0|] eqn:Ha0.
      * destruct (collected_step _ _ _ _ _ Hc Ha0) as [Hc' _].
        apply IH; [exact Hc' | | exact Hun'].
        rewrite map_app, in_app_iff. cbn [map In]. intros [Hin|[E|[]]]; [contradiction|].
        rewrite accept_datagram_announced in Ha0.
        destruct (announced payload0 addr0) as [dev0'|] eqn:Han; [|discriminate].
        destruct (seen_get seen (IP dev0')); [discriminate|]. injection Ha0 as ->.
        apply (Hun payload0 addr0 dev0); [left; reflexivity | exact Han | exact E].
      * apply IH; assumption.
Qed.

End Discovery.

(** ** The calendar *)

Lemma holds_from_spec (f : Z -> bool) (count : nat) (start : Z) :
  holds_from f start count = true ->
  forall z, start <= z < start + Z.of_nat count -> f z = true.
Proof.
  revert start. induction count as [|count IH]; intros start H z Hz; [lia|].
  cbn [holds_from] in H. apply andb_true_iff in H. destruct H as [H0 H1].
  destruct (Z.eq_dec z start) as [->|Hne]; [exact H0|].
  apply (IH (start + 1) H1). lia.
Qed.

Lemma civil_from_days_eq (z : Z) :
  civil_from_days z =
  let era := (z + 719468) / 146097 in
  let '(yoe, mp, d) := civil_of_doe ((z + 719468) mod 146097) in
  let m := month_of_mp mp in
  (if m <=? 2 then yoe + era * 400 + 1 else yoe + era * 400, m, d).
Proof. reflexivity. Qed.

Lemma days_from_civil_eq (era yoe mp d : Z) :
  0 <= yoe < 400 -> 0 <= mp < 12 ->
  let m := month_of_mp mp in
  days_from_civil (if m <=? 2 then yoe + era * 400 + 1 else yoe + era * 400) m d =
  era * 146097 + doe_of_civil yoe mp d - 719468.
Proof.
  intros Hy Hm m. unfold days_from_civil, doe_of_civil. subst m. unfold month_of_mp.
  destruct (mp <? 10) eqn:E10.
  - apply Z.ltb_lt in E10.
    assert (E2 : (mp + 3 <=? 2) = false) by (apply Z.leb_gt; lia). rewrite E2.
    replace ((mp + 3 + 9) mod 12) with mp by (Z.div_mod_to_equations; lia).
    Z.div_mod_to_equations. lia.
  - apply Z.ltb_ge in E10.
    assert (E2 : (mp - 9 <=? 2) = true) by (apply Z.leb_le; lia). rewrite E2.
    replace ((mp - 9 + 9) mod 12) with mp by (Z.div_mod_to_equations; lia).
    replace (yoe + era * 400 + 1 - 1) with (yoe + era * 400) by lia.
    Z.div_mod_to_equations. lia.
Qed.

Lemma doe_ok_all (doe : Z) : 0 <= doe < 146097 -> doe_ok doe = true.
Proof.
  intros H. apply (holds_from_spec doe_ok (Z.to_nat 146097) 0); [vm_compute; reflexivity | lia].
Qed.

Lemma first_ok_all (yoe mp : Z) :
  0 <= yoe < 400 -> 0 <= mp < 12 ->
  let doe := doe_of_civil yoe mp 1 in
  0 <= doe < 146097 /\ civil_of_doe doe = (yoe, mp, 1).
Proof.
  intros Hy Hm doe.
  assert (H : first_ok yoe = true).
  { apply (holds_from_spec first_ok (Z.to_nat 400) 0); [vm_compute; reflexivity | lia]. }
  unfold first_ok in H. pose proof (holds_from_spec _ _ _ H mp ltac:(lia)) as Hmp.
  cbv beta in Hmp. fold doe in Hmp.
  destruct (civil_of_doe doe) as [[yoe' mp'] d'].
  rewrite !andb_true_iff, !Z.eqb_eq, Z.leb_le, Z.ltb_lt in Hmp.
  destruct Hmp as ((H0 & H1) & (-> & ->) & ->).
  split; [lia | reflexivity].
Qed.

(** The civil date of a day count is a date of that day count. *)
Lemma days_from_civil_from_days (z : Z) :
  let '(y, m, d) := civil_from_days z in
  days_from_civil y m d = z /\ 1 <= m <= 12 /\ 1 <= d <= 31.
Proof.
  rewrite civil_from_days_eq. cbv zeta.
  pose proof (Z.mod_pos_bound (z + 719468) 146097 ltac:(lia)) as Hdoe.
  pose proof (doe_ok_all _ Hdoe) as Hok. unfold doe_ok in Hok.
  destruct (civil_of_doe ((z + 719468) mod 146097)) as [[yoe mp] d].
  rewrite !andb_true_iff, Z.eqb_eq, !Z.leb_le, !Z.ltb_lt in Hok.
  destruct Hok as ((((((Hy0 & Hy1) & Hm0) & Hm1) & Hd0) & Hd1) & Hback).
  split; [|split; [|lia]].
  - rewrite days_from_civil_eq by lia.
    pose proof (Z.div_mod (z + 719468) 146097 ltac:(lia)). lia.
  - unfold month_of_mp. destruct (mp <? 10) eqn:E; [apply Z.ltb_lt in E | apply Z.ltb_ge in E]; lia.
Qed.

(** The day count of the first of a month is a day of that date. *)
Lemma civil_from_days_first (y m : Z) :
  1 <= m <= 12 -> civil_from_days (days_from_civil y m 1) = (y, m, 1).
Proof.
  intros Hm.
  set (y' := if m <=? 2 then y - 1 else y).
  set (mp := (m + 9) mod 12).
  assert (Hmp : 0 <= mp < 12) by (subst mp; apply Z.mod_pos_bound; lia).
  assert (Hmonth : month_of_mp mp = m).
  { subst mp. unfold month_of_mp.
    destruct ((m + 9) mod 12 <? 10) eqn:E; [apply Z.ltb_lt in E | apply Z.ltb_ge in E];
      Z.div_mod_to_equations; lia. }
  pose proof (Z.mod_pos_bound y' 400 ltac:(lia)) as Hyoe.
  pose proof (Z.div_mod y' 400 ltac:(lia)) as Hy'.
  destruct (first_ok_all (y' mod 400) mp Hyoe Hmp) as [Hdoe Hciv].
  assert (Hd : days_from_civil y m 1 =
               (y' / 400) * 146097 + doe_of_civil (y' mod 400) mp 1 - 719468).
  { rewrite <- (days_from_civil_eq (y' / 400) (y' mod 400) mp 1 Hyoe Hmp).
    cbv zeta. rewrite Hmonth. f_equal. subst y'.
    destruct (m <=? 2); lia. }
  rewrite civil_from_days_eq, Hd. cbv zeta.
  replace (y' / 400 * 146097 + doe_of_civil (y' mod 400) mp 1 - 719468 + 719468)
    with (doe_of_civil (y' mod 400) mp 1 + (y' / 400) * 146097) by lia.
  rewrite Z.mod_add, Z.div_add by lia.
  rewrite (Z.mod_small _ _ Hdoe), (Z.div_small _ _ Hdoe), Hciv, Hmonth.
  subst y'. destruct (m <=? 2); f_equal; f_equal; lia.
Qed.

(** ** Instants and wall clocks *)

(** Where midnight of day [k] exists, the instant [time.Date] gives for it
    shows the date of [k] and the clock 00:00:00. *)
Lemma midnight_of_day (loc : Location) (k : Z) :
  midnight_exists loc k ->
  let t := at_zone loc (zone_adjust loc (k * secondsPerDay)) in
  Time_Date t = civil_from_days k /\ Time_Clock t = (0, 0, 0).
Proof.
  intros H t. unfold midnight_exists in H. unfold Time_Date, Time_Clock. subst t. rewrite H.
  rewrite Z.div_mul, Z.mod_mul by (unfold secondsPerDay; lia). split; reflexivity.
Qed.

(** [time.Date] of a midnight: the month, taken from 1 to 24, is normalised
    into the year. *)
Lemma time_Date_midnight (y month d : Z) (loc : Location) :
  1 <= month <= 24 ->
  let y' := if month <=? 12 then y else y + 1 in
  let m' := if month <=? 12 then month else month - 12 in
  time_Date y month d 0 0 0 loc =
  at_zone loc (zone_adjust loc ((days_from_civil y' m' 1 + (d - 1)) * secondsPerDay)).
Proof.
  intros Hm y' m'. unfold time_Date, at_zone. f_equal.
  assert (Hy : y + (month - 1) / 12 = y') by (subst y'; destruct (Z.leb_spec month 12);
    Z.div_mod_to_equations; lia).
  assert (Hmm : (month - 1) mod 12 + 1 = m') by (subst m'; destruct (Z.leb_spec month 12);
    Z.div_mod_to_equations; lia).
  rewrite Hy, Hmm. f_equal. lia.
Qed.

(** In a zone of fixed offset every midnight exists. *)
Lemma FixedZone_midnight_exists (offset k : Z) : midnight_exists (time_FixedZone offset) k.
Proof.
  unfold midnight_exists, wall, zone_adjust, offset_at, time_FixedZone.
  cbn [lookup location unixSec at_zone fst].
  destruct (offset =? 0) eqn:E.
  - apply Z.eqb_eq in E. lia.
  - destruct ((k * secondsPerDay - offset <? alpha) || (k * secondsPerDay - offset >=? omega));
      lia.
Qed.

Lemma days_from_civil_day (y m d : Z) :
  days_from_civil y m 1 + (d - 1) = days_from_civil y m d.
Proof. unfold days_from_civil. lia. Qed.

(** The three cases of [getStartEndTimestamps]. *)
Lemma getStartEndTimestamps_hourly (t : Time) :
  getStartEndTimestamps EnergyDataHourly t =
  (unixSec (time_Date (Time_Year t) (Time_Month t) (Time_Day t) 0 0 0 (location t)),
   unixSec (time_Date (Time_Year t) (Time_Month t) (Time_Day t) 0 0 0 (location t))
   + 24 * 3600).
Proof. reflexivity. Qed.

Lemma getStartEndTimestamps_daily (t : Time) :
  getStartEndTimestamps EnergyDataDaily t =
  (unixSec (time_Date (Time_Year t) (getQuarterStartMonth t) 1 0 0 0 (location t)),
   unixSec (Time_AddDate (time_Date (Time_Year t) (getQuarterStartMonth t) 1 0 0 0 (location t))
              0 3 0)).
Proof. reflexivity. Qed.

Lemma getStartEndTimestamps_monthly (t : Time) :
  getStartEndTimestamps EnergyDataMonthly t =
  (unixSec (time_Date (Time_Year t) 1 1 0 0 0 (location t)),
   unixSec (time_Date (Time_Year t + 1) 1 1 0 0 0 (location t))).
Proof. reflexivity. Qed.

Lemma at_zone_eta (t : Time) : at_zone (location t) (unixSec t) = t.
Proof. destruct t. reflexivity. Qed.

Lemma time_Date_location (y m d hh mm ss : Z) (loc : Location) :
  location (time_Date y m d hh mm ss loc) = loc.
Proof. reflexivity. Qed.

(** [GetEnergyData] hands [sendRequest] the timestamps of
    [getStartEndTimestamps] and the minutes its switch picks. *)
Lemma GetEnergyData_requests (interval : EnergyDataInterval) (t : Time) (minutes : Z) :
  intervalMinutes interval = Ok minutes ->
  requests_energy_data interval t
    (ParamsEnergyData (fst (getStartEndTimestamps interval t))
                      (snd (getStartEndTimestamps interval t)) minutes).
Proof.
  intros H P J R p d. unfold GetEnergyData. rewrite H.
  destruct (getStartEndTimestamps interval t) as [startTS endTS]. cbn [fst snd].
  destruct (sendRequest p "get_energy_data" (ParamsEnergyData startTS endTS minutes) d)
    as [[[result|err|m] p'] sent].
  - destruct (json_Unmarshal_EnergyData result); repeat split; reflexivity.
  - repeat split; reflexivity.
  - repeat split; reflexivity.
Qed.

(** The wall clock that shows 00:00:00 stands at a whole day. *)
Lemma clock_midnight (w : Z) :
  (let s := w mod secondsPerDay in (s / 3600, (s mod 3600) / 60, s mod 60)) = (0, 0, 0) ->
  w mod secondsPerDay = 0.
Proof.
  cbv zeta. unfold secondsPerDay. intros H. injection H as Hh Hm Hs.
  pose proof (Z.mod_pos_bound w 86400 ltac:(lia)).
  Z.div_mod_to_equations. lia.
Qed.

(** A midnight exists wherever no transition is within a day of it. *)
Lemma steady_midnight_exists (loc : Location) (k : Z) :
  steady loc (k * secondsPerDay) -> midnight_exists loc k.
Proof.
  intros (o & Ho & Hu). unfold midnight_exists, wall, zone_adjust.
  cbn [unixSec location at_zone].
  pose proof (Hu (k * secondsPerDay) ltac:(unfold secondsPerDay in *; lia)) as Ha.
  unfold offset_at in Ha |- *.
  destruct (lookup loc (k * secondsPerDay)) as [[o1 s1] e1] eqn:El. cbn [fst] in Ha. subst o1.
  destruct (o =? 0) eqn:E0.
  - apply Z.eqb_eq in E0. rewrite El. cbn [fst]. lia.
  - pose proof (Hu (k * secondsPerDay - o) ltac:(unfold secondsPerDay in *; lia)) as Hb.
    unfold offset_at in Hb.
    destruct ((k * secondsPerDay - o <? s1) || (k * secondsPerDay - o >=? e1));
      rewrite !Hb; lia.
Qed.

(** ** DiscoverFirstWithTimeout *)

Section DiscoverFirst.
Context {J : Json}.

(** The device the first-device loop builds is the announced one. *)
Lemma discover_first_loop_datagram (payload : bytes) (addr : string) (rest : list turn) :
  discover_first_loop (Datagram payload addr :: rest) =
  match announced payload addr with
  | Some dev => Returns dev
  | None => discover_first_loop rest
  end.
Proof.
  cbn [discover_first_loop]. unfold announced.
  rewrite len_firstn_le16.
  destruct (len payload <=? 16) eqn:E; [reflexivity|].
  assert (Hs : slice (firstn 2048 payload) 16 (len (firstn 2048 payload))
               = skipn 16 (firstn 2048 payload)).
  { unfold slice. change (Z.to_nat 16) with 16%nat.
    apply firstn_all2. rewrite length_skipn. unfold len. lia. }
  rewrite Hs.
  destruct (json_Unmarshal_discoveryResponse _) as [resp|]; [|reflexivity].
  destruct (discovery_ErrorCode resp =? 0); reflexivity.
Qed.

Lemma accept_datagram_nil (payload : bytes) (addr : string) :
  accept_datagram [] payload addr = announced payload addr.
Proof.
  rewrite accept_datagram_announced.
  destruct (announced payload addr) as [dev|]; reflexivity.
Qed.

(** A device already collected stays at the head of the list. *)
Lemma discover_loop_head (turns : list turn) (d : DiscoveredDevice)
  (ds : list DiscoveredDevice) (seen : list string) :
  exists tail, fst (discover_loop turns (d :: ds) seen) = d :: tail.
Proof.
  revert ds seen. induction turns as [|t turns IH]; intros ds seen.
  - exists ds. reflexivity.
  - destruct t; cbn [discover_loop fst]; try (exists ds; reflexivity).
    + apply IH.
    + destruct (accept_datagram seen payload addr) as [dev|]; [|apply IH].
      change ((d :: ds) ++ [dev]) with (d :: (ds ++ [dev])). apply IH.
Qed.

Lemma discover_first_loop_agrees (turns : list turn) :
  match discover_loop turns [] [] with
  | (d :: _, _) => discover_first_loop turns = Returns d
  | ([], Some e) => discover_first_loop turns = Fails (Of e)
  | ([], None) => discover_first_loop turns = Fails ErrNoDevicesFound
  end.
Proof.
  induction turns as [|t turns IH]; [reflexivity|].
  destruct t; try reflexivity.
  - exact IH.
  - rewrite discover_first_loop_datagram. cbn [discover_loop].
    rewrite accept_datagram_nil.
    destruct (announced payload addr) as [dev|]; [|exact IH].
    destruct (discover_loop_head turns dev [] (seen_set [] (IP dev))) as [tail Ht].
    change ([] ++ [dev]) with [dev].
    destruct (discover_loop turns [dev] (seen_set [] (IP dev))) as [ds e].
    cbn [fst] in Ht. subst ds. reflexivity.
Qed.

Lemma discover_first_loop_skip (pre post : list turn) :
  Forall passed_over pre ->
  discover_first_loop (pre ++ post) = discover_first_loop post.
Proof.
  induction 1 as [|t pre Ht _ IH]; [reflexivity|].
  destruct t; cbn [passed_over] in Ht; try contradiction.
  - exact IH.
  - change ((Datagram payload addr :: pre) ++ post)
      with (Datagram payload addr :: (pre ++ post)).
    rewrite discover_first_loop_datagram, Ht. exact IH.
Qed.

End DiscoverFirst.

(** ** The handshake and the exchange of one request *)

Section Exchange.
Context {P : Primitives}.

(** What a successful [handshake1] has seen. *)
Lemma handshake1_Ok (s : klapSession) (d : device) :
  fst (handshake1 s d) = Ok tt <->
  exists body, d (handshake1_request s) = Response 200 (Some body) /\ len body = 48 /\
               skipn 16 body = sha256_Sum256 (localSeed s ++ firstn 16 body ++ authHash s).
Proof.
  unfold handshake1.
  destruct (d (handshake1_request s)) as [|code [body|]] eqn:Hr.
  - split; [discriminate | intros (b & E & _); discriminate].
  - destruct (code =? http_StatusOK) eqn:Hc; cbn [negb].
    + apply Z.eqb_eq in Hc. unfold http_StatusOK in Hc. subst code.
      destruct (len body =? 48) eqn:Hl; cbn [negb].
      * apply Z.eqb_eq in Hl.
        rewrite slice_0. unfold slice, calculateServerHash, Sum, Write, sha256_New.
        cbn [written remoteSeed localSeed authHash with_remoteSeed app].
        change (Z.to_nat (48 - 16)) with 32%nat. change (Z.to_nat 16) with 16%nat.
        rewrite (firstn_all2 (n := 32) (skipn 16 body))
          by (rewrite length_skipn; unfold len in Hl; lia).
        rewrite <- app_assoc.
        destruct (bytes_Equal _ _) eqn:E; cbn [negb fst].
        -- apply bytes_Equal_eq in E. split; [|reflexivity].
           intros _. exists body. repeat split; assumption.
        -- split; [discriminate|]. intros (b & Eb & _ & Hh). injection Eb as <-.
           rewrite Hh, bytes_Equal_refl in E. discriminate.
      * split; [discriminate|]. intros (b & Eb & Hb & _). injection Eb as <-.
        apply Z.eqb_neq in Hl. contradiction.
    + split; [discriminate|]. intros (b & Eb & _). injection Eb as Ec _.
      rewrite Ec in Hc. discriminate.
  - destruct (negb (code =? http_StatusOK));
      (split; [discriminate | intros (b & E & _); discriminate]).
Qed.

(** A 48-byte reply leaves its first 16 bytes as the remote seed. *)
Lemma handshake1_session (s : klapSession) (d : device) (body : bytes) :
  d (handshake1_request s) = Response 200 (Some body) -> len body = 48 ->
  snd (handshake1 s d) = with_remoteSeed s (firstn 16 body).
Proof.
  intros Hr Hl. unfold handshake1. rewrite Hr.
  cbn [http_StatusOK Z.eqb Pos.eqb negb]. rewrite Hl. cbn [Z.eqb Pos.eqb negb].
  rewrite slice_0. change (Z.to_nat 16) with 16%nat.
  destruct (negb (bytes_Equal _ _)); reflexivity.
Qed.

Lemma handshake2_request_eq (s : klapSession) :
  handshake2_request s =
  {| req_url := (baseURL s ++ "/handshake2")%string;
     req_contentType := "application/octet-stream";
     req_body := sha256_Sum256 (remoteSeed s ++ localSeed s ++ authHash s) |}.
Proof.
  unfold handshake2_request, calculateClientHash, Sum, Write, sha256_New.
  cbn [written app]. rewrite <- app_assoc. reflexivity.
Qed.

Lemma handshake2_Ok (s : klapSession) (d : device) :
  handshake2 s d = Ok tt <-> exists b, d (handshake2_request s) = Response 200 b.
Proof.
  unfold handshake2. destruct (d (handshake2_request s)) as [|code b].
  - split; [discriminate | intros (b & E); discriminate].
  - destruct (code =? http_StatusOK) eqn:Hc; cbn [negb].
    + apply Z.eqb_eq in Hc. unfold http_StatusOK in Hc. subst code.
      split; [intros _; exists b; reflexivity | reflexivity].
    + split; [discriminate|]. intros (b' & E). injection E as Ec _.
      rewrite Ec in Hc. discriminate.
Qed.

(** [handshake] returns nil exactly when both steps do, and then the
    session holds the derived keys. *)
Lemma handshake_Ok (s s' : klapSession) (d1 d2 : device) :
  handshake s d1 d2 = (Ok tt, s') <->
  fst (handshake1 s d1) = Ok tt /\ handshake2 (snd (handshake1 s d1)) d2 = Ok tt /\
  s' = deriveKeys (snd (handshake1 s d1)).
Proof.
  unfold handshake. destruct (handshake1 s d1) as [[[]|e|m] s1]; cbn [fst snd].
  - destruct (handshake2 s1 d2) as [[]|e|m].
    + split.
      * intros E. injection E as <-. repeat split.
      * intros (_ & _ & ->). reflexivity.
    + split; [discriminate | intros (_ & E & _); discriminate].
    + split; [discriminate | intros (_ & E & _); discriminate].
  - split; [discriminate | intros (E & _); discriminate].
  - split; [discriminate | intros (E & _); discriminate].
Qed.

Lemma spec_body_with_seq (s : klapSession) (x sq : Z) (plaintext : bytes) :
  spec_body (with_seq s x) sq plaintext = spec_body s sq plaintext.
Proof. reflexivity. Qed.

(** [request] under a 16-byte key and a 12-byte [ivSeq]: the frame goes
    out, and the reply decides. *)
Lemma request_eq (s : klapSession) (payload : bytes) (d : device) :
  len (key s) = 16 -> len (ivSeq s) = 12 ->
  let sq := int32_of_Z (seq s + 1) in
  let frame := spec_frame s sq payload in
  request s payload d =
  (match d frame with
   | PostError => Err (ErrPost ErrTransport)
   | Response StatusCode Body =>
       if negb (StatusCode =? http_StatusOK)
       then Err (ErrRequestStatus StatusCode (match Body with Some b => b | None => [] end))
       else match Body with
            | None => Err (ErrReadBody ErrTransport)
            | Some body =>
                match decrypt (with_seq s sq) body sq with
                | Err e => Err (ErrDecryption e)
                | Panic m => Panic m
                | Ok plaintext => Ok plaintext
                end
            end
   end, with_seq s sq, [frame]).
Proof.
  intros Hk Hiv sq frame. unfold request. rewrite (encrypt_spec_body s payload Hk Hiv). fold sq.
  change (request_request (with_seq s sq) (spec_body s sq payload) sq) with frame.
  destruct (d frame) as [|code [body|]]; [reflexivity | |].
  - destruct (negb (code =? http_StatusOK)); [reflexivity|].
    destruct (decrypt (with_seq s sq) body sq); reflexivity.
  - destruct (negb (code =? http_StatusOK)); reflexivity.
Qed.

(** [Connect] returns a connection exactly when the session could be made
    and [handshake] returned nil. *)
Lemma Connect_Returns (c : Client) (addr : string) (jar : bool) (rnd : option bytes)
  (uuid : string) (d1 d2 : device) (p : P110) :
  Connect c addr jar rnd uuid d1 d2 = Returns p <->
  jar = true /\
  exists seed, rnd = Some seed /\
    handshake (newKlapSession addr (username c) (password c) seed) d1 d2
    = (Ok tt, session p) /\ ip p = addr /\ terminalUUID p = uuid.
Proof.
  unfold Connect, newKlapSession_in. destruct jar; cbn [negb].
  - destruct rnd as [seed|].
    + destruct (handshake _ d1 d2) as [[[]|e|m] s'] eqn:Hh.
      * split.
        -- intros E. injection E as <-. split; [reflexivity|]. exists seed.
           repeat split. exact Hh.
        -- intros (_ & seed' & Es & E & Hip & Hu). injection Es as <-.
           rewrite Hh in E. injection E as ->.
           destruct p as [pip ps pu]; cbn [ip session terminalUUID] in *; subst; reflexivity.
      * split; [discriminate|]. intros (_ & seed' & Es & E & _). injection Es as <-.
        rewrite Hh in E. discriminate.
      * split; [discriminate|]. intros (_ & seed' & Es & E & _). injection Es as <-.
        rewrite Hh in E. discriminate.
    + split; [discriminate | intros (_ & seed & E & _); discriminate].
  - split; [discriminate | intros (E & _); discriminate].
Qed.

End Exchange.

(** ** The commands *)

Section CommandLemmas.
Context {P : Primitives} {J : Json} {R : JsonResults}.

Lemma keyed_with_seq (s : klapSession) (x : Z) : keyed s -> keyed (with_seq s (int32_of_Z x)).
Proof.
  intros (Hk & Hiv & Hsig & _). repeat split; try assumption; apply int32_of_Z_range.
Qed.

Lemma sendRequest_one_step (p : P110) (method : string) (pr : params) (d : device) :
  keyed (session p) -> one_step p (sendRequest p method pr d).
Proof.
  intros Hkeyed. pose proof Hkeyed as (Hk & Hiv & _).
  unfold one_step, sendRequest. cbn [fst snd].
  destruct (json_Marshal method _) as [reqJSON|].
  - rewrite (request_eq (session p) reqJSON d Hk Hiv).
    set (sq := int32_of_Z (seq (session p) + 1)).
    set (r := match d _ with PostError => _ | Response _ _ => _ end).
    assert (Hgoal : forall A (x : A * P110 * list http_request),
              snd (fst x) = with_session p (with_seq (session p) sq) ->
              snd x = [spec_frame (session p) sq reqJSON] ->
              ((snd x = [] /\ snd (fst x) = p) \/
               (exists reqJSON0, snd x = [spec_frame (session p) sq reqJSON0] /\
                                 snd (fst x) = with_session p (with_seq (session p) sq))) /\
              keyed (session (snd (fst x)))).
    { intros A x Hp Hs. split.
      - right. exists reqJSON. split; assumption.
      - rewrite Hp. cbn [session with_session]. apply keyed_with_seq. exact Hkeyed. }
    destruct r as [respJSON|e|m]; [|apply Hgoal; reflexivity..].
    destruct (json_Unmarshal_klapResponse respJSON) as [resp|]; [|apply Hgoal; reflexivity].
    destruct (negb (ErrorCode resp =? 0)); apply Hgoal; reflexivity.
  - cbn [fst snd]. split; [left; split; reflexivity | exact Hkeyed].
Qed.

(** A command that passes on what [sendRequest] left behind steps as it
    did. *)
Lemma one_step_same {A B : Type} (p : P110) (r : A * P110 * list http_request)
  (r' : B * P110 * list http_request) :
  snd (fst r') = snd (fst r) -> snd r' = snd r -> one_step p r -> one_step p r'.
Proof.
  unfold one_step. intros -> ->. exact (fun H => H).
Qed.

End CommandLemmas.

(** ** The arithmetic of the reports *)

Module MainFacts.
Import Main.

Lemma int_of_Z_range (z : Z) : is_int (int_of_Z z).
Proof.
  unfold is_int, int_of_Z. pose proof (Z.mod_pos_bound (z + 2 ^ 63) (2 ^ 64) ltac:(lia)). lia.
Qed.

Lemma int_of_Z_small (z : Z) : is_int z -> int_of_Z z = z.
Proof.
  unfold is_int, int_of_Z. intros H. rewrite Z.mod_small by lia. lia.
Qed.

Lemma int_of_Z_add_l (a b : Z) : int_of_Z (int_of_Z a + b) = int_of_Z (a + b).
Proof.
  unfold int_of_Z.
  replace ((a + 2 ^ 63) mod 2 ^ 64 - 2 ^ 63 + b + 2 ^ 63)
    with ((a + 2 ^ 63) mod 2 ^ 64 + b) by lia.
  rewrite Zplus_mod_idemp_l. f_equal. f_equal. lia.
Qed.

Lemma int_of_Z_add_r (a b : Z) : int_of_Z (a + int_of_Z b) = int_of_Z (a + b).
Proof. rewrite (Z.add_comm a), int_of_Z_add_l. f_equal. lia. Qed.

Lemma sum_from (data : list Z) (acc : Z) :
  fold_left (fun total v => int_of_Z (total + v)) data (int_of_Z acc)
  = int_of_Z (acc + total_of data).
Proof.
  revert acc. induction data as [|v data IH]; intros acc.
  - cbn [fold_left total_of fold_right]. f_equal. lia.
  - cbn [fold_left total_of fold_right]. rewrite int_of_Z_add_l, IH. f_equal.
    unfold total_of. lia.
Qed.

Lemma sum_total_of (data : list Z) : sum data = int_of_Z (total_of data).
Proof.
  unfold sum. change 0 with (int_of_Z 0) at 1. rewrite sum_from. reflexivity.
Qed.

Lemma total_of_app (a b : list Z) : total_of (a ++ b) = total_of a + total_of b.
Proof.
  unfold total_of. induction a as [|x a IH]; [reflexivity|].
  cbn [app fold_right]. rewrite IH. lia.
Qed.

(** *** maxVal *)

Lemma at_app_l (pre post : list Z) (j : Z) :
  0 <= j < len pre -> at_ (pre ++ post) j = at_ pre j.
Proof.
  intros H. unfold at_. apply app_nth1. unfold len in H. lia.
Qed.

Lemma at_app_len (pre : list Z) (v : Z) (post : list Z) :
  at_ (pre ++ v :: post) (len pre) = v.
Proof.
  unfold at_, len. rewrite Nat2Z.id. rewrite app_nth2 by lia.
  rewrite Nat.sub_diag. reflexivity.
Qed.

Lemma maxVal_loop_spec (rest pre : list Z) (max maxIdx : Z) :
  max_so_far pre max maxIdx ->
  max_so_far (pre ++ rest) (fst (maxVal_loop rest (len pre) max maxIdx))
                           (snd (maxVal_loop rest (len pre) max maxIdx)).
Proof.
  revert pre max maxIdx. induction rest as [|v rest IH]; intros pre max maxIdx Hinv.
  - rewrite app_nil_r. exact Hinv.
  - cbn [maxVal_loop].
    assert (Hlen : len pre + 1 = len (pre ++ [v])).
    { unfold len. rewrite length_app. cbn [length]. lia. }
    rewrite Hlen.
    replace (pre ++ v :: rest) with ((pre ++ [v]) ++ rest) by (rewrite <- app_assoc; reflexivity).
    destruct Hinv as (H0 & Hall & Hz & Hpos).
    pose proof (len_nonneg pre) as Hnn.
    destruct (v >? max) eqn:E.
    + apply Z.gtb_lt in E. apply IH. split; [lia|]. split; [|split].
      * apply Forall_app. split.
        -- eapply Forall_impl; [|exact Hall]. cbv beta. intros a Ha. lia.
        -- constructor; [lia | constructor].
      * intros ->. lia.
      * intros _. split; [lia|]. split; [apply at_app_len|].
        intros j Hj. rewrite at_app_l by lia.
        rewrite Forall_forall in Hall.
        assert (Hin : In (at_ pre j) pre).
        { unfold at_. apply nth_In. unfold len in Hj. lia. }
        specialize (Hall _ Hin). cbv beta in Hall. lia.
    + rewrite Z.gtb_ltb in E. apply Z.ltb_ge in E.
      apply IH. split; [lia|]. split; [|split].
      * apply Forall_app. split; [exact Hall|]. constructor; [lia | constructor].
      * exact Hz.
      * intros Hm. destruct (Hpos Hm) as (Hi & Hat & Hbefore).
        split; [lia|]. split.
        -- rewrite at_app_l by lia. exact Hat.
        -- intros j Hj. rewrite at_app_l by lia. apply Hbefore. exact Hj.
Qed.

End MainFacts.

Module WeekFacts.
Import Main.

(** The padding loop counts from [j] up to 7. *)
Lemma for_loop_count {A : Type} (fuel : nat) (j : Z) (body : Z -> A) :
  0 <= 7 - j <= Z.of_nat fuel ->
  len (for_loop fuel j (fun j => j <? 7) body) = 7 - j.
Proof.
  revert j. induction fuel as [|fuel IH]; intros j Hj.
  - unfold len. cbn [for_loop length]. lia.
  - cbn [for_loop]. destruct (j <? 7) eqn:E.
    + apply Z.ltb_lt in E. unfold len in *. cbn [length]. rewrite Nat2Z.inj_succ, IH by lia. lia.
    + apply Z.ltb_ge in E. unfold len. cbn [length]. lia.
Qed.

Lemma weeks_loop_rows (fuel : nat) (data : list Z) (i w : Z) :
  0 <= i ->
  weeks_loop fuel data (len data) i w
  = rows_from w (chunks7 fuel (skipn (Z.to_nat i) data)).
Proof.
  revert i w. induction fuel as [|fuel IH]; intros i w Hi; [reflexivity|].
  cbn [weeks_loop chunks7].
  destruct (i <? len data) eqn:E.
  - apply Z.ltb_lt in E.
    assert (Hlen : length (skipn (Z.to_nat i) data) = (length data - Z.to_nat i)%nat)
      by apply length_skipn.
    destruct (skipn (Z.to_nat i) data) as [|x rest] eqn:Es.
    { cbn [length] in Hlen. unfold len in E. lia. }
    rewrite <- Es. cbn [rows_from].
    assert (Hsub : sub data i (if i + 7 >? len data then len data else i + 7)
                   = firstn 7 (skipn (Z.to_nat i) data)).
    { unfold sub. destruct (i + 7 >? len data) eqn:E7.
      - rewrite Z.gtb_ltb in E7. apply Z.ltb_lt in E7.
        rewrite !firstn_all2; try reflexivity; rewrite length_skipn; unfold len in *; lia.
      - replace (Z.to_nat (i + 7 - i)) with 7%nat by lia. reflexivity. }
    rewrite Hsub.
    assert (Hl7 : 1 <= len (firstn 7 (skipn (Z.to_nat i) data)) <= 7).
    { unfold len. rewrite length_firstn, length_skipn. unfold len in E. lia. }
    rewrite for_loop_count by (change (Z.of_nat 7) with 7; lia).
    rewrite IH by lia.
    replace (Z.to_nat (i + 7)) with (7 + Z.to_nat i)%nat by lia.
    rewrite <- skipn_skipn. reflexivity.
  - apply Z.ltb_ge in E. rewrite skipn_all2 by (unfold len in E; lia). reflexivity.
Qed.

Lemma concat_chunks7 (fuel : nat) (data : list Z) :
  (length data <= fuel)%nat -> concat (chunks7 fuel data) = data.
Proof.
  revert data. induction fuel as [|fuel IH]; intros data Hf.
  - destruct data; [reflexivity | cbn in Hf; lia].
  - cbn [chunks7]. destruct data as [|x data]; [reflexivity|].
    cbn [concat]. rewrite IH; [apply firstn_skipn|].
    rewrite length_skipn. cbn [length] in *. lia.
Qed.

Lemma map_weekData_rows_from (w : Z) (pieces : list (list Z)) :
  map weekData (rows_from w pieces) = pieces.
Proof.
  revert w. induction pieces as [|c rest IH]; intros w; [reflexivity|].
  cbn [rows_from map weekData]. rewrite IH. reflexivity.
Qed.

Lemma map_week_rows_from (w : Z) (pieces : list (list Z)) :
  map week (rows_from w pieces)
  = map (fun k => w + Z.of_nat k) (List.seq 0 (length pieces)).
Proof.
  revert w. induction pieces as [|c rest IH]; intros w; [reflexivity|].
  cbn [rows_from map week length List.seq]. rewrite IH. f_equal; [lia|].
  rewrite <- seq_shift, map_map. apply map_ext. intros k. lia.
Qed.

Lemma length_rows_from (w : Z) (pieces : list (list Z)) :
  length (rows_from w pieces) = length pieces.
Proof.
  revert w. induction pieces as [|c rest IH]; intros w; [reflexivity|].
  cbn [rows_from length]. rewrite IH. reflexivity.
Qed.

(** The pieces: their number, their sizes, and that only the last can be
    short. *)
Lemma chunks7_count (fuel : nat) (data : list Z) :
  (length data <= fuel)%nat -> len (chunks7 fuel data) = (len data + 6) / 7.
Proof.
  revert data. induction fuel as [|fuel IH]; intros data Hf.
  - destruct data; [reflexivity | cbn in Hf; lia].
  - cbn [chunks7]. destruct data as [|x data]; [reflexivity|].
    unfold len in *. cbn [length]. rewrite Nat2Z.inj_succ, IH
      by (rewrite length_skipn; cbn [length] in *; lia).
    rewrite length_skipn. cbn [length].
    destruct (Nat.le_gt_cases (S (length data)) 7) as [Hle|Hgt].
    + replace (Z.of_nat (S (length data) - 7)) with 0 by lia.
      Z.div_mod_to_equations. lia.
    + replace (Z.of_nat (S (length data) - 7)) with (Z.of_nat (S (length data)) - 7) by lia.
      Z.div_mod_to_equations. lia.
Qed.

Lemma chunks7_sizes (fuel : nat) (data : list Z) :
  Forall (fun c => 1 <= len c <= 7) (chunks7 fuel data).
Proof.
  revert data. induction fuel as [|fuel IH]; intros data; [constructor|].
  cbn [chunks7]. destruct data as [|x data]; [constructor|].
  constructor; [|apply IH].
  unfold len. rewrite length_firstn. cbn [length]. lia.
Qed.

Lemma chunks7_full (fuel : nat) (data : list Z) (k : nat) :
  (S k < length (chunks7 fuel data))%nat -> len (nth k (chunks7 fuel data) []) = 7.
Proof.
  revert data k. induction fuel as [|fuel IH]; intros data k Hk; [cbn in Hk; lia|].
  cbn [chunks7] in *. destruct data as [|x data]; [cbn in Hk; lia|].
  cbn [length] in Hk. destruct k as [|k].
  - cbn [nth]. unfold len. rewrite length_firstn.
    destruct fuel as [|fuel]; [cbn in Hk; lia|].
    cbn [chunks7] in Hk. destruct (skipn 7 (x :: data)) eqn:Es; [cbn in Hk; lia|].
    assert (Hl : length (skipn 7 (x :: data)) = (length (x :: data) - 7)%nat)
      by apply length_skipn.
    rewrite Es in Hl. cbn [length] in Hl. cbn [length]. lia.
  - cbn [nth]. apply IH. lia.
Qed.

Lemma nth_rows_from (w : Z) (pieces : list (list Z)) (k : nat) (d : WeekRow) :
  (k < length pieces)%nat -> weekData (nth k (rows_from w pieces) d) = nth k pieces [].
Proof.
  revert w k. induction pieces as [|c rest IH]; intros w k Hk; [cbn in Hk; lia|].
  destruct k as [|k]; [reflexivity|]. cbn [rows_from nth]. apply IH. cbn in Hk. lia.
Qed.

Lemma rows_from_each (w : Z) (pieces : list (list Z)) :
  Forall (fun c => 1 <= len c <= 7) pieces ->
  Forall (fun row => 1 <= len (weekData row) <= 7 /\
                     dashes row = 7 - len (weekData row) /\
                     weekTotal row = sum (weekData row)) (rows_from w pieces).
Proof.
  intros H. revert w. induction H as [|c rest Hc _ IH]; intros w; [constructor|].
  cbn [rows_from]. constructor; [|apply IH]. cbn [weekData dashes weekTotal]. auto.
Qed.

Lemma total_of_week_totals (w : Z) (pieces : list (list Z)) :
  int_of_Z (total_of (map weekTotal (rows_from w pieces)))
  = int_of_Z (total_of (concat pieces)).
Proof.
  revert w. induction pieces as [|c rest IH]; intros w; [reflexivity|].
  cbn [rows_from map weekTotal concat]. rewrite MainFacts.total_of_app.
  change (total_of (sum c :: map weekTotal (rows_from (w + 1) rest)))
    with (sum c + total_of (map weekTotal (rows_from (w + 1) rest))).
  rewrite <- MainFacts.int_of_Z_add_r, IH, MainFacts.int_of_Z_add_r.
  rewrite MainFacts.sum_total_of, MainFacts.int_of_Z_add_l. reflexivity.
Qed.

End WeekFacts.

Module BarFacts.
Import Main.

Lemma at_nat (data : list Z) (j : nat) : at_ data (Z.of_nat j) = nth j data 0.
Proof. unfold at_. rewrite Nat2Z.id. reflexivity. Qed.

(** The scale: not below the start value, not below any value it looked
    at, and one of them. *)
Lemma bars_max_spec (data : list Z) (n : Z) (fuel : nat) (i m : Z) :
  0 <= i -> n - i <= Z.of_nat fuel ->
  let M := bars_max fuel data n i m in
  m <= M /\ (forall j, i <= j < n -> at_ data j <= M) /\
  (M = m \/ exists j, i <= j < n /\ M = at_ data j).
Proof.
  revert i m. induction fuel as [|fuel IH]; intros i m Hi Hf M.
  - subst M. cbn [bars_max]. split; [lia|]. split; [intros j Hj; lia | left; reflexivity].
  - subst M. cbn [bars_max]. destruct (i <? n) eqn:E.
    + apply Z.ltb_lt in E.
      destruct (IH (i + 1) (if at_ data i >? m then at_ data i else m) ltac:(lia) ltac:(lia))
        as (Hm & Hall & Hone).
      set (M := bars_max fuel data n (i + 1) _) in *.
      assert (Hstep : m <= (if at_ data i >? m then at_ data i else m)
                      /\ at_ data i <= (if at_ data i >? m then at_ data i else m)).
      { destruct (at_ data i >? m) eqn:Eg; [apply Z.gtb_lt in Eg; lia|].
        rewrite Z.gtb_ltb in Eg. apply Z.ltb_ge in Eg. lia. }
      split; [lia|]. split.
      * intros j Hj. destruct (Z.eq_dec j i) as [->|Hne]; [lia | apply Hall; lia].
      * destruct Hone as [Hone|(j & Hj & Hone)].
        -- destruct (at_ data i >? m); [right; exists i; split; [lia | exact Hone]
                                       | left; exact Hone].
        -- right. exists j. split; [lia | exact Hone].
    + apply Z.ltb_ge in E. split; [lia|]. split; [intros j Hj; lia | left; reflexivity].
Qed.

Lemma repeat_full_ok (count : Z) :
  0 <= count <= 30 -> strings_Repeat_panics "█" count = None.
Proof.
  intros H. unfold strings_Repeat_panics.
  destruct (count <? 0) eqn:E; [apply Z.ltb_lt in E; lia|].
  change (Z.of_nat (String.length "█")) with 3.
  destruct (3 * count >? MaxInt) eqn:E2; [|reflexivity].
  apply Z.gtb_lt in E2. unfold MaxInt in E2. lia.
Qed.

Lemma repeat_light_ok (count : Z) :
  0 <= count <= 30 -> strings_Repeat_panics "░" count = None.
Proof.
  intros H. unfold strings_Repeat_panics.
  destruct (count <? 0) eqn:E; [apply Z.ltb_lt in E; lia|].
  change (Z.of_nat (String.length "░")) with 3.
  destruct (3 * count >? MaxInt) eqn:E2; [|reflexivity].
  apply Z.gtb_lt in E2. unfold MaxInt in E2. lia.
Qed.

(** The lines of [m] months whose values lie between 0 and the scale. *)
Lemma bars_loop_prefix (data : list Z) (n max : Z) (m fuel : nat) (i : nat) :
  1 <= max ->
  (forall j, (i <= j < i + m)%nat ->
     Z.of_nat j < n /\ 0 <= nth j data 0 <= max /\ nth j data 0 <= MaxInt / 30) ->
  bars_loop (m + fuel) data n (Z.of_nat i) max
  = (map (bar_of data max) (List.seq i m)
       ++ fst (bars_loop fuel data n (Z.of_nat (i + m)) max),
     snd (bars_loop fuel data n (Z.of_nat (i + m)) max)).
Proof.
  intros Hmax. revert i. induction m as [|m IH]; intros i Hall.
  - cbn [Nat.add List.seq map app]. rewrite Nat.add_0_r.
    destruct (bars_loop fuel data n (Z.of_nat i) max). reflexivity.
  - cbn [Nat.add bars_loop].
    destruct (Hall i ltac:(lia)) as (Hn & Hv & Hb).
    assert (E : (Z.of_nat i <? n) = true) by (apply Z.ltb_lt; lia). rewrite E.
    assert (Eg : (max >? 0) = true) by (apply Z.gtb_lt; lia). rewrite Eg.
    rewrite at_nat.
    assert (Hb30 : 0 <= nth i data 0 * 30 <= MaxInt).
    { unfold MaxInt in *. Z.div_mod_to_equations. lia. }
    rewrite MainFacts.int_of_Z_small by (unfold is_int, MaxInt in *; lia).
    rewrite Z.quot_div_nonneg by lia.
    assert (Hq : 0 <= nth i data 0 * 30 / max <= 30).
    { split; [apply Z.div_pos; lia|].
      apply Z.div_le_upper_bound; lia. }
    rewrite repeat_full_ok by exact Hq.
    rewrite MainFacts.int_of_Z_small by (unfold is_int; lia).
    rewrite repeat_light_ok by lia.
    replace (Z.of_nat i + 1) with (Z.of_nat (S i)) by lia.
    rewrite (IH (S i)) by (intros j Hj; apply Hall; lia).
    replace (S i + m)%nat with (i + S m)%nat by lia.
    rewrite Nat2Z.id. cbn [List.seq map app fst snd]. reflexivity.
Qed.

Lemma bars_loop_done (data : list Z) (n max : Z) (fuel : nat) (i : Z) :
  n <= i -> bars_loop fuel data n i max = ([], None).
Proof.
  intros H. destruct fuel as [|fuel]; [reflexivity|]. cbn [bars_loop].
  assert (E : (i <? n) = false) by (apply Z.ltb_ge; lia). rewrite E. reflexivity.
Qed.

(** A month whose value is negative, and at least a thirtieth of the scale
    in size, makes [strings.Repeat] panic. *)
Lemma bars_loop_negative (data : list Z) (n max : Z) (fuel : nat) (i : nat) :
  1 <= max -> Z.of_nat i < n ->
  - (MaxInt / 30) <= nth i data 0 -> nth i data 0 * 30 <= - max ->
  bars_loop (S fuel) data n (Z.of_nat i) max
  = ([], Some "strings: negative Repeat count"%string).
Proof.
  intros Hmax Hn Hlow Hneg. cbn [bars_loop].
  assert (E : (Z.of_nat i <? n) = true) by (apply Z.ltb_lt; lia). rewrite E.
  assert (Eg : (max >? 0) = true) by (apply Z.gtb_lt; lia). rewrite Eg.
  rewrite at_nat.
  assert (Hb30 : - MaxInt <= nth i data 0 * 30 <= 0).
  { unfold MaxInt in *. Z.div_mod_to_equations. lia. }
  rewrite MainFacts.int_of_Z_small by (unfold is_int, MaxInt in *; lia).
  assert (Hq : Z.quot (nth i data 0 * 30) max < 0).
  { replace (nth i data 0 * 30) with (- (- (nth i data 0 * 30))) by lia.
    rewrite Z.quot_opp_l by lia. rewrite Z.quot_div_nonneg by lia.
    assert (1 <= - (nth i data 0 * 30) / max); [|lia].
    apply Z.div_le_lower_bound; lia. }
  unfold strings_Repeat_panics at 1.
  apply Z.ltb_lt in Hq. rewrite Hq. reflexivity.
Qed.

Lemma Forall_firstn_nth (Q : Z -> Prop) (data : list Z) (k : nat) :
  Forall Q (firstn k data) <-> forall j, (j < k)%nat -> (j < length data)%nat -> Q (nth j data 0).
Proof.
  revert data. induction k as [|k IH]; intros data.
  - cbn [firstn]. split; [intros _ j Hj; lia | intros _; constructor].
  - destruct data as [|x data].
    + cbn [firstn length]. split; [intros _ j _ Hj; lia | intros _; constructor].
    + cbn [firstn]. split.
      * intros H j Hj Hl. inversion H as [|? ? Hx Hrest]; subst.
        destruct j as [|j]; [exact Hx|]. cbn [nth]. apply IH; [exact Hrest | lia |].
        cbn [length] in Hl. lia.
      * intros H. constructor.
        -- apply (H 0%nat); cbn [length]; lia.
        -- apply IH. intros j Hj Hl. apply (H (S j)); cbn [length]; lia.
Qed.

Lemma map_nth_seq (data : list Z) (k : nat) :
  (k <= length data)%nat -> map (fun j => nth j data 0) (List.seq 0 k) = firstn k data.
Proof.
  revert data. induction k as [|k IH]; intros data Hk; [reflexivity|].
  destruct data as [|x data]; [cbn in Hk; lia|].
  cbn [List.seq map firstn nth]. f_equal.
  rewrite <- seq_shift, map_map. cbn [nth]. apply IH. cbn in Hk. lia.
Qed.

Lemma map_nth_seq_string (l : list string) (k : nat) :
  (k <= length l)%nat -> map (fun j => nth j l ""%string) (List.seq 0 k) = firstn k l.
Proof.
  revert l. induction k as [|k IH]; intros l Hk; [reflexivity|].
  destruct l as [|x l]; [cbn in Hk; lia|].
  cbn [List.seq map firstn nth]. f_equal.
  rewrite <- seq_shift, map_map. cbn [nth]. apply IH. cbn in Hk. lia.
Qed.

End BarFacts.

Module BarReport.
Import Main.

(** The number of months shown, and the scale, of a report. *)
Lemma printMonthlyBars_eq (data : list Z) :
  let k := Nat.min 12 (length data) in
  let max := bars_max 12 data (Z.of_nat k) 0 1 in
  printMonthlyBars data =
  match snd (bars_loop 12 data (Z.of_nat k) 0 max) with
  | Some m => {| bars := fst (bars_loop 12 data (Z.of_nat k) 0 max);
                 bars_panic := Some m; year_total := None |}
  | None => {| bars := fst (bars_loop 12 data (Z.of_nat k) 0 max);
               bars_panic := None; year_total := Some (sum (firstn 12 data)) |}
  end.
Proof.
  intros k max. unfold printMonthlyBars.
  assert (Hn : (if len data >? 12 then 12 else len data) = Z.of_nat k).
  { subst k. unfold len. destruct (Z.of_nat (length data) >? 12) eqn:E.
    - apply Z.gtb_lt in E. lia.
    - rewrite Z.gtb_ltb in E. apply Z.ltb_ge in E. lia. }
  rewrite Hn. fold max.
  destruct (bars_loop 12 data (Z.of_nat k) 0 max) as [lines [m|]]; cbn [fst snd];
    [reflexivity|].
  f_equal. f_equal. f_equal. unfold sub. cbn [skipn Z.to_nat].
  rewrite Z.sub_0_r, Nat2Z.id. subst k.
  destruct (Nat.le_gt_cases 12 (length data)) as [H|H].
  - rewrite Nat.min_l by lia. reflexivity.
  - rewrite Nat.min_r by lia. rewrite !firstn_all2 by lia. reflexivity.
Qed.

Lemma scale_spec (data : list Z) :
  let k := Nat.min 12 (length data) in
  let max := bars_max 12 data (Z.of_nat k) 0 1 in
  1 <= max /\ Forall (fun v => v <= max) (firstn 12 data) /\
  (max = 1 \/ In max (firstn 12 data)).
Proof.
  intros k max.
  destruct (BarFacts.bars_max_spec data (Z.of_nat k) 12 0 1 ltac:(lia) ltac:(subst k; lia))
    as (H1 & Hall & Hone).
  fold max in H1, Hall, Hone.
  split; [exact H1|]. split.
  - apply BarFacts.Forall_firstn_nth. intros j Hj Hl.
    rewrite <- BarFacts.at_nat. apply Hall. subst k. lia.
  - destruct Hone as [Hone|(j & Hj & Hone)]; [left; exact Hone|]. right.
    rewrite Hone. unfold at_.
    assert (Hjk : (Z.to_nat j < k)%nat) by lia.
    assert (Hin : In (nth (Z.to_nat j) (firstn 12 data) 0) (firstn 12 data)).
    { apply nth_In. rewrite length_firstn. subst k. lia. }
    rewrite nth_firstn in Hin.
    assert (Hlt : (Z.to_nat j <? 12)%nat = true) by (apply Nat.ltb_lt; subst k; lia).
    rewrite Hlt in Hin. exact Hin.
Qed.

End BarReport.

Module HistoryFacts.
Import Main.

Lemma skipn_cons_nth (data : list Z) (k : nat) :
  (k < length data)%nat -> skipn k data = nth k data 0 :: skipn (S k) data.
Proof.
  revert data. induction k as [|k IHk]; intros data Hn.
  - destruct data; [cbn in Hn; lia | reflexivity].
  - destruct data; [cbn in Hn; lia|]. cbn [skipn nth]. apply IHk. cbn in Hn. lia.
Qed.

(** A counting loop over the indices below [hi] that the data has. *)
Lemma for_loop_sub (data : list Z) (hi : Z) (fuel : nat) (i : Z) :
  0 <= i -> hi - i <= Z.of_nat fuel ->
  for_loop fuel i (fun i => (i <? hi) && (i <? len data)) (fun i => at_ data i)
  = firstn (Z.to_nat (hi - i)) (skipn (Z.to_nat i) data).
Proof.
  revert i. induction fuel as [|fuel IH]; intros i Hi Hf.
  - cbn [for_loop]. replace (Z.to_nat (hi - i)) with 0%nat by lia. reflexivity.
  - cbn [for_loop]. destruct (i <? hi) eqn:E1; cbn [andb].
    + apply Z.ltb_lt in E1. destruct (i <? len data) eqn:E2.
      * apply Z.ltb_lt in E2. rewrite IH by lia.
        replace (Z.to_nat (hi - i)) with (S (Z.to_nat (hi - (i + 1)))) by lia.
        replace (Z.to_nat (i + 1)) with (S (Z.to_nat i)) by lia.
        assert (Hs : skipn (Z.to_nat i) data = at_ data i :: skipn (S (Z.to_nat i)) data).
        { unfold at_. apply skipn_cons_nth. unfold len in E2. lia. }
        rewrite Hs. reflexivity.
      * apply Z.ltb_ge in E2. rewrite skipn_all2 by (unfold len in E2; lia).
        rewrite firstn_nil. reflexivity.
    + apply Z.ltb_ge in E1. replace (Z.to_nat (hi - i)) with 0%nat by lia. reflexivity.
Qed.

Lemma for_loop_hours (hi : Z) (fuel : nat) (i : Z) :
  hi - i = Z.of_nat fuel ->
  for_loop fuel i (fun i => i <? hi) (fun i => i)
  = map (fun k => i + Z.of_nat k) (List.seq 0 fuel).
Proof.
  revert i. induction fuel as [|fuel IH]; intros i Hf; [reflexivity|].
  cbn [for_loop List.seq map].
  assert (E : (i <? hi) = true) by (apply Z.ltb_lt; lia). rewrite E.
  rewrite IH by lia. f_equal; [lia|].
  rewrite <- seq_shift, map_map. apply map_ext. intros k. lia.
Qed.

(** *** The readings *)

Lemma readings_fold (rs : list Reading.t) (total lo hi : Z) :
  let '(total', lo', hi') := fold_left readings_step rs (int_of_Z total, lo, hi) in
  total' = int_of_Z (total + total_of (map Reading.PowerMW rs)) /\
  lo' <= lo /\ hi <= hi' /\
  Forall (fun r => lo' <= Reading.PowerMW r <= hi') rs /\
  (lo' = lo \/ In lo' (map Reading.PowerMW rs)) /\
  (hi' = hi \/ In hi' (map Reading.PowerMW rs)).
Proof.
  revert total lo hi. induction rs as [|r rs IH]; intros total lo hi.
  - cbn [fold_left map total_of fold_right]. rewrite Z.add_0_r.
    repeat split; try lia; try constructor; left; reflexivity.
  - cbn [fold_left readings_step]. rewrite MainFacts.int_of_Z_add_l.
    set (lo1 := if Reading.PowerMW r <? lo then Reading.PowerMW r else lo).
    set (hi1 := if Reading.PowerMW r >? hi then Reading.PowerMW r else hi).
    specialize (IH (total + Reading.PowerMW r) lo1 hi1).
    destruct (fold_left readings_step rs _) as [[total' lo'] hi'].
    destruct IH as (Ht & Hlo & Hhi & Hall & Hmin & Hmax).
    assert (Hlo1 : lo1 <= lo /\ lo1 <= Reading.PowerMW r
                   /\ (lo1 = lo \/ lo1 = Reading.PowerMW r)).
    { subst lo1. destruct (Reading.PowerMW r <? lo) eqn:E;
        [apply Z.ltb_lt in E | apply Z.ltb_ge in E]; lia. }
    assert (Hhi1 : hi <= hi1 /\ Reading.PowerMW r <= hi1
                   /\ (hi1 = hi \/ hi1 = Reading.PowerMW r)).
    { subst hi1. destruct (Reading.PowerMW r >? hi) eqn:E;
        [apply Z.gtb_lt in E | rewrite Z.gtb_ltb in E; apply Z.ltb_ge in E]; lia. }
    cbn [map]. split.
    { rewrite Ht. f_equal. unfold total_of. cbn [fold_right]. lia. }
    split; [lia|]. split; [lia|]. split; [constructor; [lia | exact Hall]|].
    cbn [In]. split.
    + destruct Hmin as [Hmin|Hmin]; [|right; right; exact Hmin].
      destruct Hlo1 as (_ & _ & [E|E]); [left; lia | right; left; lia].
    + destruct Hmax as [Hmax|Hmax]; [|right; right; exact Hmax].
      destruct Hhi1 as (_ & _ & [E|E]); [left; lia | right; left; lia].
Qed.

(** *** The array of hours *)

Lemma length_set_at (l : list Z) (i v : Z) :
  0 <= i < len l -> length (set_at l i v) = length l.
Proof.
  intros H. unfold set_at, len in *.
  rewrite length_app, length_firstn. cbn [length]. rewrite length_skipn. lia.
Qed.

Lemma at_set_at (l : list Z) (i v j : Z) :
  0 <= i < len l -> 0 <= j ->
  at_ (set_at l i v) j = if j =? i then v else at_ l j.
Proof.
  intros Hi Hj. unfold set_at, at_, len in *.
  assert (Hf : length (firstn (Z.to_nat i) l) = Z.to_nat i)
    by (rewrite length_firstn; lia).
  destruct (j =? i) eqn:E.
  - apply Z.eqb_eq in E. subst j.
    rewrite app_nth2 by lia. rewrite Hf, Nat.sub_diag. reflexivity.
  - apply Z.eqb_neq in E. destruct (Z_lt_ge_dec j i) as [Hlt|Hge].
    + rewrite app_nth1 by lia. rewrite nth_firstn.
      assert (Hb : (Z.to_nat j <? Z.to_nat i)%nat = true) by (apply Nat.ltb_lt; lia).
      rewrite Hb. reflexivity.
    + rewrite app_nth2 by lia. rewrite Hf.
      replace (Z.to_nat j - Z.to_nat i)%nat with (S (Z.to_nat j - Z.to_nat i - 1)) by lia.
      cbn [nth]. rewrite nth_skipn. f_equal. lia.
Qed.

Lemma hourly_fold (rs : list HourlyRecord.t) (arr : list Z) (h : Z) :
  length arr = 24%nat -> 0 <= h < 24 ->
  let out := fold_left
               (fun hourlyData r =>
                  if (HourlyRecord.Hour r >=? 0) && (HourlyRecord.Hour r <? 24)
                  then set_at hourlyData (HourlyRecord.Hour r) (HourlyRecord.EnergyWh r)
                  else hourlyData) rs arr in
  length out = 24%nat /\
  at_ out h = hd (at_ arr h)
                 (map HourlyRecord.EnergyWh
                      (filter (fun r => HourlyRecord.Hour r =? h) (rev rs))).
Proof.
  revert arr. induction rs as [|r rs IH]; intros arr Hl Hh out.
  - subst out. split; [exact Hl | reflexivity].
  - subst out. cbn [fold_left].
    set (arr' := if (HourlyRecord.Hour r >=? 0) && (HourlyRecord.Hour r <? 24)
                 then set_at arr (HourlyRecord.Hour r) (HourlyRecord.EnergyWh r) else arr).
    assert (Harr : length arr' = 24%nat /\
                   at_ arr' h = if HourlyRecord.Hour r =? h then HourlyRecord.EnergyWh r
                                else at_ arr h).
    { subst arr'. destruct (HourlyRecord.Hour r >=? 0) eqn:E0; cbn [andb].
      - destruct (HourlyRecord.Hour r <? 24) eqn:E1.
        + rewrite Z.geb_leb in E0. apply Z.leb_le in E0. apply Z.ltb_lt in E1.
          rewrite length_set_at by (unfold len; lia).
          split; [exact Hl|]. rewrite at_set_at by (unfold len; lia).
          rewrite Z.eqb_sym. reflexivity.
        + apply Z.ltb_ge in E1. split; [exact Hl|].
          destruct (HourlyRecord.Hour r =? h) eqn:E; [|reflexivity].
          apply Z.eqb_eq in E. lia.
      - split; [exact Hl|]. rewrite Z.geb_leb in E0. apply Z.leb_gt in E0.
        assert (En : (HourlyRecord.Hour r =? h) = false) by (apply Z.eqb_neq; lia).
        rewrite En. reflexivity. }
    destruct Harr as (Hl' & Hat).
    destruct (IH arr' Hl' Hh) as (Hlen & Hout). split; [exact Hlen|].
    rewrite Hout, Hat. cbn [rev]. rewrite filter_app, map_app. cbn [filter].
    destruct (filter _ (rev rs)) as [|x xs]; cbn [map app hd]; [|reflexivity].
    destruct (HourlyRecord.Hour r =? h); reflexivity.
Qed.

End HistoryFacts.

(** ** The windows among themselves *)

Lemma civil_from_days_era (z e : Z) :
  civil_from_days (z + 146097 * e) =
  let '(y, m, d) := civil_from_days z in (y + 400 * e, m, d).
Proof.
  rewrite !civil_from_days_eq. cbv zeta.
  replace (z + 146097 * e + 719468) with (z + 719468 + e * 146097) by lia.
  rewrite Z.mod_add, Z.div_add by lia.
  destruct (civil_of_doe ((z + 719468) mod 146097)) as [[yoe mp] d].
  destruct (month_of_mp mp <=? 2); f_equal; f_equal; lia.
Qed.

Lemma days_from_civil_era (y m d e : Z) :
  days_from_civil (y + 400 * e) m d = days_from_civil y m d + 146097 * e.
Proof.
  unfold days_from_civil. destruct (m <=? 2).
  - replace (y + 400 * e - 1) with (y - 1 + 400 * e) by lia.
    Z.div_mod_to_equations. lia.
  - Z.div_mod_to_equations. lia.
Qed.

Lemma next_month_ok_all (doe : Z) : 0 <= doe < 146097 -> next_month_ok doe = true.
Proof.
  intros H.
  apply (holds_from_spec next_month_ok (Z.to_nat 146097) 0); [vm_compute; reflexivity | lia].
Qed.

(** A day comes before the first of the month after its own. *)
Lemma before_next_month (z : Z) :
  let '(y, m, d) := civil_from_days z in
  z < days_from_civil (fst (next_month y m)) (snd (next_month y m)) 1.
Proof.
  pose proof (Z.mod_pos_bound (z + 719468) 146097 ltac:(lia)) as Hdoe.
  pose proof (Z.div_mod (z + 719468) 146097 ltac:(lia)) as Hz.
  set (doe := (z + 719468) mod 146097) in *. set (e := (z + 719468) / 146097) in *.
  pose proof (next_month_ok_all doe Hdoe) as Hok. unfold next_month_ok in Hok.
  replace z with (doe - 719468 + 146097 * e) by lia.
  rewrite civil_from_days_era.
  destruct (civil_from_days (doe - 719468)) as [[y m] d].
  unfold next_month in *. destruct (m =? 12); cbn [fst snd] in *.
  - apply Z.ltb_lt in Hok.
    replace (y + 400 * e + 1) with (y + 1 + 400 * e) by lia.
    rewrite days_from_civil_era. lia.
  - apply Z.ltb_lt in Hok. rewrite days_from_civil_era. lia.
Qed.

(** Evaluate the closed comparisons, sums, remainders and quotients of the
    goal. *)
Ltac is_numeral v :=
  lazymatch v with
  | Z0 => idtac
  | Zpos _ => idtac
  | Zneg _ => idtac
  | true => idtac
  | false => idtac
  end.

Ltac fold_constants :=
  repeat match goal with
  | |- context [?a =? ?b] =>
      let v := eval vm_compute in (a =? b) in is_numeral v; change (a =? b) with v
  | |- context [?a <=? ?b] =>
      let v := eval vm_compute in (a <=? b) in is_numeral v; change (a <=? b) with v
  | |- context [?a + ?b] =>
      is_numeral a; is_numeral b;
      let v := eval vm_compute in (a + b) in change (a + b) with v
  | |- context [?a * ?b] =>
      is_numeral a; is_numeral b;
      let v := eval vm_compute in (a * b) in change (a * b) with v
  | |- context [?a mod ?b] =>
      is_numeral a; is_numeral b;
      let v := eval vm_compute in (a mod b) in change (a mod b) with v
  | |- context [?a / ?b] =>
      is_numeral a; is_numeral b;
      let v := eval vm_compute in (a / b) in change (a / b) with v
  end; cbv iota.

(** The first of a month comes before the first of the next. *)
Lemma first_before_next (y m : Z) :
  1 <= m <= 12 ->
  days_from_civil y m 1
  < days_from_civil (fst (next_month y m)) (snd (next_month y m)) 1.
Proof.
  intros Hm. unfold next_month.
  assert (H : m = 1 \/ m = 2 \/ m = 3 \/ m = 4 \/ m = 5 \/ m = 6 \/ m = 7 \/ m = 8
              \/ m = 9 \/ m = 10 \/ m = 11 \/ m = 12) by lia.
  unfold days_from_civil.
  repeat (destruct H as [->|H]); try subst m; fold_constants; cbn [fst snd]; fold_constants;
    try replace (y + 1 - 1) with y by lia; Z.div_mod_to_equations; lia.
Qed.

(** The firsts of the months of a year, in order. *)
Lemma firsts_increase (y m m' : Z) :
  1 <= m -> m <= m' -> m' <= 12 ->
  days_from_civil y m 1 <= days_from_civil y m' 1
  /\ days_from_civil y m' 1 < days_from_civil (y + 1) 1 1.
Proof.
  intros H1 H2 H3.
  assert (Hup : forall k : nat, forall a, 1 <= a -> a + Z.of_nat k <= 12 ->
            days_from_civil y a 1 <= days_from_civil y (a + Z.of_nat k) 1).
  { induction k as [|k IH]; intros a Ha Hk.
    - rewrite Z.add_0_r. lia.
    - pose proof (first_before_next y a ltac:(lia)) as Hs. unfold next_month in Hs.
      assert (E : (a =? 12) = false) by (apply Z.eqb_neq; lia). rewrite E in Hs.
      cbn [fst snd] in Hs.
      specialize (IH (a + 1) ltac:(lia) ltac:(lia)).
      replace (a + Z.of_nat (S k)) with (a + 1 + Z.of_nat k) by lia. lia. }
  split.
  - specialize (Hup (Z.to_nat (m' - m)) m H1 ltac:(lia)).
    replace (m + Z.of_nat (Z.to_nat (m' - m))) with m' in Hup by lia. exact Hup.
  - specialize (Hup (Z.to_nat (12 - m')) m' ltac:(lia) ltac:(lia)).
    replace (m' + Z.of_nat (Z.to_nat (12 - m'))) with 12 in Hup by lia.
    pose proof (first_before_next y 12 ltac:(lia)) as Hs. cbn in Hs. lia.
Qed.

(** In a zone of fixed offset [time.Date] subtracts the offset. *)
Lemma zone_adjust_fixed (offset unix : Z) :
  zone_adjust (time_FixedZone offset) unix = unix - offset.
Proof.
  unfold zone_adjust, offset_at, time_FixedZone. cbn [lookup fst].
  destruct (offset =? 0) eqn:E.
  - apply Z.eqb_eq in E. lia.
  - destruct ((unix - offset <? alpha) || (unix - offset >=? omega)); reflexivity.
Qed.

(** The three windows as day counts, where the midnights exist: the day of
    the reference time and the next; the first of the quarter and of the
    quarter after it; the first of the year and of the next. *)
Lemma windows_as_days (t : Time) :
  (forall k, midnight_exists (location t) k) ->
  let n := wall t / secondsPerDay in
  let mid k := zone_adjust (location t) (k * secondsPerDay) in
  let Y := Time_Year t in
  let M := Time_Month t in
  let Q := 3 * ((M - 1) / 3) + 1 in
  civil_from_days n = (Y, M, Time_Day t) /\ 1 <= M <= 12 /\
  getStartEndTimestamps EnergyDataHourly t = (mid n, mid n + 24 * 3600) /\
  getStartEndTimestamps EnergyDataDaily t
  = (mid (days_from_civil Y Q 1),
     mid (days_from_civil (if Q =? 10 then Y + 1 else Y) (if Q =? 10 then 1 else Q + 3) 1)) /\
  getStartEndTimestamps EnergyDataMonthly t
  = (mid (days_from_civil Y 1 1), mid (days_from_civil (Y + 1) 1 1)).
Proof.
  intros Hexists n mid Y M Q.
  pose proof (days_from_civil_from_days n) as Hday.
  assert (HYMD : civil_from_days n = (Y, M, Time_Day t)).
  { subst Y M n. unfold Time_Year, Time_Month, Time_Day, Time_Date.
    destruct (civil_from_days (wall t / secondsPerDay)) as [[y m] d]. reflexivity. }
  rewrite HYMD in Hday. destruct Hday as (Hn & HM & HD).
  assert (Hfirst : forall y m, 1 <= m <= 12 ->
            time_Date y m 1 0 0 0 (location t)
            = at_zone (location t) (mid (days_from_civil y m 1))).
  { intros y m Hm. rewrite (time_Date_midnight y m 1 (location t)) by lia.
    assert (E : (m <=? 12) = true) by (apply Z.leb_le; lia). rewrite E.
    rewrite Z.add_0_r. reflexivity. }
  split; [exact HYMD|]. split; [exact HM|]. split; [|split].
  - rewrite getStartEndTimestamps_hourly. fold Y M.
    rewrite (time_Date_midnight Y M (Time_Day t) (location t)) by lia.
    assert (E : (M <=? 12) = true) by (apply Z.leb_le; lia). rewrite E.
    rewrite days_from_civil_day, Hn. reflexivity.
  - assert (HQ : getQuarterStartMonth t = Q).
    { unfold getQuarterStartMonth. fold M. rewrite Z.quot_div_nonneg by lia. reflexivity. }
    rewrite getStartEndTimestamps_daily. fold Y. rewrite HQ.
    assert (HQin : Q = 1 \/ Q = 4 \/ Q = 7 \/ Q = 10).
    { subst Q. Z.div_mod_to_equations. lia. }
    rewrite (Hfirst Y Q) by lia.
    remember (mid (days_from_civil Y Q 1)) as start eqn:Es.
    assert (Hmid : Time_Date (at_zone (location t) start) = (Y, Q, 1)
                   /\ Time_Clock (at_zone (location t) start) = (0, 0, 0)).
    { rewrite Es. subst mid. cbv beta.
      destruct (midnight_of_day (location t) (days_from_civil Y Q 1) (Hexists _)) as [Hd Hc].
      rewrite Hd, Hc, civil_from_days_first by lia. split; reflexivity. }
    destruct Hmid as [Hd Hc].
    assert (Hend : Time_AddDate (at_zone (location t) start) 0 3 0
                   = time_Date Y (Q + 3) 1 0 0 0 (location t)).
    { unfold Time_AddDate, Time_Location. rewrite Hd, Hc. cbv iota beta.
      rewrite !Z.add_0_r. reflexivity. }
    rewrite Hend. cbn [unixSec at_zone].
    rewrite (time_Date_midnight Y (Q + 3) 1 (location t)) by lia.
    cbn [unixSec at_zone]. rewrite Z.add_0_r.
    destruct HQin as [E|[E|[E|E]]]; rewrite E; reflexivity.
  - rewrite getStartEndTimestamps_monthly. fold Y.
    rewrite !Hfirst by lia. reflexivity.
Qed.

(** The lengths of the quarters and of the year, in days. *)
Lemma quarter_length (y q : Z) :
  q = 1 \/ q = 4 \/ q = 7 \/ q = 10 ->
  days_from_civil (if q =? 10 then y + 1 else y) (if q =? 10 then 1 else q + 3) 1
  - days_from_civil y q 1 = days_in_quarter y q.
Proof.
  intros Hq. unfold days_in_quarter, is_leap, days_from_civil.
  destruct Hq as [-> | [-> | [-> | ->]]]; fold_constants;
    try replace (y + 1 - 1) with y by lia;
    try (Z.div_mod_to_equations; lia).
  destruct (y mod 4 =? 0) eqn:E4; destruct (y mod 100 =? 0) eqn:E100;
    destruct (y mod 400 =? 0) eqn:E400; cbn [andb orb negb];
    rewrite ?Z.eqb_eq, ?Z.eqb_neq in *; Z.div_mod_to_equations; lia.
Qed.

Lemma year_length (y : Z) :
  days_from_civil (y + 1) 1 1 - days_from_civil y 1 1 = days_in_year y.
Proof.
  unfold days_in_year, is_leap, days_from_civil. fold_constants.
  replace (y + 1 - 1) with y by lia.
  destruct (y mod 4 =? 0) eqn:E4; destruct (y mod 100 =? 0) eqn:E100;
    destruct (y mod 400 =? 0) eqn:E400; cbn [andb orb negb];
    rewrite ?Z.eqb_eq, ?Z.eqb_neq in *; Z.div_mod_to_equations; lia.
Qed.

(** ** Padding to other block sizes, and the IVs of a session *)

Lemma pkcs7Pad_padding_any (data : bytes) (blockSize : Z) :
  1 <= blockSize ->
  let padding := blockSize - Z.rem (len data) blockSize in
  1 <= padding <= blockSize /\ (len data + padding) mod blockSize = 0.
Proof.
  intros Hb padding. subst padding. pose proof (len_nonneg data) as Hl.
  rewrite Z.rem_mod_nonneg by lia.
  pose proof (Z.mod_pos_bound (len data) blockSize ltac:(lia)) as Hm.
  split; [lia|].
  replace (len data + (blockSize - len data mod blockSize))
    with (len data - len data mod blockSize + 1 * blockSize) by lia.
  rewrite Z.mod_add by lia.
  rewrite (Z.div_mod (len data) blockSize) at 1 by lia.
  replace (blockSize * (len data / blockSize) + len data mod blockSize
           - len data mod blockSize)
    with ((len data / blockSize) * blockSize) by lia.
  apply Z.mod_mul. lia.
Qed.

Lemma pkcs7Pad_len_any (data : bytes) (blockSize : Z) :
  1 <= blockSize ->
  len (pkcs7Pad data blockSize) = len data + (blockSize - Z.rem (len data) blockSize).
Proof.
  intros Hb. unfold pkcs7Pad, bytes_Repeat. rewrite len_app.
  pose proof (pkcs7Pad_padding_any data blockSize Hb) as [Hp _].
  unfold len at 2. rewrite repeat_length. lia.
Qed.

(** The last byte of a padded string is the padding count as a byte. *)
Lemma pkcs7Pad_last (data : bytes) (blockSize : Z) :
  1 <= blockSize ->
  padding_of (pkcs7Pad data blockSize)
  = (blockSize - Z.rem (len data) blockSize) mod 256.
Proof.
  intros Hb. pose proof (pkcs7Pad_padding_any data blockSize Hb) as [Hp _].
  pose proof (pkcs7Pad_len_any data blockSize Hb) as Hlen.
  set (padding := blockSize - Z.rem (len data) blockSize) in *.
  unfold padding_of, index. rewrite Hlen. unfold pkcs7Pad, bytes_Repeat. fold padding.
  rewrite app_nth2 by (unfold len; lia).
  rewrite nth_repeat_lt by (unfold len; lia).
  apply Z_of_byte_of_Z.
Qed.

Lemma pkcs7Unpad_pkcs7Pad_any (data : bytes) (blockSize : Z) :
  1 <= blockSize <= 255 -> pkcs7Unpad (pkcs7Pad data blockSize) = Ok data.
Proof.
  intros Hb.
  pose proof (pkcs7Pad_padding_any data blockSize ltac:(lia)) as [Hp _].
  pose proof (pkcs7Pad_len_any data blockSize ltac:(lia)) as Hlen.
  pose proof (pkcs7Pad_last data blockSize ltac:(lia)) as Hlast.
  set (padding := blockSize - Z.rem (len data) blockSize) in *.
  set (padded := pkcs7Pad data blockSize) in *.
  rewrite Z.mod_small in Hlast by lia.
  assert (Hpad : padded = data ++ repeat (byte_of_Z padding) (Z.to_nat padding)) by reflexivity.
  destruct (pkcs7Unpad_cases padded) as [[He _]|[(_ & Hbad & _)|(_ & _ & _ & Hok)]].
  - rewrite Hpad in He. apply app_eq_nil in He. destruct He as [_ He].
    destruct (Z.to_nat padding) eqn:E; [lia | discriminate].
  - exfalso. rewrite Hlast in Hbad. pose proof (len_nonneg data) as Hd.
    destruct Hbad as [H0|[Hlt|Hnt]]; try lia.
    apply Hnt. unfold tail_is. rewrite slice_to_len, Hlen.
    replace (len data + padding - padding) with (len data) by lia.
    rewrite Hpad. unfold len. rewrite Nat2Z.id.
    rewrite skipn_app, skipn_all, Nat.sub_diag. reflexivity.
  - rewrite Hok, Hlast, Hlen, slice_0.
    replace (len data + padding - padding) with (len data) by lia.
    rewrite Hpad. unfold len. rewrite Nat2Z.id.
    rewrite firstn_app, firstn_all, Nat.sub_diag. simpl. rewrite app_nil_r. reflexivity.
Qed.

Lemma int32_of_Z_add (a b : Z) : int32_of_Z (int32_of_Z a + b) = int32_of_Z (a + b).
Proof.
  unfold int32_of_Z.
  replace ((a + 2 ^ 31) mod 2 ^ 32 - 2 ^ 31 + b + 2 ^ 31)
    with ((a + 2 ^ 31) mod 2 ^ 32 + b) by lia.
  rewrite Zplus_mod_idemp_l. f_equal. f_equal. lia.
Qed.

(** The sequence values in closed form. *)
Lemma seq_values_closed (n : nat) (sq : Z) :
  seq_values sq n = map (fun k => int32_of_Z (sq + Z.of_nat k)) (List.seq 1 n).
Proof.
  revert sq. induction n as [|n IH]; intros sq; [reflexivity|].
  cbn [seq_values List.seq map]. rewrite IH. f_equal.
  rewrite <- (seq_shift n 1), map_map. apply map_ext. intros k.
  rewrite int32_of_Z_add. f_equal. lia.
Qed.

Lemma int32_of_Z_inj (a b : Z) :
  int32_of_Z a = int32_of_Z b -> - 2 ^ 32 < a - b < 2 ^ 32 -> a = b.
Proof.
  unfold int32_of_Z. intros E H.
  assert (Em : (a + 2 ^ 31) mod 2 ^ 32 = (b + 2 ^ 31) mod 2 ^ 32) by lia.
  pose proof (Z.div_mod (a + 2 ^ 31) (2 ^ 32) ltac:(lia)) as Ha.
  pose proof (Z.div_mod (b + 2 ^ 31) (2 ^ 32) ltac:(lia)) as Hb.
  assert (Hq : 2 ^ 32 * ((a + 2 ^ 31) / 2 ^ 32 - (b + 2 ^ 31) / 2 ^ 32) = a - b) by lia.
  assert (Hz : (a + 2 ^ 31) / 2 ^ 32 - (b + 2 ^ 31) / 2 ^ 32 = 0) by nia.
  lia.
Qed.

Lemma ivSeq_with_seq (s : klapSession) (x : Z) : ivSeq (with_seq s x) = ivSeq s.
Proof. reflexivity. Qed.

(** ** One poll *)

Module PollFacts.
Import Main.

Lemma store_positive_entries (data : list Z) (i : Z) (call : Z -> Z -> StoreCall) :
  store_positive data i call
  = map (fun e => call (fst e) (snd e)) (positive_entries data i).
Proof.
  revert i. induction data as [|wh rest IH]; intros i; [reflexivity|].
  cbn [store_positive positive_entries]. rewrite Z.gtb_ltb.
  destruct (0 <? wh); cbn [app map fst snd]; rewrite IH; reflexivity.
Qed.

Lemma positive_entries_spec (data : list Z) (i k wh : Z) :
  In (k, wh) (positive_entries data i) <->
  i <= k < i + len data /\ at_ data (k - i) = wh /\ 0 < wh.
Proof.
  revert i. induction data as [|v rest IH]; intros i.
  - cbn [positive_entries In]. change (len []) with 0. split; [contradiction | lia].
  - cbn [positive_entries].
    assert (Hlen : len (v :: rest) = len rest + 1)
      by (unfold len; cbn [length]; lia).
    assert (Hrest : In (k, wh) (positive_entries rest (i + 1)) <->
                    i + 1 <= k < i + len (v :: rest)
                    /\ at_ (v :: rest) (k - i) = wh /\ 0 < wh).
    { rewrite IH, Hlen. split.
      - intros (Hk & Hat & Hp). split; [lia|]. split; [|exact Hp].
        unfold at_ in *. replace (Z.to_nat (k - i)) with (S (Z.to_nat (k - (i + 1)))) by lia.
        exact Hat.
      - intros (Hk & Hat & Hp). split; [lia|]. split; [|exact Hp].
        unfold at_ in *. replace (Z.to_nat (k - i)) with (S (Z.to_nat (k - (i + 1)))) in Hat
          by lia.
        exact Hat. }
    pose proof (len_nonneg rest) as Hnn.
    destruct (0 <? v) eqn:E.
    + apply Z.ltb_lt in E. cbn [In]. rewrite Hrest. split.
      * intros [Heq|H]; [|destruct H as (Hk & H); split; [lia | exact H]].
        injection Heq as <- <-. split; [lia|]. split; [|exact E].
        rewrite Z.sub_diag. reflexivity.
      * intros (Hk & Hat & Hp). destruct (Z.eq_dec k i) as [->|Hne].
        -- left. rewrite Z.sub_diag in Hat. cbn in Hat. subst v. reflexivity.
        -- right. split; [lia|]. split; assumption.
    + apply Z.ltb_ge in E. rewrite Hrest. split.
      * intros (Hk & H). split; [lia | exact H].
      * intros (Hk & Hat & Hp). destruct (Z.eq_dec k i) as [->|Hne].
        -- rewrite Z.sub_diag in Hat. cbn in Hat. lia.
        -- split; [lia|]. split; assumption.
Qed.

Section PollLemmas.
Context {P : Primitives} {J : Json} {R : JsonResults}.

Lemma well_stored_weaken (now : Time) (ips ips' : list string) (c : StoreCall) :
  (forall ip, In ip ips -> In ip ips') -> well_stored now ips c -> well_stored now ips' c.
Proof.
  intros Hsub. destruct c; cbn [well_stored]; intuition auto.
Qed.

Lemma poll_device_well_stored (client : Client) (now : Time) (deviceIP : string) (v : Visit) :
  Forall (well_stored now [deviceIP])
         (fst (poll_device client now (Time_Format_date now) deviceIP v)).
Proof.
  assert (Hin : In deviceIP [deviceIP]) by (left; reflexivity).
  assert (Hhourly : forall data,
            Forall (well_stored now [deviceIP])
              (store_positive data 0
                 (fun hour wh => InsertHourly (Time_Format_date now) hour deviceIP wh))).
  { intros data. rewrite store_positive_entries. apply Forall_forall.
    intros c Hc. apply in_map_iff in Hc. destruct Hc as ([k wh] & <- & Hk).
    apply positive_entries_spec in Hk. cbn [fst snd well_stored].
    repeat split; try lia. exact Hin. }
  assert (Hmonthly : forall data,
            Forall (well_stored now [deviceIP])
              (store_positive data 0
                 (fun month wh => InsertMonthly (Time_Year now) (int_of_Z (month + 1))
                                    deviceIP wh))).
  { intros data. rewrite store_positive_entries. apply Forall_forall.
    intros c Hc. apply in_map_iff in Hc. destruct Hc as ([k wh] & <- & Hk).
    apply positive_entries_spec in Hk. cbn [fst snd well_stored].
    split; [reflexivity|]. split; [exists k; split; [lia | reflexivity]|].
    split; [lia | exact Hin]. }
  unfold poll_device.
  destruct (Connect _ _ _ _ _ _ _) as [device|e|m]; try constructor.
  destruct (GetDeviceInfo device (at_info v)) as [[info p1] s1].
  set (mac := match info with Returns info0 => DeviceInfo.MAC info0 | _ => ""%string end).
  assert (Hgo : Forall (well_stored now [deviceIP])
    (fst (match GetCurrentPower p1 (at_power v) with
          | (Panics m, _, _) => ([], Some m)
          | (power, device0, _) =>
              let stored1 :=
                match power with
                | Returns power0 =>
                    [InsertReading deviceIP mac (CurrentPower.CurrentPower power0)]
                | _ => []
                end in
              match GetEnergyData device0 EnergyDataHourly now (at_hourly v) with
              | (Panics m, _, _) => (stored1, Some m)
              | (hourly, device1, _) =>
                  let stored2 :=
                    match hourly with
                    | Returns hourly0 =>
                        store_positive (EnergyData.Data hourly0) 0
                          (fun hour wh => InsertHourly (Time_Format_date now) hour deviceIP wh)
                    | _ => []
                    end in
                  match GetEnergyUsage device1 (at_usage v) with
                  | (Panics m, _, _) => (stored1 ++ stored2, Some m)
                  | (energyUsage, device2, _) =>
                      let stored3 :=
                        match energyUsage with
                        | Returns energyUsage0 =>
                            [InsertDaily (Time_Format_date now) deviceIP
                               (EnergyUsage.TodayEnergy energyUsage0)
                               (EnergyUsage.TodayRuntime energyUsage0)]
                        | _ => []
                        end in
                      match GetEnergyData device2 EnergyDataMonthly now (at_monthly v) with
                      | (Panics m, _, _) => (stored1 ++ stored2 ++ stored3, Some m)
                      | (monthly, _, _) =>
                          let stored4 :=
                            match monthly with
                            | Returns monthly0 =>
                                let year := Time_Year now in
                                store_positive (EnergyData.Data monthly0) 0
                                  (fun month wh =>
                                     InsertMonthly year (int_of_Z (month + 1)) deviceIP wh)
                            | _ => []
                            end in
                          (stored1 ++ stored2 ++ stored3 ++ stored4, None)
                      end
                  end
              end
          end))).
  { destruct (GetCurrentPower p1 (at_power v)) as [[power p2] s2].
    assert (H1 : Forall (well_stored now [deviceIP])
                   match power with
                   | Returns power0 =>
                       [InsertReading deviceIP mac (CurrentPower.CurrentPower power0)]
                   | _ => []
                   end).
    { destruct power; repeat constructor. }
    destruct (GetEnergyData p2 EnergyDataHourly now (at_hourly v)) as [[hourly p3] s3].
    assert (H2 : Forall (well_stored now [deviceIP])
                   match hourly with
                   | Returns hourly0 =>
                       store_positive (EnergyData.Data hourly0) 0
                         (fun hour wh => InsertHourly (Time_Format_date now) hour deviceIP wh)
                   | _ => []
                   end).
    { destruct hourly; [apply Hhourly | constructor | constructor]. }
    destruct (GetEnergyUsage p3 (at_usage v)) as [[usage p4] s4].
    assert (H3 : Forall (well_stored now [deviceIP])
                   match usage with
                   | Returns energyUsage0 =>
                       [InsertDaily (Time_Format_date now) deviceIP
                          (EnergyUsage.TodayEnergy energyUsage0)
                          (EnergyUsage.TodayRuntime energyUsage0)]
                   | _ => []
                   end).
    { destruct usage; repeat constructor. }
    destruct (GetEnergyData p4 EnergyDataMonthly now (at_monthly v)) as [[monthly p5] s5].
    assert (H4 : Forall (well_stored now [deviceIP])
                   match monthly with
                   | Returns monthly0 =>
                       store_positive (EnergyData.Data monthly0) 0
                         (fun month wh =>
                            InsertMonthly (Time_Year now) (int_of_Z (month + 1)) deviceIP wh)
                   | _ => []
                   end).
    { destruct monthly; [apply Hmonthly | constructor | constructor]. }
    destruct power, hourly, usage, monthly; cbn [fst];
      repeat first [assumption | apply Forall_nil | apply Forall_app; split]. }
  destruct info; [exact Hgo | exact Hgo | constructor].
Qed.

Lemma poll_loop_app (client : Client) (now : Time) (dateStr : string)
  (pre post : list (string * Visit)) :
  poll_loop client now dateStr (pre ++ post) =
  match poll_loop client now dateStr pre with
  | (stored, Some m) => (stored, Some m)
  | (stored, None) =>
      (stored ++ fst (poll_loop client now dateStr post),
       snd (poll_loop client now dateStr post))
  end.
Proof.
  induction pre as [|[ip v] pre IH].
  - cbn [app poll_loop]. destruct (poll_loop client now dateStr post). reflexivity.
  - cbn [app poll_loop]. destruct (poll_device client now dateStr ip v) as [stored [m|]];
      [reflexivity|].
    rewrite IH. destruct (poll_loop client now dateStr pre) as [stored' [m|]];
      [reflexivity|].
    rewrite app_assoc. reflexivity.
Qed.

End PollLemmas.

End PollFacts.

(** * The claims *)

(** ** C1: credential and key derivation *)

(** C1. [generateAuthHash] is SHA256(SHA1(username) ‖ SHA1(password)), and
    [deriveKeys] sets, with H = local_seed ‖ remote_seed ‖ auth_hash: key to
    the first 16 bytes of SHA256("lsk" ‖ H), iv_seed to the first 12 bytes of
    SHA256("iv" ‖ H), sig_key to the first 28 bytes of SHA256("ldk" ‖ H), and
    the sequence number to bytes 28..32 of SHA256("iv" ‖ H) read as a signed
    big-endian 32-bit integer; the seeds and the auth hash stay as they
    were. Both are functions of their inputs alone. *)
Theorem C1_derivation (P : Primitives) (HL : HashLaws P)
  (username password : string) (s : klapSession) :
  generateAuthHash username password =
    sha256_Sum256 (sha1_Sum (list_byte_of_string username)
                   ++ sha1_Sum (list_byte_of_string password)) /\
  let H := localSeed s ++ remoteSeed s ++ authHash s in
  let iv_digest := sha256_Sum256 (list_byte_of_string "iv" ++ H) in
  let s' := deriveKeys s in
  (key s' = firstn 16 (sha256_Sum256 (list_byte_of_string "lsk" ++ H)) /\ len (key s') = 16) /\
  (ivSeq s' = firstn 12 iv_digest /\ len (ivSeq s') = 12) /\
  (sig s' = firstn 28 (sha256_Sum256 (list_byte_of_string "ldk" ++ H)) /\ len (sig s') = 28) /\
  (seq s' = int32_of_be (firstn 4 (skipn 28 iv_digest)) /\ is_int32 (seq s')) /\
  (localSeed s' = localSeed s /\ remoteSeed s' = remoteSeed s /\ authHash s' = authHash s).
Proof.
  split; [reflexivity|].
  intros H iv_digest s'.
  assert (Hparts : forall tag, sha256Hash [tag; concat_slices [localSeed s; remoteSeed s; authHash s]]
                               = sha256_Sum256 (tag ++ H)).
  { intros tag. rewrite sha256Hash_concat, concat_slices_concat.
    cbn [concat]. rewrite !app_nil_r. reflexivity. }
  assert (Hlen : forall m n, (n <= 32)%nat -> len (firstn n (sha256_Sum256 m)) = Z.of_nat n).
  { intros m n Hn. unfold len. rewrite length_firstn, (sha256_Size P HL). lia. }
  subst s'. unfold deriveKeys. cbn [key ivSeq sig seq localSeed remoteSeed authHash with_keys].
  rewrite !Hparts. fold iv_digest. unfold klapIVSize. rewrite !slice_0.
  repeat split; try (apply Hlen; lia).
  - rewrite int32_of_BigEndian_Uint32. reflexivity.
  - apply int32_of_Z_range.
  - apply int32_of_Z_range.
Qed.

(** C1 at the credentials and seeds of scenario B, with the standard hash
    functions. *)
Lemma C1_derivation_witness :
  generateAuthHash (P := Standard) "a@b" "pw" =
    FIPS.sha256 (FIPS.sha1 (list_byte_of_string "a@b") ++ FIPS.sha1 (list_byte_of_string "pw")) /\
  len (key Example.ready) = 16 /\ len (ivSeq Example.ready) = 12 /\
  len (sig Example.ready) = 28 /\ is_int32 (seq Example.ready).
Proof.
  destruct (C1_derivation Standard Standard_HashLaws "a@b" "pw" Example.shaken)
    as (Ha & (_ & Hk) & (_ & Hi) & (_ & Hs) & (_ & Hq) & _).
  exact (conj Ha (conj Hk (conj Hi (conj Hs Hq)))).
Defined.

(** ** C2: the handshake hashes *)

(** C2. [handshake1] posts the local seed to /handshake1 and succeeds
    exactly when the reply is a 200 whose body is 48 bytes long and whose
    last 32 bytes are SHA256(local_seed ‖ remote_seed ‖ auth_hash), the
    remote seed being the first 16 bytes; a body of any other length fails
    with the length error, a hash mismatch with the server-hash error
    (AuthFailed). [handshake2] posts SHA256(remote_seed ‖ local_seed ‖
    auth_hash) to /handshake2: its outcome is that of the peer's reply to
    exactly this request, and after a successful [handshake1] the remote
    seed in it is the one just received, so that [handshake] succeeds exactly
    when the peer accepts the hash in the swapped order. A reply to
    [handshake1] whose hash was computed in that swapped order is rejected
    whenever the two digests differ, and for the seeds of scenario B they
    do. *)
Theorem C2_handshake_hashes (P : Primitives) (s : klapSession) (d : device) :
  let post path body :=
    {| req_url := (baseURL s ++ path)%string;
       req_contentType := "application/octet-stream"%string;
       req_body := body |} in
  let reply := d (post "/handshake1"%string (localSeed s)) in
  let server_hash body := sha256_Sum256 (localSeed s ++ firstn 16 body ++ authHash s) in
  let swapped_hash body := sha256_Sum256 (firstn 16 body ++ localSeed s ++ authHash s) in
  (fst (handshake1 s d) = Ok tt <->
   exists body, reply = Response 200 (Some body) /\ len body = 48 /\
                skipn 16 body = server_hash body) /\
  (forall body, reply = Response 200 (Some body) -> len body <> 48 ->
     fst (handshake1 s d) = Err (ErrHandshake1Length (len body))) /\
  (forall body, reply = Response 200 (Some body) -> len body = 48 ->
     skipn 16 body <> server_hash body ->
     fst (handshake1 s d) = Err ErrServerHash) /\
  (forall body, reply = Response 200 (Some body) -> len body = 48 ->
     remoteSeed (snd (handshake1 s d)) = firstn 16 body) /\
  (forall d2 : device,
     let reply2 :=
       d2 (post "/handshake2"%string
             (sha256_Sum256 (remoteSeed s ++ localSeed s ++ authHash s))) in
     (handshake2 s d2 = Ok tt <-> exists b, reply2 = Response 200 b) /\
     (reply2 = PostError -> handshake2 s d2 = Err (ErrPost ErrTransport)) /\
     (forall code b, reply2 = Response code b -> code <> 200 ->
        handshake2 s d2 = Err (ErrHandshake2Status code))) /\
  (forall (d2 : device) body,
     reply = Response 200 (Some body) -> len body = 48 ->
     skipn 16 body = server_hash body ->
     (fst (handshake s d d2) = Ok tt <->
      exists b, d2 (post "/handshake2"%string (swapped_hash body)) = Response 200 b)) /\
  (forall body, reply = Response 200 (Some body) -> len body = 48 ->
     skipn 16 body = swapped_hash body -> swapped_hash body <> server_hash body ->
     fst (handshake1 s d) = Err ErrServerHash) /\
  calculateClientHash (P := Standard) Example.shaken
    <> calculateServerHash (P := Standard) Example.shaken.
Proof.
  intros post reply server_hash swapped_hash.
  assert (Hreply : d (handshake1_request s) = reply) by reflexivity.
  assert (Hbody : forall body, reply = Response 200 (Some body) -> len body = 48 ->
            handshake1 s d =
            (if negb (bytes_Equal (skipn 16 body) (server_hash body))
             then Err ErrServerHash else Ok tt, with_remoteSeed s (firstn 16 body))).
  { intros body Hr Hl. unfold handshake1. rewrite Hreply, Hr.
    cbn [http_StatusOK Z.eqb Pos.eqb negb]. rewrite Hl. cbn [Z.eqb Pos.eqb negb].
    rewrite slice_0. unfold slice, calculateServerHash, Sum, Write, sha256_New.
    cbn [written remoteSeed localSeed authHash with_remoteSeed app].
    change (Z.to_nat (48 - 16)) with 32%nat. change (Z.to_nat 16) with 16%nat.
    rewrite (firstn_all2 (n := 32) (skipn 16 body))
      by (rewrite length_skipn; unfold len in Hl; lia).
    subst server_hash. cbn beta. rewrite <- app_assoc.
    destruct (bytes_Equal _ _); reflexivity. }
  assert (Hwrong : forall body, reply = Response 200 (Some body) -> len body = 48 ->
            skipn 16 body <> server_hash body -> fst (handshake1 s d) = Err ErrServerHash).
  { intros body Hr Hl Hne. rewrite (Hbody body Hr Hl).
    destruct (bytes_Equal _ _) eqn:E; [|reflexivity].
    apply bytes_Equal_eq in E. contradiction. }
  assert (Hpost2 : forall s0 : klapSession, baseURL s0 = baseURL s ->
            handshake2_request s0
            = post "/handshake2"%string
                (sha256_Sum256 (remoteSeed s0 ++ localSeed s0 ++ authHash s0))).
  { intros s0 Hb. rewrite handshake2_request_eq. subst post. cbv beta. rewrite Hb.
    reflexivity. }
  split; [|split; [|split; [|split; [|split; [|split; [|split]]]]]].
  - apply handshake1_Ok.
  - intros body Hr Hl. unfold handshake1. rewrite Hreply, Hr.
    cbn [http_StatusOK Z.eqb Pos.eqb negb].
    apply Z.eqb_neq in Hl. rewrite Hl. reflexivity.
  - exact Hwrong.
  - intros body Hr Hl. rewrite (Hbody body Hr Hl). reflexivity.
  - intros d2 reply2.
    assert (Hreply2 : d2 (handshake2_request s) = reply2)
      by (subst reply2; rewrite (Hpost2 s eq_refl); reflexivity).
    split; [|split].
    + rewrite handshake2_Ok, Hreply2. reflexivity.
    + intros Hr. unfold handshake2. rewrite Hreply2, Hr. reflexivity.
    + intros code b Hr Hc. unfold handshake2. rewrite Hreply2, Hr.
      apply Z.eqb_neq in Hc. unfold http_StatusOK. rewrite Hc. reflexivity.
  - intros d2 body Hr Hl Hh.
    assert (H1 : fst (handshake1 s d) = Ok tt).
    { rewrite (Hbody body Hr Hl), Hh, bytes_Equal_refl. reflexivity. }
    assert (Hs : snd (handshake1 s d) = with_remoteSeed s (firstn 16 body))
      by (rewrite (Hbody body Hr Hl); reflexivity).
    assert (Hboth : fst (handshake s d d2) = Ok tt
                    <-> handshake2 (with_remoteSeed s (firstn 16 body)) d2 = Ok tt).
    { unfold handshake. destruct (handshake1 s d) as [[[]|e|m] s1]; cbn [fst snd] in H1, Hs;
        try discriminate H1.
      subst s1. destruct (handshake2 _ d2) as [[]|e|m]; cbn [fst];
        split; intros E; try reflexivity; discriminate E. }
    rewrite Hboth, handshake2_Ok, (Hpost2 (with_remoteSeed s (firstn 16 body)) eq_refl).
    reflexivity.
  - intros body Hr Hl Hs Hne. apply (Hwrong body Hr Hl). rewrite Hs. exact Hne.
  - intros E. apply (f_equal (fun b => index b 0)) in E. vm_compute in E. discriminate E.
Qed.

(** ** C4: the encrypt/decrypt round trip *)

(** C4. For a session with derived keys and any plaintext, [encrypt] returns
    the payload signature(32) ‖ AES-CBC ciphertext of the padded plaintext
    together with the sequence value it used, and [decrypt] of that payload
    under that sequence value returns the plaintext. *)
Theorem C4_round_trip (P : Primitives) (HL : HashLaws P) (CL : CipherLaws P)
  (s : klapSession) (plaintext : bytes) :
  keyed s ->
  exists payload sq s',
    encrypt s plaintext = (Ok (payload, sq), s') /\
    payload = spec_signature s sq (spec_ciphertext s sq plaintext)
              ++ spec_ciphertext s sq plaintext /\
    length (spec_signature s sq (spec_ciphertext s sq plaintext)) = 32%nat /\
    decrypt s' payload sq = Ok plaintext.
Proof.
  intros (Hk & Hiv & _ & _).
  exists (spec_body s (int32_of_Z (seq s + 1)) plaintext), (int32_of_Z (seq s + 1)),
         (with_seq s (int32_of_Z (seq s + 1))).
  split; [apply encrypt_spec_body; assumption|].
  split; [reflexivity|].
  split; [apply (length_spec_signature HL)|].
  apply (decrypt_spec_body HL CL (with_seq s (int32_of_Z (seq s + 1)))); [exact Hk | exact Hiv].
Qed.

Lemma Example_ready_keyed : keyed Example.ready.
Proof.
  exact (deriveKeys_keyed Standard Standard_HashLaws Example.shaken).
Qed.

(** C4 for the session of scenario B and the plaintext "{}", with SHA-256
    and AES. *)
Lemma C4_round_trip_witness :
  exists payload sq s',
    encrypt (P := Standard) Example.ready (list_byte_of_string "{}") = (Ok (payload, sq), s') /\
    payload = spec_signature (P := Standard) Example.ready sq
                (spec_ciphertext (P := Standard) Example.ready sq (list_byte_of_string "{}"))
              ++ spec_ciphertext (P := Standard) Example.ready sq (list_byte_of_string "{}") /\
    length (spec_signature (P := Standard) Example.ready sq
              (spec_ciphertext (P := Standard) Example.ready sq (list_byte_of_string "{}")))
      = 32%nat /\
    decrypt (P := Standard) s' payload sq = Ok (list_byte_of_string "{}").
Proof.
  exact (C4_round_trip Standard Standard_HashLaws Standard_CipherLaws Example.ready
           (list_byte_of_string "{}") Example_ready_keyed).
Defined.

(** ** C10: encrypt cannot fail under a derived key *)

(** C10. Under a 16-byte key, which is what [deriveKeys] always sets,
    [encrypt] returns no error and does not panic: the payload is a 32-byte
    signature followed by a ciphertext that is not empty and a whole number
    of 16-byte blocks, one block more than the plaintext has full blocks. *)
Theorem C10_encrypt_total (P : Primitives) (HL : HashLaws P) (CL : CipherLaws P)
  (s : klapSession) (plaintext : bytes) :
  len (key s) = 16 ->
  (exists signature ciphertext sq,
     fst (encrypt s plaintext) = Ok (signature ++ ciphertext, sq) /\
     len signature = 32 /\
     0 < len ciphertext /\ len ciphertext mod 16 = 0 /\
     len ciphertext = 16 * (len plaintext / 16 + 1)) /\
  (forall s0, len (key (deriveKeys s0)) = 16).
Proof.
  intros Hk. split.
  - set (sq := int32_of_Z (seq s + 1)).
    set (ct := spec_cbc_encrypt (key s) (build_iv s sq) (pkcs7Pad plaintext aes_BlockSize)).
    exists (spec_signature s sq ct), ct, sq.
    split; [rewrite (encrypt_Ok s plaintext Hk); reflexivity|].
    split; [unfold len; rewrite (length_spec_signature HL); reflexivity|].
    assert (Hct : len ct = len plaintext + (16 - Z.rem (len plaintext) 16)).
    { unfold len at 1. subst ct. rewrite (spec_cbc_encrypt_whole_blocks CL).
      - apply pkcs7Pad_len.
      - apply length_build_iv.
      - apply pkcs7Pad_whole_blocks. }
    pose proof (len_nonneg plaintext) as Hp.
    rewrite Z.rem_mod_nonneg in Hct by lia.
    pose proof (Z.mod_pos_bound (len plaintext) 16 ltac:(lia)) as Hm.
    pose proof (Z.div_mod (len plaintext) 16 ltac:(lia)) as Hd.
    assert (Hct' : len ct = 16 * (len plaintext / 16 + 1)) by lia.
    split; [lia|]. split; [|exact Hct'].
    rewrite Hct', Z.mul_comm. apply Z.mod_mul. lia.
  - intros s0. apply (deriveKeys_keyed P HL s0).
Qed.

(** C10 for the session of scenario B and a 16-byte plaintext. *)
Lemma C10_encrypt_total_witness :
  (exists signature ciphertext sq,
     fst (encrypt (P := Standard) Example.ready (repeat "097"%byte 16))
       = Ok (signature ++ ciphertext, sq) /\
     len signature = 32 /\
     0 < len ciphertext /\ len ciphertext mod 16 = 0 /\
     len ciphertext = 16 * (len (repeat "097"%byte 16) / 16 + 1)) /\
  (forall s0, len (key (deriveKeys (P := Standard) s0)) = 16).
Proof.
  apply (C10_encrypt_total Standard Standard_HashLaws Standard_CipherLaws).
  apply Example_ready_keyed.
Defined.

(** ** C3: one sequence value per request *)

(** C3, as the code has it. For a session with derived keys, every request
    carries one sequence value [sq]: the decimal number in the query string
    [?seq=], the four big-endian bytes that end the 16-byte IV, and the four
    bytes hashed into the signature are that same value (what is sent are the
    frames of the specification, [spec_frames]). The value is the previous
    one plus 1 as an [int32], the first being seq0 + 1 likewise; while the
    counter does not pass 2147483647 this is exactly the previous value plus
    1 and the values increase strictly. *)
Theorem C3_sequence_values (P : Primitives) (HL : HashLaws P)
  (s : klapSession) (calls : list (bytes * device)) :
  keyed s ->
  let n := length calls in
  let values := seq_values (seq s) n in
  (snd (requests s calls) = spec_frames s values (map fst calls) /\
   seq (fst (requests s calls)) = last values (seq s)) /\
  (forall sq payload,
     is_int32 sq ->
     let frame := spec_frame s sq payload in
     let iv := ivSeq s ++ int32_be sq in
     let ct := spec_cbc_encrypt (key s) iv (pkcs7Pad payload 16) in
     req_url frame = (baseURL s ++ "/request?seq=" ++ fmt_d sq)%string /\
     (length iv = 16%nat /\ int32_of_be (skipn 12 iv) = sq) /\
     req_body frame = sha256_Sum256 (sig s ++ int32_be sq ++ ct) ++ ct /\
     firstn 32 (req_body frame) = sha256_Sum256 (sig s ++ int32_be sq ++ ct)) /\
  (Forall is_int32 values /\
   forall k, (k < n)%nat ->
     nth k values 0 = int32_of_Z (nth k (seq s :: values) 0 + 1)) /\
  (seq s + Z.of_nat n <= MaxInt32 ->
   values = map (fun k => seq s + Z.of_nat k) (List.seq 1 n) /\
   StronglySorted Z.lt (seq s :: values)).
Proof.
  intros (Hk & Hiv & Hsig & Hseq) n values.
  split; [|split; [|split]].
  - rewrite (requests_sends calls s Hk Hiv). cbn [fst snd seq with_seq]. split; reflexivity.
  - intros sq payload Hsq frame iv ct.
    assert (Hl12 : length (ivSeq s) = 12%nat) by (unfold len in Hiv; lia).
    split; [reflexivity|]. split; [split|split].
    + subst iv. rewrite length_app, Hl12. reflexivity.
    + subst iv. rewrite (skipn_length_app _ _ _ Hl12). apply int32_of_be_int32_be. exact Hsq.
    + reflexivity.
    + subst frame. cbn [req_body spec_frame]. unfold spec_body.
      apply firstn_length_app. apply (length_spec_signature HL).
  - split; [apply seq_values_int32|].
    subst values n. generalize (seq s) as sq. generalize (length calls) as m.
    induction m as [|m IH]; intros sq k Hlt; [lia|].
    destruct k as [|k]; [reflexivity|].
    cbn [seq_values]. cbn [nth]. rewrite IH by lia. reflexivity.
  - intros Hn. pose proof (seq_values_no_overflow n (seq s) Hseq Hn) as Hv.
    fold values in Hv. split; [exact Hv|]. rewrite Hv.
    constructor; [apply increasing_from|].
    apply Forall_forall. intros x Hx. apply in_map_iff in Hx.
    destruct Hx as (k & <- & Hin). apply in_seq in Hin. lia.
Qed.

(** C3 for three requests of the session of scenario B to a peer that never
    answers. *)
Lemma C3_sequence_values_witness :
  let calls := [([], Example.silent); ([], Example.silent); ([], Example.silent)] in
  snd (requests (P := Standard) Example.ready calls)
    = spec_frames (P := Standard) Example.ready (seq_values (seq Example.ready) 3) [[]; []; []] /\
  Forall is_int32 (seq_values (seq Example.ready) 3) /\
  seq_values (seq Example.ready) 3
    = [seq Example.ready + 1; seq Example.ready + 2; seq Example.ready + 3].
Proof.
  intros calls.
  destruct (C3_sequence_values Standard Standard_HashLaws Example.ready calls Example_ready_keyed)
    as ((Hsent & _) & _ & (Hall & _) & Hinc).
  split; [exact Hsent|]. split; [exact Hall|].
  apply Hinc. vm_compute. discriminate.
Defined.

(** Where the claim as stated fails: with the counter at 2147483647 the next
    request is sent with seq=-2147483648, which is neither the previous
    value plus 1 nor greater than it. *)
Lemma C3_counterexample :
  let '(_, s', sent) := request (P := Standard) Example.at_max [] Example.silent in
  seq Example.at_max = 2147483647 /\
  seq s' = -2147483648 /\
  map req_url sent = ["http://192.0.2.10/app/request?seq=-2147483648"%string] /\
  seq s' <> seq Example.at_max + 1 /\
  ~ seq Example.at_max < seq s'.
Proof.
  vm_compute. repeat split; intros H; discriminate H.
Qed.

(** ** C5: how decrypt fails *)

(** What [decrypt] does with every payload, under a 16-byte key: too short;
    signature mismatch; a remainder that is not whole blocks, where
    [CryptBlocks] panics; and otherwise the result of unpadding the
    CBC-decrypted remainder. *)
Lemma decrypt_outcomes (P : Primitives) (s : klapSession) (payload : bytes) (sq : Z) :
  len (key s) = 16 ->
  let signature := firstn 32 payload in
  let ciphertext := skipn 32 payload in
  let expected := sha256_Sum256 (sig s ++ int32_be sq ++ ciphertext) in
  (len payload < 32 -> decrypt s payload sq = Err ErrPayloadTooShort) /\
  (32 <= len payload -> signature <> expected -> decrypt s payload sq = Err ErrSignature) /\
  (32 <= len payload -> signature = expected -> len ciphertext mod 16 <> 0 ->
   decrypt s payload sq = Panic "crypto/cipher: input not full blocks") /\
  (32 <= len payload -> signature = expected -> len ciphertext mod 16 = 0 ->
   decrypt s payload sq =
   match pkcs7Unpad (spec_cbc_decrypt (key s) (build_iv s sq) ciphertext) with
   | Ok plaintext => Ok plaintext
   | Err e => Err (ErrUnpad e)
   | Panic m => Panic m
   end).
Proof.
  intros Hk signature ciphertext expected.
  split.
  { intros Hlt. unfold decrypt. apply Z.ltb_lt in Hlt. rewrite Hlt. reflexivity. }
  assert (Hsplit : 32 <= len payload ->
            decrypt s payload sq = decrypt s (signature ++ ciphertext) sq
            /\ length signature = 32%nat).
  { intros Hge. subst signature ciphertext. rewrite firstn_skipn. split; [reflexivity|].
    rewrite length_firstn. unfold len in Hge. lia. }
  assert (Hrem : Z.rem (len ciphertext) aes_BlockSize = len ciphertext mod 16).
  { apply Z.rem_mod_nonneg; [apply len_nonneg | reflexivity]. }
  repeat split; intros Hge; destruct (Hsplit Hge) as [-> Hl];
    rewrite (decrypt_split s signature ciphertext sq Hk Hl);
    change (spec_signature s sq ciphertext) with expected.
  - intros Hne. destruct (bytes_Equal signature expected) eqn:E; [|reflexivity].
    apply bytes_Equal_eq in E. contradiction.
  - intros -> Hm. rewrite bytes_Equal_refl, Hrem. cbn [negb].
    apply Z.eqb_neq in Hm. rewrite Hm. reflexivity.
  - intros -> Hm. rewrite bytes_Equal_refl, Hrem, Hm. reflexivity.
Qed.

(** [decrypt_outcomes] for the session of scenario B, sequence value 1 and
    an empty payload. *)
Lemma decrypt_outcomes_witness :
  decrypt (P := Standard) Example.ready [] 1 = Err ErrPayloadTooShort.
Proof.
  apply (decrypt_outcomes Standard Example.ready [] 1); [apply Example_ready_keyed | reflexivity].
Defined.

(** C5, where the code departs from it. The session of scenario B receives,
    for sequence value 1, a 33-byte payload: the correct signature of the
    one-byte remainder 0x00, then that byte. The payload is not shorter than
    32 bytes and its signature verifies, yet [decrypt] neither returns a
    plaintext nor reports an error: [CryptBlocks] panics. *)
Theorem C5_decrypt_panics :
  let s := Example.ready in
  let ciphertext := ["000"%byte] in
  let payload := FIPS.sha256 (sig s ++ int32_be 1 ++ ciphertext) ++ ciphertext in
  len (key s) = 16 /\ len payload = 33 /\
  firstn 32 payload = FIPS.sha256 (sig s ++ int32_be 1 ++ skipn 32 payload) /\
  decrypt (P := Standard) s payload 1 = Panic "crypto/cipher: input not full blocks".
Proof.
  intros s ciphertext payload.
  assert (Hk : len (key s) = 16) by apply Example_ready_keyed.
  assert (Hl : length (FIPS.sha256 (sig s ++ int32_be 1 ++ ciphertext)) = 32%nat)
    by apply FIPS_facts.length_sha256.
  split; [exact Hk|]. split; [|split].
  - subst payload. rewrite len_app. unfold len. rewrite Hl. reflexivity.
  - subst payload. rewrite (firstn_length_app _ _ _ Hl), (skipn_length_app _ _ _ Hl).
    reflexivity.
  - subst payload. rewrite (decrypt_split (P := Standard) s _ ciphertext 1 Hk Hl).
    change (spec_signature (P := Standard) s 1 ciphertext)
      with (FIPS.sha256 (sig s ++ int32_be 1 ++ ciphertext)).
    rewrite bytes_Equal_refl. reflexivity.
Qed.

(** ** C6: what pkcs7Unpad rejects *)

(** Padding to the AES block size and unpadding again returns the input,
    for every byte string. *)
Theorem pkcs7_round_trip (x : bytes) : pkcs7Unpad (pkcs7Pad x 16) = Ok x.
Proof.
  change 16 with aes_BlockSize. apply pkcs7Unpad_pkcs7Pad.
Qed.

(** C6, as the code has it. With p the value of the last byte of a
    non-empty string, [pkcs7Unpad] rejects the string exactly when p is 0,
    p exceeds the length of the string, or the last p bytes are not all
    equal to p; otherwise it returns the string without its last p bytes.
    So a last byte greater than 16 is rejected in a single 16-byte block. *)
Theorem C6_pkcs7Unpad_rejects (data : bytes) :
  data <> [] ->
  let p := padding_of data in
  let bad := p = 0 \/ len data < p \/ ~ tail_is data p (byte_of_Z p) in
  (bad -> pkcs7Unpad data = Err ErrInvalidPadding) /\
  (~ bad -> pkcs7Unpad data = Ok (firstn (Z.to_nat (len data - p)) data)) /\
  (len data = 16 -> 16 < p -> pkcs7Unpad data = Err ErrInvalidPadding).
Proof.
  intros Hne p bad.
  destruct (pkcs7Unpad_cases data) as [[He _]|[(_ & Hbad & Herr)|(_ & Hp & Ht & Hok)]];
    [contradiction | |]; fold p in Hbad || fold p in Hp, Ht, Hok.
  - repeat split; auto. intros Hn. contradiction.
  - assert (Hgood : ~ bad) by (subst bad; intros [H0|[Hl|Hn]]; [lia | lia | contradiction]).
    repeat split.
    + intros Hb. contradiction.
    + intros _. rewrite Hok, slice_0. reflexivity.
    + intros H16 Hgt. lia.
Qed.

(** C6 at a 16-byte block that ends in 0x11 = 17. *)
Lemma C6_pkcs7Unpad_rejects_witness :
  pkcs7Unpad (repeat "017"%byte 16) = Err ErrInvalidPadding.
Proof.
  apply (C6_pkcs7Unpad_rejects (repeat "017"%byte 16)); [discriminate | reflexivity | reflexivity].
Defined.

(** Where the claim as stated fails: 32 bytes, each of them 0x11 = 17. The
    length is a multiple of 16 and the last byte is greater than 16, yet the
    string is accepted and its first 15 bytes are returned. *)
Lemma C6_counterexample :
  let data := repeat "017"%byte 32 in
  len data = 2 * 16 /\ padding_of data = 17 /\
  pkcs7Unpad data = Ok (repeat "017"%byte 15).
Proof.
  vm_compute. repeat split.
Qed.

(** ** C9: device errors *)

Lemma append_inj_prefix (p x y : string) : (p ++ x = p ++ y)%string -> x = y.
Proof.
  induction p as [|c p IH]; cbn [append]; intros E; [exact E|].
  injection E as E. apply IH. exact E.
Qed.

Lemma to_int_not_nil (z : Z) :
  Z.to_int z <> Decimal.Pos Decimal.Nil /\ Z.to_int z <> Decimal.Neg Decimal.Nil.
Proof.
  assert (Hp : forall p, Pos.to_uint p <> Decimal.Nil).
  { intros p E. pose proof (DecimalPos.Unsigned.of_to p) as H. rewrite E in H. discriminate H. }
  destruct z as [|p|p]; cbn [Z.to_int]; split; intros E; try discriminate E;
    injection E as E; exact (Hp p E).
Qed.

Lemma fmt_d_inj (a b : Z) : fmt_d a = fmt_d b -> a = b.
Proof.
  unfold fmt_d. intros E.
  apply (f_equal NilZero.int_of_string) in E.
  destruct (to_int_not_nil a) as [Ha1 Ha2]. destruct (to_int_not_nil b) as [Hb1 Hb2].
  rewrite (NilZero.isi _ Ha1 Ha2), (NilZero.isi _ Hb1 Hb2) in E.
  injection E as E. apply (f_equal Z.of_int) in E. rewrite !DecimalZ.of_to in E. exact E.
Qed.

(** C9. When the decrypted response decodes to an envelope whose error_code
    E is not 0, [sendRequest] fails with the error that carries E (its text
    ends in the decimal of E, from which E can be read back) and returns no
    result; the result field is returned exactly when E is 0, and a returned
    result always comes from an envelope with error_code 0. *)
Theorem C9_device_error (P : Primitives) (J : Json) (p : P110) (method : string)
  (pr : params) (d : device) (reqJSON respJSON : bytes) (s' : klapSession)
  (sent : list http_request) (resp : klapResponse) :
  json_Marshal method (match pr with ParamsNil => None | _ => Some pr end) = Some reqJSON ->
  request (session p) reqJSON d = (Ok respJSON, s', sent) ->
  json_Unmarshal_klapResponse respJSON = Some resp ->
  let returned := fst (fst (sendRequest p method pr d)) in
  (ErrorCode resp <> 0 -> returned = Err (ErrDeviceCode (ErrorCode resp))) /\
  (ErrorCode resp = 0 -> returned = Ok (Result resp)) /\
  (forall r, returned = Ok r -> ErrorCode resp = 0 /\ r = Result resp) /\
  (forall e, returned = Err e -> e = ErrDeviceCode (ErrorCode resp) /\ ErrorCode resp <> 0) /\
  (forall E E', device_error_text E = device_error_text E' -> E = E').
Proof.
  intros Hm Hr Hu returned.
  assert (Hret : returned = if negb (ErrorCode resp =? 0)
                            then Err (ErrDeviceCode (ErrorCode resp))
                            else Ok (Result resp)).
  { subst returned. unfold sendRequest. cbn [fst snd]. rewrite Hm, Hr, Hu.
    destruct (negb (ErrorCode resp =? 0)); reflexivity. }
  assert (Htext : forall E E', device_error_text E = device_error_text E' -> E = E').
  { intros a b Hab. apply fmt_d_inj. apply (append_inj_prefix _ _ _ Hab). }
  rewrite Hret. destruct (ErrorCode resp =? 0) eqn:E; cbn [negb].
  - apply Z.eqb_eq in E.
    split; [intros Hne; contradiction|].
    split; [reflexivity|].
    split; [intros r Hr'; injection Hr' as <-; split; [exact E | reflexivity]|].
    split; [intros e He; discriminate He | exact Htext].
  - apply Z.eqb_neq in E.
    split; [reflexivity|].
    split; [intros He; contradiction|].
    split; [intros r Hr'; discriminate Hr'|].
    split; [intros e He; injection He as <-; split; [reflexivity | exact E] | exact Htext].
Qed.

(** C9 for the session of scenario B asking [get_device_info] of a peer that
    answers with the envelope [{"error_code":-1501}]. *)
Lemma C9_device_error_witness :
  let sq := seq Example.ready + 1 in
  fst (fst (sendRequest (P := Standard) (J := Example.json) Example.plug "get_device_info"
              ParamsNil (Example.answering Example.ready sq (-1501))))
  = Err (ErrDeviceCode (-1501)).
Proof.
  intros sq.
  refine (proj1 (C9_device_error Standard Example.json Example.plug "get_device_info" ParamsNil
                   (Example.answering Example.ready sq (-1501))
                   (list_byte_of_string
                      ("{" ++ Example.quote ++ "method" ++ Example.quote ++ ":"
                       ++ Example.quote ++ "get_device_info" ++ Example.quote ++ "}")%string)
                   (list_byte_of_string (Example.envelope_text (-1501)))
                   (with_seq Example.ready sq)
                   [spec_frame (P := Standard) Example.ready sq
                      (list_byte_of_string
                         ("{" ++ Example.quote ++ "method" ++ Example.quote ++ ":"
                          ++ Example.quote ++ "get_device_info" ++ Example.quote ++ "}")%string)]
                   {| ErrorCode := -1501; Result := [] |} _ _ _) _).
  - reflexivity.
  - vm_compute. reflexivity.
  - vm_compute. reflexivity.
  - discriminate.
Defined.

(** ** C8: discovery *)

(** C8. Whatever discovery reads after a successful set-up: a datagram that
    is not longer than 16 bytes, whose body after the 16-byte header is not
    JSON, or whose error_code is not 0 announces nothing, and a datagram that
    announces nothing changes neither the devices returned nor the error;
    datagrams and read errors never make discovery fail; the devices
    returned have pairwise different ips; the first datagram to announce an
    ip has its device returned, and that is the only device returned under
    this ip; and a device whose reported ip is empty is listed under the
    source address of its datagram. *)
Theorem C8_discovery (J : Json) :
  (forall payload addr,
     len payload <= 16 \/
     json_Unmarshal_discoveryResponse (skipn 16 (firstn 2048 payload)) = None \/
     (exists resp, json_Unmarshal_discoveryResponse (skipn 16 (firstn 2048 payload)) = Some resp
                   /\ discovery_ErrorCode resp <> 0) ->
     announced payload addr = None) /\
  (forall pre post payload addr,
     announced payload addr = None ->
     DiscoverWithTimeout SetupOk (pre ++ Datagram payload addr :: post) =
     DiscoverWithTimeout SetupOk (pre ++ post)) /\
  (forall turns, Forall keeps_reading turns ->
     exists devices, DiscoverWithTimeout SetupOk turns = (Some devices, None)) /\
  (forall turns devices err,
     DiscoverWithTimeout SetupOk turns = (Some devices, err) -> NoDup (map IP devices)) /\
  (forall pre post payload addr dev devices err,
     Forall keeps_reading pre -> unannounced (IP dev) pre ->
     announced payload addr = Some dev ->
     DiscoverWithTimeout SetupOk (pre ++ Datagram payload addr :: post) = (Some devices, err) ->
     In dev devices /\ forall dev', In dev' devices -> IP dev' = IP dev -> dev' = dev) /\
  (forall payload addr dev resp,
     announced payload addr = Some dev ->
     json_Unmarshal_discoveryResponse (skipn 16 (firstn 2048 payload)) = Some resp ->
     (Result_IP resp = ""%string -> IP dev = addr) /\
     (Result_IP resp <> ""%string -> IP dev = Result_IP resp)).
Proof.
  assert (Hempty : collected [] []).
  { split; [constructor | intros ip; reflexivity]. }
  assert (Hrun : forall turns devices err,
            DiscoverWithTimeout SetupOk turns = (Some devices, err) ->
            devices = fst (discover_loop turns [] [])).
  { intros turns devices err. unfold DiscoverWithTimeout.
    destruct (discover_loop turns [] []) as [ds e]. intros E. injection E as <- _. reflexivity. }
  split; [|split; [|split; [|split; [|split]]]].
  - intros payload addr H. unfold announced.
    destruct (len payload <=? 16) eqn:E; [reflexivity|]. apply Z.leb_gt in E.
    destruct H as [H|[H|(resp & H & Hc)]]; [lia | rewrite H; reflexivity |].
    rewrite H. apply Z.eqb_neq in Hc. rewrite Hc. reflexivity.
  - intros pre post payload addr Hn. unfold DiscoverWithTimeout.
    rewrite (discover_loop_skip pre post payload addr [] [] Hn). reflexivity.
  - intros turns Hk. unfold DiscoverWithTimeout.
    pose proof (discover_loop_no_error turns [] [] Hk) as He.
    destruct (discover_loop turns [] []) as [ds e]. cbn [snd] in He. subst e.
    exists ds. reflexivity.
  - intros turns devices err E. rewrite (Hrun _ _ _ E).
    apply (discover_loop_collected turns [] [] Hempty).
  - intros pre post payload addr dev devices err Hk Hun Ha E.
    rewrite (Hrun _ _ _ E).
    assert (Hin : In dev (fst (discover_loop (pre ++ Datagram payload addr :: post) [] []))).
    { apply discover_loop_first; auto. }
    split; [exact Hin|].
    intros dev' Hin' Hip.
    destruct (discover_loop_collected (pre ++ Datagram payload addr :: post) [] [] Hempty)
      as [Hnd _].
    revert Hnd Hin Hin' Hip.
    generalize (fst (discover_loop (pre ++ Datagram payload addr :: post) [] [])) as l.
    induction l as [|x l IHl]; intros Hnd Hin Hin' Hip; [contradiction|].
    cbn [map] in Hnd. inversion Hnd as [|? ? Hx Hnd']; subst.
    destruct Hin as [->|Hin]; destruct Hin' as [->|Hin'].
    + reflexivity.
    + exfalso. apply Hx. rewrite <- Hip. apply in_map. exact Hin'.
    + exfalso. apply Hx. rewrite Hip. apply in_map. exact Hin.
    + apply IHl; assumption.
  - intros payload addr dev resp Ha Hu. unfold announced in Ha. rewrite Hu in Ha.
    destruct (len payload <=? 16); [discriminate|].
    destruct (discovery_ErrorCode resp =? 0); [|discriminate].
    injection Ha as <-. cbn [IP]. split; intros Hip.
    + rewrite Hip. reflexivity.
    + apply String.eqb_neq in Hip. rewrite Hip. reflexivity.
Qed.
(** ** C7: the energy-data windows *)




(** * Further properties of the code *)

(** ** Discovery of the first device *)

(** X3. On the same network events, [DiscoverFirstWithTimeout] returns
    exactly the first device that [DiscoverWithTimeout] collects, when it
    collects one. When it collects none, [DiscoverFirstWithTimeout] fails:
    with the error [DiscoverWithTimeout] reports (a cancelled context, a
    failing deadline or set-up), and with "no Tapo devices found" where
    [DiscoverWithTimeout] returns the empty list without an error. *)
Theorem DiscoverFirst_agrees (J : Json) (st : setup) (turns : list turn) :
  match DiscoverWithTimeout st turns with
  | (Some (d :: _), _) => DiscoverFirstWithTimeout st turns = Returns d
  | (Some [], Some e) => DiscoverFirstWithTimeout st turns = Fails (Of e)
  | (Some [], None) => DiscoverFirstWithTimeout st turns = Fails ErrNoDevicesFound
  | (None, Some e) => DiscoverFirstWithTimeout st turns = Fails (Of e)
  | (None, None) => False
  end.
Proof.
  destruct st; try reflexivity.
  unfold DiscoverWithTimeout, DiscoverFirstWithTimeout.
  pose proof (discover_first_loop_agrees turns) as H.
  destruct (discover_loop turns [] []) as [[|d ds] [e|]]; exact H.
Qed.

(** X4. [DiscoverFirstWithTimeout] passes over read errors and datagrams
    that announce nothing; it returns the device of the first datagram that
    announces one, whatever comes after it; when the context is cancelled
    first it returns the context's error, and when the deadline elapses or
    the read times out first it fails with "no Tapo devices found". *)
Theorem DiscoverFirst_first_announcement (J : Json) (pre post : list turn) :
  Forall passed_over pre ->
  DiscoverFirstWithTimeout SetupOk (pre ++ post) = DiscoverFirstWithTimeout SetupOk post /\
  (forall payload addr dev,
     announced payload addr = Some dev ->
     DiscoverFirstWithTimeout SetupOk (pre ++ Datagram payload addr :: post) = Returns dev) /\
  DiscoverFirstWithTimeout SetupOk (pre ++ CtxDone :: post) = Fails (Of ErrContext) /\
  DiscoverFirstWithTimeout SetupOk (pre ++ SetReadDeadlineFails :: post)
    = Fails (Of ErrSetReadDeadline) /\
  DiscoverFirstWithTimeout SetupOk (pre ++ DeadlineElapsed :: post) = Fails ErrNoDevicesFound /\
  DiscoverFirstWithTimeout SetupOk (pre ++ ReadTimeout :: post) = Fails ErrNoDevicesFound /\
  DiscoverFirstWithTimeout SetupOk pre = Fails ErrNoDevicesFound.
Proof.
  intros Hpre. unfold DiscoverFirstWithTimeout.
  repeat split; try (rewrite (discover_first_loop_skip pre _ Hpre); reflexivity).
  - intros payload addr dev Ha.
    rewrite (discover_first_loop_skip pre _ Hpre), discover_first_loop_datagram, Ha.
    reflexivity.
  - rewrite <- (app_nil_r pre), (discover_first_loop_skip pre [] Hpre). reflexivity.
Qed.

(** X4 with a read error and a 16-byte datagram before the announcement
    of a device that reports no ip: it is returned under the source
    address, and the cancelled context after it is never met. *)
Lemma DiscoverFirst_first_announcement_witness :
  DiscoverFirstWithTimeout (J := Peer.json) SetupOk
    ([ReadFails; Datagram Peer.header "192.0.2.7"]
       ++ Datagram (Peer.header ++ Peer.announcement) "192.0.2.9" :: [CtxDone])
  = Returns {| IP := "192.0.2.9"; MAC := "00-00-5E-00-53-01"; DeviceID := "id";
               Model := "P110"; Alias := "" |}.
Proof.
  apply (DiscoverFirst_first_announcement Peer.json
           [ReadFails; Datagram Peer.header "192.0.2.7"] [CtxDone]).
  - repeat constructor.
  - reflexivity.
Defined.

(** ** Connecting *)

(** X5. [Connect] returns a connection exactly when the cookie jar and the
    local seed could be made, the reply to handshake1 is a 200 of 48 bytes
    that ends in SHA256(seed ‖ first 16 bytes ‖ auth hash of the client's
    credentials), and the reply to handshake2, which carries SHA256(first 16
    bytes ‖ seed ‖ auth hash), is a 200. The connection then has the ip it
    was asked for and the keys derived from the seed, those 16 bytes and the
    auth hash: a 16-byte key, a 12-byte IV prefix, a 28-byte signature key
    and an [int32] counter, so that its first request goes out as the frame
    of the counter plus one. *)
Theorem Connect_establishes (P : Primitives) (HL : HashLaws P) (c : Client) (addr : string)
  (jar : bool) (rnd : option bytes) (uuid : string) (d1 d2 : device) (p : P110) :
  let auth := generateAuthHash (username c) (password c) in
  let base := ("http://" ++ addr ++ "/app")%string in
  (Connect c addr jar rnd uuid d1 d2 = Returns p <->
   jar = true /\
   exists seed body b,
     rnd = Some seed /\
     d1 {| req_url := (base ++ "/handshake1")%string;
           req_contentType := "application/octet-stream";
           req_body := seed |} = Response 200 (Some body) /\
     len body = 48 /\
     skipn 16 body = sha256_Sum256 (seed ++ firstn 16 body ++ auth) /\
     d2 {| req_url := (base ++ "/handshake2")%string;
           req_contentType := "application/octet-stream";
           req_body := sha256_Sum256 (firstn 16 body ++ seed ++ auth) |} = Response 200 b /\
     p = {| ip := addr;
            session := deriveKeys (with_remoteSeed
                                     (newKlapSession addr (username c) (password c) seed)
                                     (firstn 16 body));
            terminalUUID := uuid |}) /\
  (Connect c addr jar rnd uuid d1 d2 = Returns p ->
   keyed (session p) /\ ip p = addr /\
   forall payload d,
     snd (request (session p) payload d)
     = [spec_frame (session p) (int32_of_Z (seq (session p) + 1)) payload]).
Proof.
  intros auth base.
  pose proof (Connect_Returns c addr jar rnd uuid d1 d2 p) as Hiff.
  split.
  - rewrite Hiff. split.
    + intros (Hj & seed & Hr & Hh & Hip & Hu). split; [exact Hj|].
      apply handshake_Ok in Hh. destruct Hh as (H1 & H2 & Hs).
      apply handshake1_Ok in H1. destruct H1 as (body & Hd1 & Hl & Hhash).
      rewrite (handshake1_session _ d1 body Hd1 Hl) in H2, Hs.
      apply handshake2_Ok in H2. destruct H2 as (b & Hd2).
      rewrite handshake2_request_eq in Hd2.
      exists seed, body, b. repeat split; try assumption.
      destruct p as [pip ps pu]; cbn [ip session terminalUUID] in *; subst; reflexivity.
    + intros (Hj & seed & body & b & Hr & Hd1 & Hl & Hhash & Hd2 & ->).
      split; [exact Hj|]. exists seed. split; [exact Hr|]. cbn [session ip terminalUUID].
      split; [|split; reflexivity].
      apply handshake_Ok.
      assert (H1 : fst (handshake1 (newKlapSession addr (username c) (password c) seed) d1)
                   = Ok tt).
      { apply handshake1_Ok. exists body. repeat split; assumption. }
      rewrite (handshake1_session (newKlapSession addr (username c) (password c) seed)
                 d1 body Hd1 Hl).
      split; [exact H1|]. split; [|reflexivity].
      apply handshake2_Ok. exists b. rewrite handshake2_request_eq. exact Hd2.
  - intros E. apply Hiff in E. destruct E as (_ & seed & _ & Hh & Hip & _).
    apply handshake_Ok in Hh. destruct Hh as (_ & _ & Hs).
    assert (Hk : keyed (session p)) by (rewrite Hs; apply (deriveKeys_keyed P HL)).
    split; [exact Hk|]. split; [exact Hip|].
    intros payload d. destruct Hk as (Hk & Hiv & _).
    apply (request_sends (session p) payload d Hk Hiv).
Qed.

(** X5 with SHA-1 and SHA-256 for the credentials and seeds of scenario B
    and a device that knows the credentials: the connection holds the
    session of the scenario. *)
Lemma Connect_establishes_witness :
  Connect (P := Standard) Peer.client "192.0.2.10" true (Some (repeat "000"%byte 16)) ""
          Peer.honest1 Peer.honest2
  = Returns Example.plug.
Proof.
  apply (Connect_establishes Standard Standard_HashLaws Peer.client "192.0.2.10" true
           (Some (repeat "000"%byte 16)) "" Peer.honest1 Peer.honest2 Example.plug).
  split; [reflexivity|].
  exists (repeat "000"%byte 16),
         (Peer.remote ++ sha256_Sum256 (Primitives := Standard)
                           (repeat "000"%byte 16 ++ Peer.remote
                            ++ generateAuthHash (P := Standard) "a@b" "pw")),
         (Some []).
  repeat split; vm_compute; reflexivity.
Defined.

(** ** One request and its reply *)

(** X6. When the peer answers a request with status 200 and the body
    signature ‖ ciphertext made for the answer under the session's keys and
    the sequence value of the request, [request] returns the answer; the
    frame went out once and the counter stands one further. *)
Theorem request_round_trip (P : Primitives) (HL : HashLaws P) (CL : CipherLaws P)
  (s : klapSession) (payload answer : bytes) (d : device) :
  keyed s ->
  let sq := int32_of_Z (seq s + 1) in
  d (spec_frame s sq payload) = Response 200 (Some (spec_body s sq answer)) ->
  request s payload d = (Ok answer, with_seq s sq, [spec_frame s sq payload]).
Proof.
  intros (Hk & Hiv & _) sq Hd.
  rewrite (request_eq s payload d Hk Hiv). fold sq. rewrite Hd.
  cbn [http_StatusOK Z.eqb Pos.eqb negb].
  rewrite <- (spec_body_with_seq s sq sq answer).
  rewrite (decrypt_spec_body HL CL (with_seq s sq) sq answer Hk Hiv). reflexivity.
Qed.

(** X6 with SHA-256 and AES: the session of scenario B sends "{}" and is
    answered with an envelope of error code 0. *)
Lemma request_round_trip_witness :
  let sq := int32_of_Z (seq Example.ready + 1) in
  request (P := Standard) Example.ready (list_byte_of_string "{}")
          (Example.answering Example.ready sq 0)
  = (Ok (list_byte_of_string (Example.envelope_text 0)), with_seq Example.ready sq,
     [spec_frame (P := Standard) Example.ready sq (list_byte_of_string "{}")]).
Proof.
  exact (request_round_trip Standard Standard_HashLaws Standard_CipherLaws Example.ready
           (list_byte_of_string "{}") (list_byte_of_string (Example.envelope_text 0))
           (Example.answering Example.ready (int32_of_Z (seq Example.ready + 1)) 0)
           Example_ready_keyed eq_refl).
Defined.

(** X7. Under a 16-byte key and a 12-byte IV prefix, [request] returns a
    plaintext only for a reply with status 200 whose body is at least 32
    bytes long, begins with SHA256(signature key ‖ the sequence value of this
    request ‖ rest) and whose rest, a whole number of blocks, decrypts and
    unpads to that plaintext. A reply with another status gives the status
    error with the body, signed or not. *)
Theorem request_authenticates (P : Primitives) (s : klapSession) (payload : bytes) (d : device) :
  len (key s) = 16 -> len (ivSeq s) = 12 ->
  let sq := int32_of_Z (seq s + 1) in
  let reply := d (spec_frame s sq payload) in
  (forall plaintext,
     fst (fst (request s payload d)) = Ok plaintext ->
     exists body,
       reply = Response 200 (Some body) /\ 32 <= len body /\
       firstn 32 body = sha256_Sum256 (sig s ++ int32_be sq ++ skipn 32 body) /\
       len (skipn 32 body) mod 16 = 0 /\
       pkcs7Unpad (spec_cbc_decrypt (key s) (spec_iv s sq) (skipn 32 body)) = Ok plaintext) /\
  (forall code body,
     reply = Response code (Some body) -> code <> 200 ->
     fst (fst (request s payload d)) = Err (ErrRequestStatus code body)).
Proof.
  intros Hk Hiv sq reply.
  rewrite (request_eq s payload d Hk Hiv). fold sq. fold reply. cbn [fst].
  split.
  - intros plaintext. destruct reply as [|code [body|]]; try discriminate.
    + destruct (code =? http_StatusOK) eqn:Hc; cbn [negb]; [|discriminate].
      apply Z.eqb_eq in Hc. unfold http_StatusOK in Hc. subst code.
      intros Hd. exists body.
      destruct (Z_lt_ge_dec (len body) 32) as [Hlt|Hge].
      { unfold decrypt in Hd. apply Z.ltb_lt in Hlt. rewrite Hlt in Hd. discriminate. }
      assert (Hl : length (firstn 32 body) = 32%nat)
        by (rewrite length_firstn; unfold len in Hge; lia).
      rewrite <- (firstn_skipn 32 body) in Hd at 1.
      rewrite (decrypt_split (with_seq s sq) _ _ sq Hk Hl) in Hd.
      change (spec_signature (with_seq s sq) sq (skipn 32 body))
        with (sha256_Sum256 (sig s ++ int32_be sq ++ skipn 32 body)) in Hd.
      destruct (bytes_Equal _ _) eqn:E; cbn [negb] in Hd; [|discriminate].
      apply bytes_Equal_eq in E.
      destruct (Z.rem (len (skipn 32 body)) aes_BlockSize =? 0) eqn:Er; cbn [negb] in Hd;
        [|discriminate].
      apply Z.eqb_eq in Er.
      rewrite Z.rem_mod_nonneg in Er by (try apply len_nonneg; reflexivity).
      rewrite (spec_iv_build_iv (with_seq s sq) sq Hiv) in Hd.
      change (key (with_seq s sq)) with (key s) in Hd.
      change (spec_iv (with_seq s sq) sq) with (spec_iv s sq) in Hd.
      repeat split; try assumption; try lia.
      destruct (pkcs7Unpad _) as [x|e|m]; [congruence | discriminate | discriminate].
    + destruct (negb (code =? http_StatusOK)); discriminate.
  - intros code body Hr Hc. rewrite Hr.
    apply Z.eqb_neq in Hc. unfold http_StatusOK. rewrite Hc. reflexivity.
Qed.

(** X7 with SHA-256 and AES, for the answered request of the session of
    scenario B. *)
Lemma request_authenticates_witness :
  let sq := int32_of_Z (seq Example.ready + 1) in
  exists body,
    Example.answering Example.ready sq 0
      (spec_frame (P := Standard) Example.ready sq (list_byte_of_string "{}"))
    = Response 200 (Some body) /\
    firstn 32 body
    = sha256_Sum256 (Primitives := Standard)
        (sig Example.ready ++ int32_be sq ++ skipn 32 body).
Proof.
  intros sq.
  destruct (request_authenticates Standard Example.ready (list_byte_of_string "{}")
              (Example.answering Example.ready sq 0)
              (proj1 Example_ready_keyed) (proj1 (proj2 Example_ready_keyed))) as [H _].
  destruct (H (list_byte_of_string (Example.envelope_text 0))) as (body & Hb & _ & Hs & _).
  - vm_compute. reflexivity.
  - exists body. split; [exact Hb | exact Hs].
Defined.

(** ** The commands of a connection *)

(** X8. On a keyed connection every command ([GetDeviceInfo],
    [GetDeviceUsage], [GetCurrentPower], [GetEnergyUsage], [GetEnergyData],
    [TurnOn], [TurnOff], and [sendRequest] under them), whether it succeeds
    or fails, either sends nothing and leaves the connection as it was, or
    sends exactly one frame, made under the counter plus one, and leaves the
    counter there with the keys unchanged; the connection stays keyed. *)
Theorem commands_advance (P : Primitives) (J : Json) (R : JsonResults) (p : P110) (d : device) :
  keyed (session p) ->
  one_step p (GetDeviceInfo p d) /\
  one_step p (GetDeviceUsage p d) /\
  one_step p (GetCurrentPower p d) /\
  one_step p (GetEnergyUsage p d) /\
  (forall interval t, one_step p (GetEnergyData p interval t d)) /\
  one_step p (TurnOn p d) /\
  one_step p (TurnOff p d) /\
  (forall method pr, one_step p (sendRequest p method pr d)).
Proof.
  intros Hkeyed.
  assert (Hsend : forall method pr, one_step p (sendRequest p method pr d))
    by (intros; apply sendRequest_one_step; exact Hkeyed).
  split; [|split; [|split; [|split; [|split; [|split; [|split; [|exact Hsend]]]]]]].
  - unfold GetDeviceInfo. apply (one_step_same p (sendRequest p "get_device_info" ParamsNil d));
      [| |apply Hsend];
      destruct (sendRequest p "get_device_info" ParamsNil d) as [[[x|e|m] p'] sent];
      try reflexivity; destruct (json_Unmarshal_DeviceInfo x); reflexivity.
  - unfold GetDeviceUsage. apply (one_step_same p (sendRequest p "get_device_usage" ParamsNil d));
      [| |apply Hsend];
      destruct (sendRequest p "get_device_usage" ParamsNil d) as [[[x|e|m] p'] sent];
      try reflexivity; destruct (json_Unmarshal_DeviceUsage x); reflexivity.
  - unfold GetCurrentPower.
    apply (one_step_same p (sendRequest p "get_current_power" ParamsNil d));
      [| |apply Hsend];
      destruct (sendRequest p "get_current_power" ParamsNil d) as [[[x|e|m] p'] sent];
      try reflexivity; destruct (json_Unmarshal_CurrentPower x); reflexivity.
  - unfold GetEnergyUsage.
    apply (one_step_same p (sendRequest p "get_energy_usage" ParamsNil d));
      [| |apply Hsend];
      destruct (sendRequest p "get_energy_usage" ParamsNil d) as [[[x|e|m] p'] sent];
      try reflexivity; destruct (json_Unmarshal_EnergyUsage x); reflexivity.
  - intros interval t. unfold GetEnergyData.
    destruct (getStartEndTimestamps interval t) as [startTS endTS].
    destruct (intervalMinutes interval) as [minutes|e|m];
      try (split; [left; split; reflexivity | exact Hkeyed]).
    set (pr := ParamsEnergyData startTS endTS minutes).
    apply (one_step_same p (sendRequest p "get_energy_data" pr d)); [| |apply Hsend];
      destruct (sendRequest p "get_energy_data" pr d) as [[[x|e|m] p'] sent];
      try reflexivity; destruct (json_Unmarshal_EnergyData x); reflexivity.
  - unfold TurnOn.
    apply (one_step_same p (sendRequest p "set_device_info" (ParamsDeviceOn true) d));
      [| |apply Hsend];
      destruct (sendRequest p "set_device_info" (ParamsDeviceOn true) d)
        as [[[x|e|m] p'] sent]; reflexivity.
  - unfold TurnOff.
    apply (one_step_same p (sendRequest p "set_device_info" (ParamsDeviceOn false) d));
      [| |apply Hsend];
      destruct (sendRequest p "set_device_info" (ParamsDeviceOn false) d)
        as [[[x|e|m] p'] sent]; reflexivity.
Qed.

(** X8 for the connection of scenario B and a peer that never answers:
    [GetCurrentPower] fails, its frame went out and the counter moved. *)
Lemma commands_advance_witness :
  one_step (P := Standard) Example.plug
    (GetCurrentPower (P := Standard) (J := Example.json) (R := Peer.no_results)
       Example.plug Example.silent).
Proof.
  exact (proj1 (proj2 (proj2
           (commands_advance Standard Example.json Peer.no_results Example.plug Example.silent
              Example_ready_keyed)))).
Defined.

(** X9. [GetEnergyData] with an interval other than "hourly", "daily" and
    "monthly" fails with "invalid interval" before anything is sent: nothing
    goes out and the connection, its counter included, is as before. With
    one of the three, what goes out on a keyed connection is the frame of
    the marshalled request "get_energy_data" whose parameters are the
    timestamps of [getStartEndTimestamps] and the interval's minutes. *)
Theorem GetEnergyData_interval (P : Primitives) (J : Json) (R : JsonResults)
  (p : P110) (interval : EnergyDataInterval) (t : Time) (d : device) :
  (interval <> EnergyDataHourly -> interval <> EnergyDataDaily ->
   interval <> EnergyDataMonthly ->
   GetEnergyData p interval t d = (Fails (Of (ErrInvalidInterval interval)), p, [])) /\
  (forall minutes reqJSON,
     In (interval, minutes)
        [(EnergyDataHourly, 60); (EnergyDataDaily, 1440); (EnergyDataMonthly, 43200)] ->
     keyed (session p) ->
     json_Marshal "get_energy_data"
       (Some (ParamsEnergyData (fst (getStartEndTimestamps interval t))
                               (snd (getStartEndTimestamps interval t)) minutes))
     = Some reqJSON ->
     snd (GetEnergyData p interval t d)
     = [spec_frame (session p) (int32_of_Z (seq (session p) + 1)) reqJSON]).
Proof.
  split.
  - intros Hh Hd Hm. unfold GetEnergyData, intervalMinutes.
    apply String.eqb_neq in Hh, Hd, Hm. rewrite Hh, Hd, Hm.
    destruct (getStartEndTimestamps interval t). reflexivity.
  - intros minutes reqJSON Hin (Hk & Hiv & _) Hj.
    assert (Hmin : intervalMinutes interval = Ok minutes).
    { cbn [In] in Hin. destruct Hin as [E|[E|[E|[]]]]; injection E as <- <-; reflexivity. }
    unfold GetEnergyData. rewrite Hmin.
    destruct (getStartEndTimestamps interval t) as [startTS endTS]. cbn [fst snd] in Hj.
    unfold sendRequest. cbn [fst snd]. rewrite Hj.
    rewrite (request_eq (session p) reqJSON d Hk Hiv).
    set (r := match d _ with PostError => _ | Response _ _ => _ end).
    destruct r as [respJSON|e|m]; try reflexivity.
    destruct (json_Unmarshal_klapResponse respJSON) as [resp|]; [|reflexivity].
    destruct (negb (ErrorCode resp =? 0)); [reflexivity|].
    destruct (json_Unmarshal_EnergyData (Result resp)); reflexivity.
Qed.

(** ** The reports of the command-line program *)

(** X10. [maxVal] returns a maximum that is never negative and not less
    than any value. When some value is positive, the maximum is the greatest
    value and the index is the first position that holds it. When no value
    is positive, and so for an empty list, it returns 0 with index 0. *)
Theorem maxVal_first_maximum (data : list Z) :
  let '(max, maxIdx) := Main.maxVal data in
  0 <= max /\
  Forall (fun v => v <= max) data /\
  (Forall (fun v => v <= 0) data <-> max = 0) /\
  (max = 0 -> maxIdx = 0) /\
  (0 < max ->
   0 <= maxIdx < len data /\ Main.at_ data maxIdx = max /\
   forall j, 0 <= j < maxIdx -> Main.at_ data j < max).
Proof.
  pose proof (MainFacts.maxVal_loop_spec data [] 0 0) as H.
  change (len []) with 0 in H. change ([] ++ data) with data in H.
  fold (Main.maxVal data) in H.
  destruct (Main.maxVal data) as [max maxIdx]. cbn [fst snd] in H.
  destruct H as (H0 & Hall & Hz & Hpos).
  { split; [lia|]. split; [constructor|]. split; [reflexivity|]. lia. }
  split; [exact H0|]. split; [exact Hall|]. split; [|split; assumption].
  split.
  - intros Hle. destruct (Z.eq_dec max 0) as [E|E]; [exact E|].
    destruct (Hpos ltac:(lia)) as (Hi & Hat & _).
    rewrite Forall_forall in Hle.
    assert (Hin : In (Main.at_ data maxIdx) data).
    { unfold Main.at_. apply nth_In. unfold len in Hi. lia. }
    specialize (Hle _ Hin). cbv beta in Hle. lia.
  - intros ->. exact Hall.
Qed.

(** X11. [sum] returns the sum of the values reduced to the 64-bit range
    of an [int]: it is the exact sum whenever that fits, whatever the
    partial sums did on the way, and the sum of a list in two parts is the
    wrapped sum of the parts' sums. *)
Theorem sum_wraps (data : list Z) :
  Main.sum data = Main.int_of_Z (total_of data) /\
  Main.is_int (Main.sum data) /\
  (Main.is_int (total_of data) -> Main.sum data = total_of data) /\
  (forall a b, data = a ++ b -> Main.sum data = Main.int_of_Z (Main.sum a + Main.sum b)).
Proof.
  split; [apply MainFacts.sum_total_of|].
  split; [rewrite MainFacts.sum_total_of; apply MainFacts.int_of_Z_range|].
  split.
  - intros H. rewrite MainFacts.sum_total_of. apply MainFacts.int_of_Z_small. exact H.
  - intros a b ->. rewrite !MainFacts.sum_total_of, MainFacts.total_of_app.
    rewrite MainFacts.int_of_Z_add_l, MainFacts.int_of_Z_add_r. reflexivity.
Qed.

(** X12. The weekly report of [printDailyWeekly] splits the values into
    rows without losing or reordering any: the rows' values, one after the
    other, are the data; there are ⌈n/7⌉ rows, numbered from 1; every row
    has between 1 and 7 values, padded with dashes to 7, and only the last
    row can have fewer than 7; each row's total is [sum] of its values, and
    the totals of the rows add up, within the range of an [int], to the
    grand total printed under them. *)
Theorem printDailyWeekly_rows (data : list Z) :
  let r := Main.printDailyWeekly data in
  let rows := Main.rows r in
  Main.days_available r = len data /\
  concat (map Main.weekData rows) = data /\
  len rows = (len data + 6) / 7 /\
  map Main.week rows = map (fun k => 1 + Z.of_nat k) (List.seq 0 (length rows)) /\
  Forall (fun row => 1 <= len (Main.weekData row) <= 7 /\
                     Main.dashes row = 7 - len (Main.weekData row) /\
                     Main.weekTotal row = Main.sum (Main.weekData row)) rows /\
  (forall k d, (S k < length rows)%nat -> len (Main.weekData (nth k rows d)) = 7) /\
  Main.daily_total r = Main.int_of_Z (total_of (map Main.weekTotal rows)).
Proof.
  intros r rows.
  assert (Hrows : rows = rows_from 1 (chunks7 (length data) data)).
  { subst rows r. unfold Main.printDailyWeekly.
    destruct (Main.maxVal data) as [peak peakDay]. cbn [Main.rows].
    rewrite WeekFacts.weeks_loop_rows by lia. reflexivity. }
  assert (Htotal : Main.daily_total r = Main.sum data).
  { subst r. unfold Main.printDailyWeekly. destruct (Main.maxVal data). reflexivity. }
  assert (Hdays : Main.days_available r = len data).
  { subst r. unfold Main.printDailyWeekly. destruct (Main.maxVal data). reflexivity. }
  clearbody rows r. subst rows.
  split; [exact Hdays|].
  split; [rewrite WeekFacts.map_weekData_rows_from; apply WeekFacts.concat_chunks7; lia|].
  split; [unfold len at 1; rewrite WeekFacts.length_rows_from;
          apply WeekFacts.chunks7_count; lia|].
  split; [rewrite WeekFacts.map_week_rows_from, WeekFacts.length_rows_from; reflexivity|].
  split; [apply WeekFacts.rows_from_each, WeekFacts.chunks7_sizes|].
  split.
  - intros k d Hk. rewrite WeekFacts.length_rows_from in Hk.
    rewrite WeekFacts.nth_rows_from by lia. apply WeekFacts.chunks7_full. exact Hk.
  - rewrite Htotal, WeekFacts.total_of_week_totals, WeekFacts.concat_chunks7 by lia.
    apply MainFacts.sum_total_of.
Qed.

(** X13. When the first twelve values are not negative (and small enough
    for thirty times a value to fit an [int]), [printMonthlyBars] does not
    panic and prints one line per value, at most twelve: values after the
    twelfth are neither shown nor counted in the year's total. The bars are
    scaled by the greatest of the values shown, or by 1 when none exceeds 1:
    a bar has value·30/scale full cells, between 0 and 30, and is filled up
    to 30 cells with light ones. *)
Theorem printMonthlyBars_bars (data : list Z) :
  Forall (fun v => 0 <= v <= Main.MaxInt / 30) (firstn 12 data) ->
  let r := Main.printMonthlyBars data in
  Main.bars_panic r = None /\
  Main.year_total r = Some (Main.sum (firstn 12 data)) /\
  map Main.month_wh (Main.bars r) = firstn 12 data /\
  map Main.month (Main.bars r) = firstn (length (firstn 12 data)) Main.months /\
  (exists scale,
     1 <= scale /\ Forall (fun v => v <= scale) (firstn 12 data) /\
     (scale = 1 \/ In scale (firstn 12 data)) /\
     Forall (fun b => Main.full b = Main.month_wh b * 30 / scale /\
                      0 <= Main.full b <= 30 /\
                      Main.full b + Main.light b = 30) (Main.bars r)).
Proof.
  intros Hdata r. subst r. rewrite BarReport.printMonthlyBars_eq.
  set (k := Nat.min 12 (length data)).
  set (max := Main.bars_max 12 data (Z.of_nat k) 0 1).
  destruct (BarReport.scale_spec data) as (Hmax & Hle & Hone). fold k max in Hmax, Hle, Hone.
  assert (Hloop : Main.bars_loop 12 data (Z.of_nat k) 0 max
                  = (map (bar_of data max) (List.seq 0 k), None)).
  { pose proof (BarFacts.bars_loop_prefix data (Z.of_nat k) max k (12 - k) 0 Hmax) as Hp.
    replace (k + (12 - k))%nat with 12%nat in Hp by (subst k; lia).
    change (Z.of_nat 0) with 0 in Hp. rewrite Hp.
    - rewrite BarFacts.bars_loop_done by lia. cbn [fst snd]. rewrite app_nil_r. reflexivity.
    - intros j Hj. split; [lia|].
      rewrite BarFacts.Forall_firstn_nth in Hdata, Hle.
      specialize (Hdata j ltac:(subst k; lia) ltac:(subst k; lia)).
      specialize (Hle j ltac:(subst k; lia) ltac:(subst k; lia)).
      cbv beta in Hdata, Hle. lia. }
  rewrite Hloop. cbn [fst snd Main.bars Main.bars_panic Main.year_total].
  assert (Hk : length (firstn 12 data) = k) by (rewrite length_firstn; reflexivity).
  split; [reflexivity|]. split; [reflexivity|]. split; [|split].
  - rewrite map_map. cbn [bar_of Main.month_wh].
    rewrite BarFacts.map_nth_seq by (subst k; lia).
    subst k. destruct (Nat.le_gt_cases 12 (length data)) as [H|H].
    + rewrite Nat.min_l by lia. reflexivity.
    + rewrite Nat.min_r by lia. rewrite !firstn_all2 by lia. reflexivity.
  - rewrite map_map, Hk. cbn [bar_of Main.month].
    apply BarFacts.map_nth_seq_string. subst k. cbn [Main.months length]. lia.
  - exists max. split; [exact Hmax|]. split; [exact Hle|]. split; [exact Hone|].
    apply Forall_forall. intros b Hb. apply in_map_iff in Hb.
    destruct Hb as (j & <- & Hj). apply in_seq in Hj.
    cbn [bar_of Main.full Main.light Main.month_wh].
    rewrite BarFacts.Forall_firstn_nth in Hdata, Hle.
    specialize (Hdata j ltac:(subst k; lia) ltac:(subst k; lia)).
    specialize (Hle j ltac:(subst k; lia) ltac:(subst k; lia)).
    cbv beta in Hdata, Hle.
    split; [reflexivity|]. split; [|lia].
    split; [apply Z.div_pos; lia | apply Z.div_le_upper_bound; lia].
Qed.

(** X13 for a year of three months, 300, 150 and 0 Wh: bars of 30, 15 and
    0 full cells. *)
Lemma printMonthlyBars_bars_witness :
  let r := Main.printMonthlyBars [300; 150; 0] in
  Main.bars_panic r = None /\
  map Main.full (Main.bars r) = [30; 15; 0] /\
  map Main.month (Main.bars r) = ["Jan"; "Feb"; "Mar"]%string.
Proof.
  intros r.
  destruct (printMonthlyBars_bars [300; 150; 0]) as (Hp & _ & _ & Hm & _).
  - repeat constructor; vm_compute; discriminate.
  - split; [exact Hp|]. split; [reflexivity | exact Hm].
Defined.

(** X14. Let a value among the first twelve be negative but not below
    -(MaxInt/30), and let the values before it lie between 0 and MaxInt/30,
    so that thirty times any of them fits an [int]. Then [printMonthlyBars]
    panics in [strings.Repeat] with "negative Repeat count" when thirty
    times the size of the negative value reaches the greatest of the first
    twelve values (so always when no value is positive): the lines of the
    months before it are printed, its own line and the year's total are
    not. The bounds are needed, since beyond them the product wraps around:
    after a 0, the value -614891469123651720 is printed with a bar of 16
    full cells, and the value -307445734561825861 panics with "Repeat output
    length overflow". *)
Theorem printMonthlyBars_negative :
  (forall (data : list Z) (i : nat),
     (i < 12)%nat -> (i < length data)%nat ->
     Forall (fun v => 0 <= v <= Main.MaxInt / 30) (firstn i data) ->
     - (Main.MaxInt / 30) <= nth i data 0 < 0 ->
     Forall (fun v => v <= - (nth i data 0 * 30)) (firstn 12 data) ->
     let r := Main.printMonthlyBars data in
     Main.bars_panic r = Some "strings: negative Repeat count"%string /\
     map Main.month_wh (Main.bars r) = firstn i data /\
     Main.year_total r = None) /\
  (let r := Main.printMonthlyBars [0; -614891469123651720] in
   Main.bars_panic r = None /\ map Main.full (Main.bars r) = [0; 16]) /\
  (let r := Main.printMonthlyBars [0; -307445734561825861] in
   Main.bars_panic r = Some "strings: Repeat output length overflow"%string /\
   map Main.month_wh (Main.bars r) = [0]).
Proof.
  split; [|split; [vm_compute; split; reflexivity | vm_compute; split; reflexivity]].
  intros data i Hi Hl Hpre Hv Hbound r. subst r. rewrite BarReport.printMonthlyBars_eq.
  set (k := Nat.min 12 (length data)).
  set (max := Main.bars_max 12 data (Z.of_nat k) 0 1).
  destruct (BarReport.scale_spec data) as (Hmax & Hle & Hone). fold k max in Hmax, Hle, Hone.
  assert (Hscale : max <= - (nth i data 0 * 30)).
  { destruct Hone as [->|Hin]; [lia|].
    rewrite Forall_forall in Hbound. apply (Hbound _ Hin). }
  assert (Hloop : Main.bars_loop 12 data (Z.of_nat k) 0 max
                  = (map (bar_of data max) (List.seq 0 i),
                     Some "strings: negative Repeat count"%string)).
  { pose proof (BarFacts.bars_loop_prefix data (Z.of_nat k) max i (S (11 - i)) 0 Hmax) as Hp.
    replace (i + S (11 - i))%nat with 12%nat in Hp by lia.
    change (Z.of_nat 0) with 0 in Hp. rewrite Hp.
    - cbn [Nat.add].
      rewrite (BarFacts.bars_loop_negative data (Z.of_nat k) max (11 - i) i Hmax)
        by (subst k; lia).
      cbn [fst snd]. rewrite app_nil_r. reflexivity.
    - intros j Hj. split; [subst k; lia|].
      rewrite BarFacts.Forall_firstn_nth in Hpre, Hle.
      specialize (Hpre j ltac:(lia) ltac:(lia)).
      specialize (Hle j ltac:(lia) ltac:(lia)).
      cbv beta in Hpre, Hle. lia. }
  rewrite Hloop. cbn [fst snd Main.bars Main.bars_panic Main.year_total].
  split; [reflexivity|]. split; [|reflexivity].
  rewrite map_map. cbn [bar_of Main.month_wh].
  apply BarFacts.map_nth_seq. lia.
Qed.

(** X14 for a second month of -5 Wh after a first of 100 Wh. *)
Lemma printMonthlyBars_negative_witness :
  let r := Main.printMonthlyBars [100; -5; 40] in
  Main.bars_panic r = Some "strings: negative Repeat count"%string /\
  map Main.month_wh (Main.bars r) = [100] /\
  Main.year_total r = None.
Proof.
  apply (proj1 printMonthlyBars_negative [100; -5; 40] 1%nat).
  - lia.
  - cbn [length]. lia.
  - repeat constructor; vm_compute; discriminate.
  - cbn [nth]. split; vm_compute; [discriminate | reflexivity].
  - repeat constructor; vm_compute; discriminate.
Defined.

(** X15. [printHourlyTable] shows the hours 0 to 23 in two rows and under
    them the values the data has for them, the first 24 at most and fewer
    when the data is shorter, so that it never reads past the end of the
    data; the total and the peak it prints range over all the values, shown
    or not. *)
Theorem printHourlyTable_rows (data : list Z) :
  let t := Main.printHourlyTable data in
  Main.hours1 t = map Z.of_nat (List.seq 0 12) /\
  Main.hours2 t = map Z.of_nat (List.seq 12 12) /\
  Main.wh1 t = firstn 12 data /\
  Main.wh2 t = firstn 12 (skipn 12 data) /\
  Main.wh1 t ++ Main.wh2 t = firstn 24 data /\
  Main.hourly_total t = Main.int_of_Z (total_of data) /\
  (Main.hourly_peak t, Main.hourly_peakHour t) = Main.maxVal data.
Proof.
  intros t. subst t. unfold Main.printHourlyTable.
  destruct (Main.maxVal data) as [peak peakHour].
  cbn [Main.hours1 Main.hours2 Main.wh1 Main.wh2 Main.hourly_total Main.hourly_peak
       Main.hourly_peakHour].
  rewrite (HistoryFacts.for_loop_sub data 12 12 0) by lia.
  rewrite (HistoryFacts.for_loop_sub data 24 12 12) by lia.
  change (Z.to_nat (12 - 0)) with 12%nat. change (Z.to_nat (24 - 12)) with 12%nat.
  change (Z.to_nat 0) with 0%nat. change (Z.to_nat 12) with 12%nat. cbn [skipn].
  split; [reflexivity|]. split; [reflexivity|].
  split; [reflexivity|]. split; [reflexivity|].
  split; [|split; [apply MainFacts.sum_total_of | reflexivity]].
  rewrite <- (firstn_skipn 12 (firstn 24 data)).
  rewrite firstn_firstn. change (Nat.min 12 24) with 12%nat. f_equal.
  rewrite skipn_firstn_comm. reflexivity.
Qed.

(** X16. For an empty list of readings [showHistory] prints no summary.
    Otherwise the summary counts all the readings; its total is the sum of
    their powers within the 64-bit range; its minimum and maximum are powers
    of readings and bound every reading's power; and the readings listed
    under it are the last ten, or all of them when there are fewer. *)
Theorem recent_readings_summary (rs : list Main.Reading.t) :
  (rs = [] -> Main.recent_readings rs = None) /\
  (rs <> [] ->
   exists s,
     Main.recent_readings rs = Some s /\
     Main.readings_count s = len rs /\
     Main.totalPower s = Main.int_of_Z (total_of (map Main.Reading.PowerMW rs)) /\
     Forall (fun r => Main.minPower s <= Main.Reading.PowerMW r <= Main.maxPower s) rs /\
     In (Main.minPower s) (map Main.Reading.PowerMW rs) /\
     In (Main.maxPower s) (map Main.Reading.PowerMW rs) /\
     Main.last_readings s = skipn (length rs - 10) rs /\
     len (Main.last_readings s) = Z.min 10 (len rs)).
Proof.
  split; [intros ->; reflexivity|].
  destruct rs as [|r0 rest]; [intros H; contradiction|]. intros _.
  unfold Main.recent_readings.
  pose proof (HistoryFacts.readings_fold (r0 :: rest) 0 (Main.Reading.PowerMW r0)
                (Main.Reading.PowerMW r0)) as H.
  change (Main.int_of_Z 0) with 0 in H.
  destruct (fold_left Main.readings_step (r0 :: rest) _) as [[total lo] hi].
  destruct H as (Ht & Hlo & Hhi & Hall & Hmin & Hmax).
  eexists. split; [reflexivity|].
  cbn [Main.readings_count Main.totalPower Main.minPower Main.maxPower Main.last_readings].
  split; [reflexivity|]. split; [exact Ht|]. split; [exact Hall|].
  split; [destruct Hmin as [->|H]; [left; reflexivity | exact H]|].
  split; [destruct Hmax as [->|H]; [left; reflexivity | exact H]|].
  assert (Hstart : Z.to_nat (if len (r0 :: rest) - 10 <? 0 then 0 else len (r0 :: rest) - 10)
                   = (length (r0 :: rest) - 10)%nat).
  { unfold len. destruct (Z.of_nat (length (r0 :: rest)) - 10 <? 0) eqn:E;
      [apply Z.ltb_lt in E | apply Z.ltb_ge in E]; lia. }
  rewrite Hstart. split; [reflexivity|].
  unfold len. rewrite length_skipn. lia.
Qed.

(** X17. For an empty list of hourly records [showHistory] builds no
    table. Otherwise the array it hands to [printHourlyTable] has 24 entries,
    whatever hours the records carry: entry h is the energy of the last
    record for hour h, and 0 when there is none; a record whose hour is not
    between 0 and 23 changes nothing. *)
Theorem hourly_array_entries (records : list Main.HourlyRecord.t) :
  (records = [] -> Main.hourly_array records = None) /\
  (records <> [] ->
   exists hourlyData,
     Main.hourly_array records = Some hourlyData /\
     length hourlyData = 24%nat /\
     (forall h, 0 <= h < 24 -> Main.at_ hourlyData h = last_for_hour records h) /\
     (forall pre r post, records = pre ++ r :: post ->
        ~ 0 <= Main.HourlyRecord.Hour r < 24 ->
        Main.hourly_array (pre ++ post) = Some hourlyData \/ pre ++ post = [])).
Proof.
  split; [intros ->; reflexivity|].
  intros Hne.
  set (step := fun (hourlyData : list Z) (r : Main.HourlyRecord.t) =>
                 if (Main.HourlyRecord.Hour r >=? 0) && (Main.HourlyRecord.Hour r <? 24)
                 then Main.set_at hourlyData (Main.HourlyRecord.Hour r)
                                  (Main.HourlyRecord.EnergyWh r)
                 else hourlyData).
  assert (Hsome : forall rs, rs <> [] ->
            Main.hourly_array rs = Some (fold_left step rs (repeat 0 24))).
  { intros rs H. destruct rs; [contradiction | reflexivity]. }
  exists (fold_left step records (repeat 0 24)).
  split; [apply Hsome; exact Hne|].
  split; [|split].
  - apply (HistoryFacts.hourly_fold records (repeat 0 24) 0); [reflexivity | lia].
  - intros h Hh.
    destruct (HistoryFacts.hourly_fold records (repeat 0 24) h eq_refl Hh) as [_ Hat].
    fold step in Hat. rewrite Hat. unfold last_for_hour.
    replace (Main.at_ (repeat 0 24) h) with 0; [reflexivity|].
    unfold Main.at_. symmetry. apply nth_repeat.
  - intros pre r post -> Hr.
    destruct (pre ++ post) as [|x xs] eqn:E; [right; reflexivity|]. left.
    rewrite <- E. rewrite Hsome by (rewrite E; discriminate). f_equal.
    rewrite !fold_left_app. cbn [fold_left]. f_equal.
    unfold step at 2.
    destruct (Main.HourlyRecord.Hour r >=? 0) eqn:E0; cbn [andb]; [|reflexivity].
    destruct (Main.HourlyRecord.Hour r <? 24) eqn:E1; [|reflexivity].
    rewrite Z.geb_leb in E0. apply Z.leb_le in E0. apply Z.ltb_lt in E1. lia.
Qed.

(** ** The energy windows among themselves *)

(** X18. In a zone of fixed offset the three windows of
    [getStartEndTimestamps] for one reference time lie inside one another
    and hold the reference time: the year's window begins no later than the
    quarter's, the quarter's no later than the day's, the day's no later
    than the reference time, which comes before the end of the day's window;
    and the day's window ends no later than the quarter's, the quarter's no
    later than the year's. *)
Theorem windows_nested (t : Time) (offset : Z) :
  location t = time_FixedZone offset ->
  let '(hourly_start, hourly_end) := getStartEndTimestamps EnergyDataHourly t in
  let '(daily_start, daily_end) := getStartEndTimestamps EnergyDataDaily t in
  let '(monthly_start, monthly_end) := getStartEndTimestamps EnergyDataMonthly t in
  monthly_start <= daily_start /\ daily_start <= hourly_start /\
  hourly_start <= Time_Unix t /\ Time_Unix t < hourly_end /\
  hourly_end <= daily_end /\ daily_end <= monthly_end.
Proof.
  intros Hloc.
  assert (Hex : forall k, midnight_exists (location t) k)
    by (intros k; rewrite Hloc; apply FixedZone_midnight_exists).
  destruct (windows_as_days t Hex) as (HYMD & HM & -> & -> & ->).
  rewrite Hloc, !zone_adjust_fixed.
  set (n := wall t / secondsPerDay) in *.
  set (Y := Time_Year t) in *. set (M := Time_Month t) in *.
  set (Q := 3 * ((M - 1) / 3) + 1).
  assert (HQ : (Q = 1 \/ Q = 4 \/ Q = 7 \/ Q = 10) /\ Q <= M <= Q + 2)
    by (subst Q; Z.div_mod_to_equations; lia).
  destruct HQ as [HQin HQM].
  pose proof (days_from_civil_from_days n) as Hback. rewrite HYMD in Hback.
  destruct Hback as (Hn & _ & HD).
  pose proof (before_next_month n) as Hnext. rewrite HYMD in Hnext.
  pose proof (firsts_increase Y Q M ltac:(lia) ltac:(lia) ltac:(lia)) as [HQle HMlt].
  pose proof (firsts_increase Y 1 Q ltac:(lia) ltac:(lia) ltac:(lia)) as [H1le HQlt].
  pose proof (days_from_civil_day Y M (Time_Day t)) as Hday.
  assert (Hend : n + 1 <= days_from_civil (if Q =? 10 then Y + 1 else Y)
                                          (if Q =? 10 then 1 else Q + 3) 1
                 /\ days_from_civil (if Q =? 10 then Y + 1 else Y)
                                    (if Q =? 10 then 1 else Q + 3) 1
                    <= days_from_civil (Y + 1) 1 1).
  { unfold next_month in Hnext. destruct (Q =? 10) eqn:E10.
    - split; [|lia]. destruct (M =? 12) eqn:E12; cbn [fst snd] in Hnext; [lia|].
      apply Z.eqb_neq in E12.
      pose proof (firsts_increase Y (M + 1) (M + 1) ltac:(lia) ltac:(lia) ltac:(lia)). lia.
    - apply Z.eqb_neq in E10.
      assert (E12 : (M =? 12) = false) by (apply Z.eqb_neq; lia).
      rewrite E12 in Hnext. cbn [fst snd] in Hnext.
      pose proof (firsts_increase Y (M + 1) (Q + 3) ltac:(lia) ltac:(lia) ltac:(lia)).
      pose proof (firsts_increase Y (Q + 3) (Q + 3) ltac:(lia) ltac:(lia) ltac:(lia)). lia. }
  destruct Hend as [Hend1 Hend2].
  assert (Hwall : n * secondsPerDay <= wall t < (n + 1) * secondsPerDay).
  { subst n. unfold secondsPerDay.
    pose proof (Z.div_mod (wall t) 86400 ltac:(lia)).
    pose proof (Z.mod_pos_bound (wall t) 86400 ltac:(lia)). lia. }
  assert (Hw : wall t = Time_Unix t + offset).
  { unfold wall, Time_Unix, offset_at. rewrite Hloc. reflexivity. }
  unfold secondsPerDay in *. lia.
Qed.

(** X18 for scenario E, 2024-03-15T14:22:00 at +05:30. *)
Lemma windows_nested_witness :
  1704047400 <= 1704047400 /\ 1704047400 <= 1710441000 /\
  1710441000 <= Time_Unix Example.afternoon /\ Time_Unix Example.afternoon < 1710527400 /\
  1710527400 <= 1711909800 /\ 1711909800 <= 1735669800.
Proof.
  exact (windows_nested Example.afternoon 19800 eq_refl).
Defined.

(** X19. In a zone of fixed offset the day's window is 24 hours long, the
    quarter's window as many days as the quarter has (90 or, in a leap year,
    91 for the first, 91 for the second, 92 for the third and the fourth),
    and the year's window 365 days or, in a leap year, 366. *)
Theorem window_lengths (t : Time) (offset : Z) :
  location t = time_FixedZone offset ->
  let '(hourly_start, hourly_end) := getStartEndTimestamps EnergyDataHourly t in
  let '(daily_start, daily_end) := getStartEndTimestamps EnergyDataDaily t in
  let '(monthly_start, monthly_end) := getStartEndTimestamps EnergyDataMonthly t in
  hourly_end - hourly_start = 86400 /\
  daily_end - daily_start
  = 86400 * days_in_quarter (Time_Year t) (getQuarterStartMonth t) /\
  monthly_end - monthly_start = 86400 * days_in_year (Time_Year t).
Proof.
  intros Hloc.
  assert (Hex : forall k, midnight_exists (location t) k)
    by (intros k; rewrite Hloc; apply FixedZone_midnight_exists).
  destruct (windows_as_days t Hex) as (HYMD & HM & -> & -> & ->).
  rewrite Hloc, !zone_adjust_fixed.
  set (Y := Time_Year t) in *. set (M := Time_Month t) in *.
  assert (HQ : getQuarterStartMonth t = 3 * ((M - 1) / 3) + 1).
  { unfold getQuarterStartMonth. fold M. rewrite Z.quot_div_nonneg by lia. reflexivity. }
  rewrite HQ.
  set (Q := 3 * ((M - 1) / 3) + 1).
  assert (HQin : Q = 1 \/ Q = 4 \/ Q = 7 \/ Q = 10)
    by (subst Q; Z.div_mod_to_equations; lia).
  pose proof (quarter_length Y Q HQin) as Hq.
  pose proof (year_length Y) as Hy.
  unfold secondsPerDay. lia.
Qed.

(** X19 for scenario E: a first quarter of 91 days in the leap year 2024. *)
Lemma window_lengths_witness :
  1710527400 - 1710441000 = 86400 /\
  1711909800 - 1704047400 = 86400 * 91 /\
  1735669800 - 1704047400 = 86400 * 366.
Proof.
  exact (window_lengths Example.afternoon 19800 eq_refl).
Defined.

(** ** Padding and initialisation vectors *)

(** X20. For every block size from 1 to 255 [pkcs7Pad] adds between 1 and
    blockSize bytes and brings the length to a multiple of the block size,
    and [pkcs7Unpad] returns the string that was padded. At block size 256
    the count no longer fits the padding byte: a string whose length is a
    multiple of 256 is padded with 256 zero bytes, which [pkcs7Unpad]
    rejects. *)
Theorem pkcs7_block_sizes (data : bytes) (blockSize : Z) :
  (1 <= blockSize <= 255 ->
   pkcs7Unpad (pkcs7Pad data blockSize) = Ok data /\
   len (pkcs7Pad data blockSize) mod blockSize = 0 /\
   len data < len (pkcs7Pad data blockSize) <= len data + blockSize) /\
  (blockSize = 256 -> len data mod 256 = 0 ->
   len (pkcs7Pad data blockSize) = len data + 256 /\
   pkcs7Unpad (pkcs7Pad data blockSize) = Err ErrInvalidPadding).
Proof.
  split.
  - intros Hb. split; [apply pkcs7Unpad_pkcs7Pad_any; exact Hb|].
    rewrite pkcs7Pad_len_any by lia.
    pose proof (pkcs7Pad_padding_any data blockSize ltac:(lia)) as [Hp Hm]. cbv zeta in Hp, Hm.
    split; [exact Hm | lia].
  - intros -> Hm. pose proof (len_nonneg data) as Hl.
    assert (Hrem : Z.rem (len data) 256 = 0) by (rewrite Z.rem_mod_nonneg by lia; exact Hm).
    pose proof (pkcs7Pad_len_any data 256 ltac:(lia)) as Hlen. rewrite Hrem in Hlen.
    pose proof (pkcs7Pad_last data 256 ltac:(lia)) as Hlast. rewrite Hrem in Hlast.
    change ((256 - 0) mod 256) with 0 in Hlast.
    split; [lia|].
    destruct (pkcs7Unpad_cases (pkcs7Pad data 256))
      as [[He _]|[(_ & _ & Hr)|(_ & Hp & _)]].
    + rewrite He in Hlen. change (len []) with 0 in Hlen. lia.
    + exact Hr.
    + rewrite Hlast in Hp. lia.
Qed.

(** X21. Under a 12-byte IV prefix, the IVs that [encrypt] builds for the
    sequence values of up to 2^32 requests in a row are pairwise different,
    also when the counter wraps from 2147483647 to -2147483648 on the
    way. *)
Theorem iv_never_repeats (s : klapSession) (n : nat) :
  len (ivSeq s) = 12 -> Z.of_nat n <= 2 ^ 32 ->
  NoDup (map (build_iv s) (seq_values (seq s) n)).
Proof.
  intros Hiv Hn. rewrite seq_values_closed.
  apply NoDup_map_NoDup_ForallPairs.
  - intros x y Hx Hy E. apply in_map_iff in Hx, Hy.
    destruct Hx as (i & <- & _). destruct Hy as (j & <- & _).
    rewrite !(spec_iv_build_iv s _ Hiv) in E. unfold spec_iv in E.
    apply app_inv_head in E.
    rewrite <- (int32_of_be_int32_be (int32_of_Z (seq s + Z.of_nat i)))
      by apply int32_of_Z_range.
    rewrite E. apply int32_of_be_int32_be, int32_of_Z_range.
  - apply NoDup_map_NoDup_ForallPairs; [|apply seq_NoDup].
    intros i j Hi Hj E. apply in_seq in Hi, Hj.
    apply int32_of_Z_inj in E; lia.
Qed.

(** X21 for the session of scenario B with its counter at the largest
    [int32]: the IVs of the next three requests. *)
Lemma iv_never_repeats_witness :
  NoDup (map (build_iv Example.at_max) (seq_values (seq Example.at_max) 3)).
Proof.
  apply (iv_never_repeats Example.at_max 3).
  - unfold Example.at_max. rewrite ivSeq_with_seq.
    exact (proj1 (proj2 Example_ready_keyed)).
  - vm_compute. discriminate.
Defined.

(** X22. [ConnectWithDiscovery] connects to the address of the first
    announcement: the ip string it returns is the one the first announcing
    datagram reports, or the datagram's source address when it reports
    none, also when the connection then fails; a connection it returns is to
    that address. When discovery fails it returns the empty string and the
    discovery error, wrapped. *)
Theorem ConnectWithDiscovery_address (P : Primitives) (J : Json) (c : Client)
  (jar : bool) (rnd : option bytes) (uuid : string) (d1 d2 : device) :
  (forall pre post payload addr dev,
     Forall passed_over pre -> announced payload addr = Some dev ->
     let r := ConnectWithDiscovery c SetupOk (pre ++ Datagram payload addr :: post)
                jar rnd uuid d1 d2 in
     snd r = IP dev /\
     (forall p, fst r = Returns p <-> Connect c (IP dev) jar rnd uuid d1 d2 = Returns p) /\
     (forall p, fst r = Returns p ->
        ip p = IP dev /\ baseURL (session p) = ("http://" ++ IP dev ++ "/app")%string) /\
     (forall e, Connect c (IP dev) jar rnd uuid d1 d2 = Fails e ->
        fst r = Fails (ErrConnectionFailed e))) /\
  (forall st turns e,
     DiscoverFirstWithTimeout st turns = Fails e ->
     ConnectWithDiscovery c st turns jar rnd uuid d1 d2
     = (Fails (ErrDiscoveryFailed e), ""%string)).
Proof.
  split.
  - intros pre post payload addr dev Hpre Ha r.
    assert (Hd : DiscoverFirst SetupOk (pre ++ Datagram payload addr :: post) = Returns dev).
    { unfold DiscoverFirst, DiscoverFirstWithTimeout.
      rewrite (discover_first_loop_skip pre _ Hpre), discover_first_loop_datagram, Ha.
      reflexivity. }
    assert (Hr : r = match Connect c (IP dev) jar rnd uuid d1 d2 with
                     | Fails err => (Fails (ErrConnectionFailed err), IP dev)
                     | Panics m => (Panics m, IP dev)
                     | Returns p110 => (Returns p110, IP dev)
                     end).
    { subst r. unfold ConnectWithDiscovery. rewrite Hd. reflexivity. }
    clearbody r. subst r.
    assert (Hiff : forall p,
              fst (match Connect c (IP dev) jar rnd uuid d1 d2 with
                   | Fails err => (Fails (ErrConnectionFailed err), IP dev)
                   | Panics m => (Panics m, IP dev)
                   | Returns p110 => (Returns p110, IP dev)
                   end) = Returns p
              <-> Connect c (IP dev) jar rnd uuid d1 d2 = Returns p).
    { intros p. destruct (Connect c (IP dev) jar rnd uuid d1 d2); cbn [fst];
        split; intros E; try discriminate; exact E. }
    split; [destruct (Connect c (IP dev) jar rnd uuid d1 d2); reflexivity|].
    split; [exact Hiff|]. split.
    + intros p Hp. apply Hiff in Hp. apply Connect_Returns in Hp.
      destruct Hp as (_ & seed & _ & Hh & Hip & _). split; [exact Hip|].
      apply handshake_Ok in Hh. destruct Hh as (_ & _ & ->).
      unfold handshake1. cbn [deriveKeys with_keys baseURL].
      destruct (d1 _) as [|code [body|]]; cbn [snd baseURL newKlapSession]; try reflexivity;
        destruct (negb (code =? http_StatusOK)); cbn [snd baseURL newKlapSession];
        try reflexivity.
      destruct (negb (len body =? 48)); cbn [snd baseURL newKlapSession]; try reflexivity.
      destruct (negb (bytes_Equal _ _)); reflexivity.
    + intros e He. rewrite He. reflexivity.
  - intros st turns e He. unfold ConnectWithDiscovery, DiscoverFirst. rewrite He. reflexivity.
Qed.

(** ** One poll of the daemon *)

(** X23. Whatever the devices answer, every call [pollDevices] makes on
    the store is for one of the devices it was given; hourly and daily
    values go under the date of the time of the poll and monthly values
    under its year; and an hourly or monthly energy that is stored is
    positive (zeros are never written), at an hour from 0 on or a month that
    is a position plus one. *)
Theorem pollDevices_well_stored (P : Primitives) (J : Json) (R : JsonResults)
  (client : Client) (now : Time) (deviceIPs : list (string * Main.Visit)) :
  Forall (well_stored now (map fst deviceIPs))
         (fst (Main.pollDevices client now deviceIPs)).
Proof.
  unfold Main.pollDevices.
  induction deviceIPs as [|[ip v] rest IH]; [constructor|].
  cbn [Main.poll_loop map fst].
  pose proof (PollFacts.poll_device_well_stored client now ip v) as Hd.
  assert (Hd' : Forall (well_stored now (ip :: map fst rest))
                  (fst (Main.poll_device client now (Main.Time_Format_date now) ip v))).
  { eapply Forall_impl; [|exact Hd]. intros c.
    apply PollFacts.well_stored_weaken. intros x [->|[]]. left. reflexivity. }
  assert (IH' : Forall (well_stored now (ip :: map fst rest))
                  (fst (Main.poll_loop client now (Main.Time_Format_date now) rest))).
  { eapply Forall_impl; [|exact IH]. intros c.
    apply PollFacts.well_stored_weaken. intros x Hx. right. exact Hx. }
  destruct (Main.poll_device client now (Main.Time_Format_date now) ip v) as [stored [m|]];
    cbn [fst] in *; [exact Hd'|].
  destruct (Main.poll_loop client now (Main.Time_Format_date now) rest) as [stored' panic].
  cbn [fst] in *. apply Forall_app. split; assumption.
Qed.

(** X24. A device that cannot be connected to is passed over: the poll
    stores what it would store without it. A panic is not: when a device
    answers a command with a body of at least 32 bytes whose signature
    verifies and whose rest is not a whole number of 16-byte blocks,
    [pollDevices] panics in [CryptBlocks]; what was stored before stays, and
    the devices after it are not polled. *)
Theorem pollDevices_panic (P : Primitives) (HL : HashLaws P) (J : Json) (R : JsonResults)
  (client : Client) (now : Time) (pre post : list (string * Main.Visit))
  (ip : string) (v : Main.Visit) :
  (forall e,
     Connect client ip (Main.jar v) (Main.rnd v) (Main.uuid v)
             (Main.at_handshake1 v) (Main.at_handshake2 v) = Fails e ->
     Main.pollDevices client now (pre ++ (ip, v) :: post)
     = Main.pollDevices client now (pre ++ post)) /\
  (forall p reqJSON ct,
     Connect client ip (Main.jar v) (Main.rnd v) (Main.uuid v)
             (Main.at_handshake1 v) (Main.at_handshake2 v) = Returns p ->
     json_Marshal "get_device_info" None = Some reqJSON ->
     let sq := int32_of_Z (seq (session p) + 1) in
     Main.at_info v (spec_frame (session p) sq reqJSON)
     = Response 200
         (Some (sha256_Sum256 (sig (session p) ++ int32_be sq ++ ct) ++ ct)) ->
     len ct mod 16 <> 0 ->
     snd (Main.pollDevices client now pre) = None ->
     Main.pollDevices client now (pre ++ (ip, v) :: post)
     = (fst (Main.pollDevices client now pre),
        Some "crypto/cipher: input not full blocks"%string)).
Proof.
  split.
  - intros e He. unfold Main.pollDevices. rewrite !PollFacts.poll_loop_app.
    destruct (Main.poll_loop client now (Main.Time_Format_date now) pre) as [stored [m|]];
      [reflexivity|].
    cbn [Main.poll_loop]. unfold Main.poll_device at 1 2. rewrite He. cbn [app fst snd].
    destruct (Main.poll_loop client now (Main.Time_Format_date now) post). reflexivity.
  - intros p reqJSON ct Hc Hj sq Hreply Hct Hpre.
    assert (Hkeyed : keyed (session p)).
    { apply Connect_Returns in Hc. destruct Hc as (_ & seed & _ & Hh & _).
      apply handshake_Ok in Hh. destruct Hh as (_ & _ & ->).
      apply (deriveKeys_keyed P HL). }
    destruct Hkeyed as (Hk & Hiv & _).
    assert (Hinfo : fst (fst (GetDeviceInfo p (Main.at_info v)))
                    = Panics "crypto/cipher: input not full blocks").
    { unfold GetDeviceInfo, sendRequest. cbn [fst snd]. rewrite Hj.
      rewrite (request_eq (session p) reqJSON (Main.at_info v) Hk Hiv). fold sq.
      rewrite Hreply. cbn [http_StatusOK Z.eqb Pos.eqb negb].
      rewrite (decrypt_split (with_seq (session p) sq) _ ct sq Hk (sha256_Size P HL _)).
      change (spec_signature (with_seq (session p) sq) sq ct)
        with (sha256_Sum256 (sig (session p) ++ int32_be sq ++ ct)).
      rewrite bytes_Equal_refl. cbn [negb].
      rewrite Z.rem_mod_nonneg by (try apply len_nonneg; reflexivity).
      apply Z.eqb_neq in Hct. unfold aes_BlockSize. rewrite Hct. reflexivity. }
    unfold Main.pollDevices in *. rewrite PollFacts.poll_loop_app.
    destruct (Main.poll_loop client now (Main.Time_Format_date now) pre) as [stored [m|]];
      cbn [fst snd] in *; [discriminate|].
    cbn [Main.poll_loop]. unfold Main.poll_device. rewrite Hc.
    destruct (GetDeviceInfo p (Main.at_info v)) as [[info p1] s1]. cbn [fst] in Hinfo.
    subst info. cbn [fst snd]. rewrite app_nil_r. reflexivity.
Qed.

(** X24 with SHA-256: the device of scenario B answers the first command
    of the poll with a signed body whose rest is one byte. The daemon panics
    and the second device is never asked. *)
Lemma pollDevices_panic_witness :
  Main.pollDevices (P := Standard) (J := Example.json) (R := Peer.no_results)
    Peer.client Example.afternoon
    ([] ++ ("192.0.2.10"%string, Peer.visit) :: [("192.0.2.11"%string, Peer.visit)])
  = ([], Some "crypto/cipher: input not full blocks"%string).
Proof.
  refine (proj2 (pollDevices_panic Standard Standard_HashLaws Example.json Peer.no_results
                   Peer.client Example.afternoon [] [("192.0.2.11"%string, Peer.visit)]
                   "192.0.2.10" Peer.visit)
                Example.plug _ ["000"%byte] _ _ _ _ eq_refl).
  - vm_compute. reflexivity.
  - reflexivity.
  - reflexivity.
  - vm_compute. discriminate.
Defined.

(** X25. The monthly listing of [showHistory] prints a line for every
    record, with the name of its month and with the total of all energies
    under them, as long as every record's month is between 0 and 12 (month 0
    has the empty name). A record with any other month makes the listing
    panic on the lookup of the name: the lines of the records before it are
    printed, its own line and the total are not. *)
Theorem monthly_listing_months (records : list Main.MonthlyRecord.t) :
  (Forall (fun r => 0 <= Main.MonthlyRecord.Month r <= 12) records ->
   Main.monthly_listing records 0
   = (map (fun r => (Main.MonthlyRecord.Year r,
                     nth (Z.to_nat (Main.MonthlyRecord.Month r)) Main.month_names ""%string,
                     Main.MonthlyRecord.EnergyWh r)) records,
      Ok (Main.int_of_Z (total_of (map Main.MonthlyRecord.EnergyWh records))))) /\
  (forall pre r post,
     records = pre ++ r :: post ->
     Forall (fun r => 0 <= Main.MonthlyRecord.Month r <= 12) pre ->
     ~ 0 <= Main.MonthlyRecord.Month r <= 12 ->
     exists msg,
       Main.monthly_listing records 0
       = (map (fun r => (Main.MonthlyRecord.Year r,
                         nth (Z.to_nat (Main.MonthlyRecord.Month r)) Main.month_names
                             ""%string,
                         Main.MonthlyRecord.EnergyWh r)) pre,
          Panic msg)).
Proof.
  assert (Hname : forall i, 0 <= i <= 12 ->
            Main.month_name i = Ok (nth (Z.to_nat i) Main.month_names ""%string)).
  { intros i Hi. unfold Main.month_name.
    assert (E0 : (i <? 0) = false) by (apply Z.ltb_ge; lia). rewrite E0.
    change (len Main.month_names) with 13.
    assert (E1 : (i >=? 13) = false) by (rewrite Z.geb_leb; apply Z.leb_gt; lia).
    rewrite E1. reflexivity. }
  assert (Hbad : forall i, ~ 0 <= i <= 12 -> exists msg, Main.month_name i = Panic msg).
  { intros i Hi. unfold Main.month_name. destruct (i <? 0) eqn:E0; [eexists; reflexivity|].
    apply Z.ltb_ge in E0. change (len Main.month_names) with 13.
    assert (E1 : (i >=? 13) = true) by (rewrite Z.geb_leb; apply Z.leb_le; lia).
    rewrite E1. eexists. reflexivity. }
  assert (Hgood : forall rs acc,
            Forall (fun r => 0 <= Main.MonthlyRecord.Month r <= 12) rs ->
            forall rest,
            Main.monthly_listing (rs ++ rest) (Main.int_of_Z acc)
            = (map (fun r => (Main.MonthlyRecord.Year r,
                              nth (Z.to_nat (Main.MonthlyRecord.Month r)) Main.month_names
                                  ""%string,
                              Main.MonthlyRecord.EnergyWh r)) rs
                 ++ fst (Main.monthly_listing rest
                           (Main.int_of_Z
                              (acc + total_of (map Main.MonthlyRecord.EnergyWh rs)))),
               snd (Main.monthly_listing rest
                      (Main.int_of_Z
                         (acc + total_of (map Main.MonthlyRecord.EnergyWh rs)))))).
  { intros rs. induction rs as [|r rs IH]; intros acc Hall rest.
    - cbn [app map total_of fold_right]. rewrite Z.add_0_r.
      destruct (Main.monthly_listing rest (Main.int_of_Z acc)). reflexivity.
    - inversion Hall as [|? ? Hr Hrs]; subst.
      cbn [app Main.monthly_listing]. rewrite (Hname _ Hr).
      rewrite MainFacts.int_of_Z_add_l, (IH _ Hrs). cbn [map app fst snd].
      replace (acc + Main.MonthlyRecord.EnergyWh r
               + total_of (map Main.MonthlyRecord.EnergyWh rs))
        with (acc + total_of (Main.MonthlyRecord.EnergyWh r
                              :: map Main.MonthlyRecord.EnergyWh rs))
        by (unfold total_of; cbn [fold_right]; lia).
      reflexivity. }
  split.
  - intros Hall. pose proof (Hgood records 0 Hall []) as H.
    rewrite app_nil_r in H. change (Main.int_of_Z 0) with 0 in H. rewrite H.
    cbn [Main.monthly_listing fst snd]. rewrite app_nil_r. reflexivity.
  - intros pre r post -> Hpre Hr. destruct (Hbad _ Hr) as [msg Hmsg].
    exists msg. pose proof (Hgood pre 0 Hpre (r :: post)) as H.
    change (Main.int_of_Z 0) with 0 in H. rewrite H.
    cbn [Main.monthly_listing]. rewrite Hmsg. cbn [fst snd]. rewrite app_nil_r. reflexivity.
Qed.
